(** * WallHack-Prevention-Demo: the server's visibility filtering, movement,
      bullets, spatial grid and wire codec, embedded in Rocq.

    The TypeScript sources are embedded function by function:
    - [src/server/spatial.ts]  -> [Module Spatial]
    - [src/server/los.ts]      -> [Module Los]
    - [src/server/protocol.ts] and [decodeUpdate] of [src/client/client.js]
                               -> [Module Protocol]
    - [src/server/bots.ts]     -> [Module Bots]
    - [src/server/index.ts]    -> [Module Index]
    - [terrain.ts] (heights)   -> [Module Terrain]

    A JavaScript [number] is an IEEE-754 binary64 value; it is modelled by the
    Standard Library's [spec_float] with the operations of [SpecFloat] at
    precision 53, so that NaN, the infinities, signed zeros and rounding are
    those of the program.  Timestamps ([Date.now()]), ids, hit points and
    counters are integral numbers far below 2^53 and are modelled by [Z]. *)

From Stdlib Require Import ZArith List Bool Lia Floats String Ascii.
From Stdlib Require Import Decimal DecimalString.
Import ListNotations.

Set Warnings "-inexact-float".
Set Implicit Arguments.

Open Scope Z_scope.

(* ================================================================== *)
(** * JavaScript numbers *)
(* ================================================================== *)

Definition num : Type := spec_float.

Declare Scope num_scope.
Delimit Scope num_scope with num.
Bind Scope num_scope with num.

Module JsNum.

Definition prec : Z := 53.
Definition emax : Z := 1024.

(** A numeric literal of the source: the binary64 value nearest to the
    decimal, as the kernel's float parser computes it. *)
Definition lit (f : float) : num := Prim2SF f.

Definition NaN : num := S754_nan.
Definition Infinity : num := S754_infinity false.

(** An integer as a number (exact below 2^53, rounded to nearest above). *)
Definition ofZ (z : Z) : num := binary_normalize prec emax z 0 false.

Definition nadd (a b : num) : num := SFadd prec emax a b.
Definition nsub (a b : num) : num := SFsub prec emax a b.
Definition nmul (a b : num) : num := SFmul prec emax a b.
Definition ndiv (a b : num) : num := SFdiv prec emax a b.
Definition nneg (a : num) : num := SFopp a.
Definition Math_abs (a : num) : num := SFabs a.
Definition Math_sqrt (a : num) : num := SFsqrt prec emax a.

(** [a < b], [a <= b], [a > b], [a >= b]: false as soon as one side is NaN. *)
Definition nlt (a b : num) : bool := SFltb a b.
Definition nle (a b : num) : bool := SFleb a b.
Definition ngt (a b : num) : bool := SFltb b a.
Definition nge (a b : num) : bool := SFleb b a.
(** [a === b] and [a !== b] on numbers: NaN differs from itself, 0 === -0. *)
Definition strict_eq (a b : num) : bool := SFeqb a b.
Definition strict_neq (a b : num) : bool := negb (SFeqb a b).

(** The integer part [floor (m * 2^e)] of a positive finite value, and
    whether the value is that integer. *)
Definition floor_pos (m : positive) (e : Z) : Z :=
  if 0 <=? e then Z.shiftl (Zpos m) e else Z.shiftr (Zpos m) (- e).
Definition integral (m : positive) (e : Z) : bool :=
  (0 <=? e) || (Z.shiftl (Z.shiftr (Zpos m) (- e)) (- e) =? Zpos m).

(** [Math.floor]: NaN, the infinities and both zeros are returned as they
    are. *)
Definition Math_floor (x : num) : num :=
  match x with
  | S754_finite s m e =>
      if 0 <=? e then x
      else
        let q := floor_pos m e in
        if s then nneg (ofZ (if integral m e then q else q + 1))
        else ofZ q
  | _ => x
  end.

(** [Math.ceil x] is [-Math.floor(-x)], signed zeros included. *)
Definition Math_ceil (x : num) : num := nneg (Math_floor (nneg x)).

(** The [%] of JavaScript: the exact remainder, with the sign of the
    dividend. *)
Definition nrem (x y : num) : num :=
  match x, y with
  | S754_nan, _ => NaN
  | _, S754_nan => NaN
  | S754_infinity _, _ => NaN
  | _, S754_zero _ => NaN
  | S754_zero _, _ => x
  | _, S754_infinity _ => x
  | S754_finite sx mx ex, S754_finite sy my ey =>
      let e := Z.min ex ey in
      let r := Z.rem (Z.shiftl (Zpos mx) (ex - e)) (Z.shiftl (Zpos my) (ey - e)) in
      if r =? 0 then S754_zero sx
      else binary_normalize prec emax (cond_Zopp sx r) e false
  end.

(** [Math.max] and [Math.min] of two numbers: NaN if either is NaN, and
    +0 is larger than -0. *)
Definition Math_max (a b : num) : num :=
  match a, b with
  | S754_nan, _ => NaN
  | _, S754_nan => NaN
  | S754_zero sa, S754_zero sb => S754_zero (sa && sb)
  | _, _ => if nlt a b then b else a
  end.
Definition Math_min (a b : num) : num :=
  match a, b with
  | S754_nan, _ => NaN
  | _, S754_nan => NaN
  | S754_zero sa, S754_zero sb => S754_zero (sa || sb)
  | _, _ => if nlt b a then b else a
  end.

(** The floor of a finite number as an integer (used to count the
    iterations of counting loops). *)
Definition floorZ (x : num) : option Z :=
  match x with
  | S754_zero _ => Some 0
  | S754_finite s m e =>
      let q := floor_pos m e in
      Some (if s then (if integral m e then - q else - (q + 1)) else q)
  | _ => None
  end.

(** What a number prints as inside a template literal [`${n}`].  Integral
    values print their digits (both zeros print "0"); NaN and the
    infinities print their names; [PFrac] stands for the digits of a
    non-integral value.  Printing is injective up to the sign of zero,
    which is all the program uses of the strings it builds. *)
Inductive printed : Type :=
| PInt (z : Z)
| PNaN
| PInfinity (negative : bool)
| PFrac (x : num).

Definition toString (x : num) : printed :=
  match x with
  | S754_nan => PNaN
  | S754_infinity s => PInfinity s
  | S754_zero _ => PInt 0
  | S754_finite s m e =>
      if integral m e then PInt (cond_Zopp s (floor_pos m e)) else PFrac x
  end.

(** [Number(str)] on such a string. *)
Definition Number (p : printed) : num :=
  match p with
  | PInt z => ofZ z
  | PNaN => NaN
  | PInfinity s => S754_infinity s
  | PFrac x => x
  end.

Definition num_eq_dec (a b : num) : {a = b} + {a <> b}.
Proof.
  decide equality; try apply Z.eq_dec; try apply Pos.eq_dec; apply bool_dec.
Defined.

Definition printed_eqb (a b : printed) : bool :=
  match a, b with
  | PInt x, PInt y => x =? y
  | PNaN, PNaN => true
  | PInfinity s, PInfinity t => Bool.eqb s t
  | PFrac x, PFrac y => if num_eq_dec x y then true else false
  | _, _ => false
  end.

End JsNum.

Notation "a + b" := (JsNum.nadd a b) : num_scope.
Notation "a - b" := (JsNum.nsub a b) : num_scope.
Notation "a * b" := (JsNum.nmul a b) : num_scope.
Notation "a / b" := (JsNum.ndiv a b) : num_scope.
Notation "- a" := (JsNum.nneg a) : num_scope.
Notation "a <? b" := (JsNum.nlt a b) : num_scope.
Notation "a <=? b" := (JsNum.nle a b) : num_scope.
Notation "a >? b" := (JsNum.ngt a b) : num_scope.
Notation "a >=? b" := (JsNum.nge a b) : num_scope.
Notation "a === b" := (JsNum.strict_eq a b) (at level 70, no associativity) : num_scope.
Notation "a !== b" := (JsNum.strict_neq a b) (at level 70, no associativity) : num_scope.
Notation "# f" := (JsNum.lit f%float) (at level 1, format "# f") : num_scope.

Import JsNum.

(* ================================================================== *)
(** * JavaScript [Map] and [Set] *)
(* ================================================================== *)

(** A [Map] iterates in insertion order: it is an association list without
    repeated keys.  [set] on a present key replaces the value in place, on an
    absent key appends the entry; [delete] drops the entry under the key. *)
Module JsMap.
Section WithKey.
Variables (K V : Type) (keq : K -> K -> bool).

Definition t : Type := list (K * V).

Fixpoint get (m : t) (k : K) : option V :=
  match m with
  | [] => None
  | (k', v) :: r => if keq k' k then Some v else get r k
  end.

Definition has (m : t) (k : K) : bool :=
  match get m k with Some _ => true | None => false end.

Fixpoint set (m : t) (k : K) (v : V) : t :=
  match m with
  | [] => [(k, v)]
  | (k', v') :: r => if keq k' k then (k', v) :: r else (k', v') :: set r k v
  end.

Definition delete (m : t) (k : K) : t :=
  filter (fun entry => negb (keq (fst entry) k)) m.

Definition keys (m : t) : list K := map fst m.
Definition size (m : t) : Z := Z.of_nat (List.length m).
End WithKey.
End JsMap.

(** A [Set<number>] of entity ids, in insertion order. *)
Module JsSet.
Definition t : Type := list Z.
Definition has (s : t) (x : Z) : bool := existsb (Z.eqb x) s.
Definition add (s : t) (x : Z) : t := if has s x then s else s ++ [x].
Definition delete (s : t) (x : Z) : t := filter (fun y => negb (y =? x)) s.
End JsSet.

(** Maps keyed by entity, client or socket ids. *)
Definition idmap (V : Type) : Type := JsMap.t Z V.
Definition id_get {V} (m : idmap V) (k : Z) : option V := JsMap.get Z.eqb m k.
Definition id_has {V} (m : idmap V) (k : Z) : bool := JsMap.has Z.eqb m k.
Definition id_set {V} (m : idmap V) (k : Z) (v : V) : idmap V := JsMap.set Z.eqb m k v.
Definition id_delete {V} (m : idmap V) (k : Z) : idmap V := JsMap.delete Z.eqb m k.

(* ================================================================== *)
(** * [types.ts] *)
(* ================================================================== *)

Record Vector3 : Type := mkVector3 { vx : num; vy : num; vz : num }.
Record Vector2 : Type := mkVector2 { v2x : num; v2z : num }.

Inductive ObstacleType : Type :=
| wall | hill | tree | house_wall | ruins | fence | tower | crate
| barricade | rock | shed | boundary | tree_foliage.

(** The tree decorations ([trunkRadius], [foliageRadius], [foliageColor])
    are only forwarded to clients in the CONFIG message and are left out. *)
Record Obstacle : Type := mkObstacle {
  o_position : Vector3;
  o_size : Vector3;
  o_type : ObstacleType
}.

Record Entity : Type := mkEntity {
  e_id : Z;
  position : Vector3;
  velocity : Vector3;
  rotation : num;
  pitch : num;
  isPlayer : bool;
  hp : Z;
  maxHp : Z
}.

(** [ClientConnection.entity] is the very object stored in
    [gameState.entities] under [id] (it is inserted there when the socket
    opens and removed when it closes, and only ever mutated in place), so the
    model keeps the entity in the entity table and reads [client.entity] as
    the table's entry for [c_id]. *)
Record ClientConnection : Type := mkClient {
  c_id : Z;
  losMode : bool;
  viewDistance : num;
  moveDirection : Vector2;
  shooting : bool;
  lastShotTime : Z
}.

Record GridCell : Type := mkCell {
  cell_obstacles : list Obstacle;
  cell_entities : JsSet.t
}.

Record Bullet : Type := mkBullet {
  b_id : Z;
  ownerId : Z;
  b_position : Vector3;
  direction : Vector3;
  speed : num;
  damage : Z;
  createdAt : Z
}.

Record HitEvent : Type := mkHit {
  h_position : Vector3;
  hitEntity : bool;
  entityId : option Z
}.

(** A cell key [`${cellX},${cellZ}`]: the two printed numbers. *)
Definition cellkey : Type := (printed * printed)%type.
Definition key_eqb (a b : cellkey) : bool :=
  printed_eqb (fst a) (fst b) && printed_eqb (snd a) (snd b).

Record SpatialGrid : Type := mkGrid {
  gridSize : num;
  cellSize : num;
  cells : JsMap.t cellkey GridCell
}.

Definition cells_get (m : JsMap.t cellkey GridCell) (k : cellkey) := JsMap.get key_eqb m k.
Definition cells_set (m : JsMap.t cellkey GridCell) (k : cellkey) (c : GridCell) :=
  JsMap.set key_eqb m k c.

Definition ObstacleType_eqb (a b : ObstacleType) : bool :=
  match a, b with
  | wall, wall | hill, hill | tree, tree | house_wall, house_wall
  | ruins, ruins | fence, fence | tower, tower | crate, crate
  | barricade, barricade | rock, rock | shed, shed | boundary, boundary
  | tree_foliage, tree_foliage => true
  | _, _ => false
  end.

(** Counting loops.  [for (let i = lo; i <= hi; i++)] over numbers: the
    values [i] takes.  Both bounds come out of [Math.floor] or [Math.ceil];
    when one is NaN the test fails at once and the body never runs.  (With
    [hi] equal to +Infinity the source would not terminate; no position of a
    terrain obstacle or of an entity gives such a bound, and the model then
    runs the body zero times.) *)
Definition count_loop (lo hi : num) : list num :=
  match floorZ (Math_ceil lo), floorZ hi with
  | Some a, Some b => map (fun k => ofZ (a + Z.of_nat k)) (seq 0 (Z.to_nat (b - a + 1)))
  | _, _ => []
  end.

(* ================================================================== *)
(** * [terrain.ts]: sizes and the height map *)
(* ================================================================== *)

Module Terrain.
Open Scope num_scope.

Definition TERRAIN_SIZE : num := #2000.
Definition GRID_SIZE : num := #400.
Definition CELL_SIZE : num := TERRAIN_SIZE / GRID_SIZE.
Definition TILE_SIZE : num := #10.
Definition HEIGHT_SCALE : num := #2.5.

Section WithMath.
  (** [Math.sin] is implementation-approximated in ECMAScript; the height
      map is defined for any such function. *)
Variable Math_sin : num -> num.

Definition seededRandom (x z : num) : num :=
    let n := Math_sin (x * #12.9898 + z * #78.233) * #43758.5453 in
    n - Math_floor n.

Definition getTerrainHeightAt (x z : num) : num :=
    let tileX := Math_floor (x / TILE_SIZE) in
    let tileZ := Math_floor (z / TILE_SIZE) in
    let fx := (x / TILE_SIZE) - tileX in
    let fz := (z / TILE_SIZE) - tileZ in
    let h00 := seededRandom tileX tileZ * HEIGHT_SCALE in
    let h10 := seededRandom (tileX + #1) tileZ * HEIGHT_SCALE in
    let h01 := seededRandom tileX (tileZ + #1) * HEIGHT_SCALE in
    let h11 := seededRandom (tileX + #1) (tileZ + #1) * HEIGHT_SCALE in
    let h0 := h00 * (#1 - fx) + h10 * fx in
    let h1 := h01 * (#1 - fx) + h11 * fx in
    h0 * (#1 - fz) + h1 * fz.

Definition getHeightAt (x z : num) : num := getTerrainHeightAt x z + #2.
End WithMath.
End Terrain.

(* ================================================================== *)
(** * [spatial.ts] *)
(* ================================================================== *)

Module Spatial.
Import Terrain.
Open Scope num_scope.

Definition HALF_TERRAIN : num := TERRAIN_SIZE / #2.
Definition INV_CELL_SIZE : num := #1 / CELL_SIZE.

Definition getCellCoords (x z : num) : num * num :=
  (Math_floor ((x + HALF_TERRAIN) * INV_CELL_SIZE),
   Math_floor ((z + HALF_TERRAIN) * INV_CELL_SIZE)).

Definition getCellKey (x z : num) : cellkey :=
  let cellX := Math_floor ((x + HALF_TERRAIN) * INV_CELL_SIZE) in
  let cellZ := Math_floor ((z + HALF_TERRAIN) * INV_CELL_SIZE) in
  (toString cellX, toString cellZ).

Definition getOccupiedCells (obstacle : Obstacle) : list cellkey :=
  let halfX := vx (o_size obstacle) / #2 in
  let halfZ := vz (o_size obstacle) / #2 in
  let minX := vx (o_position obstacle) - halfX in
  let maxX := vx (o_position obstacle) + halfX in
  let minZ := vz (o_position obstacle) - halfZ in
  let maxZ := vz (o_position obstacle) + halfZ in
  let minCellX := Math_floor ((minX + TERRAIN_SIZE / #2) / CELL_SIZE) in
  let maxCellX := Math_floor ((maxX + TERRAIN_SIZE / #2) / CELL_SIZE) in
  let minCellZ := Math_floor ((minZ + TERRAIN_SIZE / #2) / CELL_SIZE) in
  let maxCellZ := Math_floor ((maxZ + TERRAIN_SIZE / #2) / CELL_SIZE) in
  flat_map (fun x =>
    map (fun z => (toString x, toString z)) (count_loop minCellZ maxCellZ))
    (count_loop minCellX maxCellX).

Definition emptyCell : GridCell := mkCell [] [].

(** The cell under a key, created empty when absent. *)
Definition ensureCell (cs : JsMap.t cellkey GridCell) (k : cellkey) :=
  if JsMap.has key_eqb cs k then cs else cells_set cs k emptyCell.

Definition pushObstacle (cs : JsMap.t cellkey GridCell) (k : cellkey) (o : Obstacle) :=
  let cs := ensureCell cs k in
  match cells_get cs k with
  | Some c => cells_set cs k (mkCell (cell_obstacles c ++ [o]) (cell_entities c))
  | None => cs
  end.

Definition createSpatialGrid (obstacles : list Obstacle) : SpatialGrid :=
  mkGrid GRID_SIZE CELL_SIZE
    (fold_left (fun cs obstacle =>
       fold_left (fun cs cellKey => pushObstacle cs cellKey obstacle)
                 (getOccupiedCells obstacle) cs)
       obstacles []).

(** [entityCellsPacked]: entity id -> packed cell key. *)
Definition PackedCells : Type := idmap num.

Definition getPackedCellKey (x z : num) : num :=
  let cellX := Math_floor ((x + HALF_TERRAIN) * INV_CELL_SIZE) in
  let cellZ := Math_floor ((z + HALF_TERRAIN) * INV_CELL_SIZE) in
  cellX * #10000 + cellZ.

Definition packedToString (packed : num) : cellkey :=
  let cellX := Math_floor (packed / #10000) in
  let cellZ := nrem packed #10000 in
  (toString cellX, toString cellZ).

(** The grid together with the module-level state of [spatial.ts]:
    [entityCellsPacked] and [nearbyObstaclesCache]. *)
Record GridState : Type := mkGridState {
  grid : SpatialGrid;
  entityCellsPacked : PackedCells;
  nearbyObstaclesCache : JsMap.t cellkey (list Obstacle)
}.

Definition cellDeleteEntity (cs : JsMap.t cellkey GridCell) (k : cellkey) (entityId : Z) :=
  match cells_get cs k with
  | Some c => cells_set cs k (mkCell (cell_obstacles c) (JsSet.delete (cell_entities c) entityId))
  | None => cs
  end.

Definition cellAddEntity (cs : JsMap.t cellkey GridCell) (k : cellkey) (entityId : Z) :=
  let cs := ensureCell cs k in
  match cells_get cs k with
  | Some c => cells_set cs k (mkCell (cell_obstacles c) (JsSet.add (cell_entities c) entityId))
  | None => cs
  end.

Definition withCells (g : SpatialGrid) (cs : JsMap.t cellkey GridCell) : SpatialGrid :=
  mkGrid (gridSize g) (cellSize g) cs.

(** [updateEntityInGrid(grid, entityId, oldPos, newPos)]; [oldPos] is never
    read by the source (every caller passes [null]). *)
Definition updateEntityInGrid (gs : GridState) (entityId : Z) (newPos : Vector3) : GridState :=
  let newPacked := getPackedCellKey (vx newPos) (vz newPos) in
  let oldPacked := id_get (entityCellsPacked gs) entityId in
  let proceed (cs : JsMap.t cellkey GridCell) :=
    let newKey := packedToString newPacked in
    mkGridState (withCells (grid gs) (cellAddEntity cs newKey entityId))
                (id_set (entityCellsPacked gs) entityId newPacked)
                (nearbyObstaclesCache gs) in
  match oldPacked with
  | Some old =>
      if old === newPacked then gs
      else proceed (cellDeleteEntity (cells (grid gs)) (packedToString old) entityId)
  | None => proceed (cells (grid gs))
  end.

Definition removeEntityFromGrid (gs : GridState) (entityId : Z) : GridState :=
  match id_get (entityCellsPacked gs) entityId with
  | Some packed =>
      mkGridState
        (withCells (grid gs) (cellDeleteEntity (cells (grid gs)) (packedToString packed) entityId))
        (id_delete (entityCellsPacked gs) entityId)
        (nearbyObstaclesCache gs)
  | None => gs
  end.

(** Insertion into a [Set<string>] of keys. *)
Definition keyset_add (s : list cellkey) (k : cellkey) : list cellkey :=
  if existsb (key_eqb k) s then s else s ++ [k].

Definition getCellsAlongRay (start end_ : Vector3) : list cellkey :=
  let dx := vx end_ - vx start in
  let dz := vz end_ - vz start in
  let distance := Math_sqrt (dx * dx + dz * dz) in
  if distance <? #0.001 then [getCellKey (vx start) (vz start)]
  else
    let steps := Math_ceil (distance / CELL_SIZE) + #1 in
    fold_left (fun cells i =>
                 let t := i / steps in
                 let x := vx start + dx * t in
                 let z := vz start + dz * t in
                 keyset_add cells (getCellKey x z))
              (count_loop #0 steps) [].

Definition rayIntersectsBox (rayStart rayEnd boxCenter boxSize : Vector3) : bool :=
  let dirx := vx rayEnd - vx rayStart in
  let diry := vy rayEnd - vy rayStart in
  let dirz := vz rayEnd - vz rayStart in
  let rayLength := Math_sqrt (dirx * dirx + diry * diry + dirz * dirz) in
  if rayLength <? #0.001 then false
  else
    let dirx := dirx / rayLength in
    let diry := diry / rayLength in
    let dirz := dirz / rayLength in
    let minx := vx boxCenter - vx boxSize / #2 in
    let miny := vy boxCenter - vy boxSize / #2 in
    let minz := vz boxCenter - vz boxSize / #2 in
    let maxx := vx boxCenter + vx boxSize / #2 in
    let maxy := vy boxCenter + vy boxSize / #2 in
    let maxz := vz boxCenter + vz boxSize / #2 in
    (** One axis of the slab test: [None] is the early [return false]. *)
    let axis (d s lo hi : num) (tr : num * num) : option (num * num) :=
      if Math_abs d >? #0.0001 then
        let t1 := (lo - s) / d in
        let t2 := (hi - s) / d in
        Some (Math_max (fst tr) (Math_min t1 t2), Math_min (snd tr) (Math_max t1 t2))
      else if (s <? lo) || (s >? hi) then None else Some tr in
    match axis dirx (vx rayStart) minx maxx (#0, rayLength) with
    | None => false
    | Some tr =>
        match axis diry (vy rayStart) miny maxy tr with
        | None => false
        | Some tr =>
            match axis dirz (vz rayStart) minz maxz tr with
            | None => false
            | Some (tMin, tMax) => (tMax >=? tMin) && (tMin <=? rayLength)
            end
        end
    end.

(** ** The cache of nearby obstacles *)

Definition Vector3_eq_dec (a b : Vector3) : {a = b} + {a <> b}.
Proof. decide equality; apply num_eq_dec. Defined.

Definition Obstacle_eq_dec (a b : Obstacle) : {a = b} + {a <> b}.
Proof.
  decide equality; try apply Vector3_eq_dec.
  decide equality.
Defined.

(** Insertion into a [Set<Obstacle>].  The source compares object
    identities; the obstacles of a terrain are distinct objects, and merging
    two equal boxes changes no collision answer. *)
Definition obstacleset_add (s : list Obstacle) (o : Obstacle) : list Obstacle :=
  if existsb (fun o' => if Obstacle_eq_dec o o' then true else false) s then s else s ++ [o].

(** The keys [`${cx + dx},${cz + dz}`] for [dx], [dz] from -1 to 1, where
    [[cx, cz] = key.split(',').map(Number)]. *)
Definition neighbourKeys (key : cellkey) : list cellkey :=
  let cx := Number (fst key) in
  let cz := Number (snd key) in
  flat_map (fun dx => map (fun dz => (toString (cx + dx), toString (cz + dz)))
                          [#(-1); #0; #1])
           [#(-1); #0; #1].

Definition buildNearbyObstaclesCache (g : SpatialGrid) : JsMap.t cellkey (list Obstacle) :=
  let cellCoords :=
    fold_left (fun s (entry : cellkey * GridCell) =>
                 fold_left keyset_add (neighbourKeys (fst entry)) s)
              (cells g) [] in
  fold_left (fun cache key =>
     let obstacles :=
       fold_left (fun acc neighborKey =>
                    match cells_get (cells g) neighborKey with
                    | Some cell => fold_left obstacleset_add (cell_obstacles cell) acc
                    | None => acc
                    end)
                 (neighbourKeys key) [] in
     match obstacles with
     | [] => cache
     | _ => JsMap.set key_eqb cache key obstacles
     end)
    cellCoords [].

(** [getNearbyObstacles(grid, x, z)] only reads the cache. *)
Definition getNearbyObstacles (gs : GridState) (x z : num) : list Obstacle :=
  let '(cellX, cellZ) := getCellCoords x z in
  let key := (toString cellX, toString cellZ) in
  match JsMap.get key_eqb (nearbyObstaclesCache gs) key with
  | Some l => l
  | None => []
  end.

(** [getNearbyEntities]: nothing in the server calls it. *)
Definition getNearbyEntities (gs : GridState) (x z : num) : list Z :=
  let '(cellX, cellZ) := getCellCoords x z in
  flat_map (fun dx =>
    flat_map (fun dz =>
      match cells_get (cells (grid gs)) (toString (cellX + dx), toString (cellZ + dz)) with
      | Some cell => cell_entities cell
      | None => []
      end) [#(-1); #0; #1]) [#(-1); #0; #1].

End Spatial.

(* ================================================================== *)
(** * [los.ts] *)
(* ================================================================== *)

Module Los.
Import Spatial.
Open Scope num_scope.

Definition ENTITY_RADIUS : num := #1.0.
Definition ENTITY_HEIGHT : num := #3.6.
Definition EYE_HEIGHT : num := #3.0.

(** The first obstacle of a list that the ray hits makes the function
    return false. *)
Definition hasLineOfSight (start end_ : Vector3) (spatialGrid : SpatialGrid) : bool :=
  let cellKeys := getCellsAlongRay start end_ in
  forallb (fun cellKey =>
    match cells_get (cells spatialGrid) cellKey with
    | Some cell =>
        forallb (fun obstacle =>
                   negb (rayIntersectsBox start end_ (o_position obstacle) (o_size obstacle)))
                (cell_obstacles cell)
    | None => true
    end) cellKeys.

(** The four silhouette points of a target, in the order the source builds
    and tests them: left and right edge at head-top height, then left and
    right edge at foot level. *)
Definition eyeOf (viewerPos : Vector3) : Vector3 :=
  mkVector3 (vx viewerPos) (vy viewerPos + EYE_HEIGHT) (vz viewerPos).

Definition perpOf (viewerPos targetPos : Vector3) : num * num :=
  let dx := vx targetPos - vx viewerPos in
  let dz := vz targetPos - vz viewerPos in
  let distXZ := Math_sqrt (dx * dx + dz * dz) in
  ((- dz / distXZ) * ENTITY_RADIUS, (dx / distXZ) * ENTITY_RADIUS).

Definition leftPos (viewerPos targetPos : Vector3) : Vector3 :=
  let '(perpX, perpZ) := perpOf viewerPos targetPos in
  mkVector3 (vx targetPos + perpX) (vy targetPos + ENTITY_HEIGHT) (vz targetPos + perpZ).
Definition rightPos (viewerPos targetPos : Vector3) : Vector3 :=
  let '(perpX, perpZ) := perpOf viewerPos targetPos in
  mkVector3 (vx targetPos - perpX) (vy targetPos + ENTITY_HEIGHT) (vz targetPos - perpZ).
Definition leftBottomPos (viewerPos targetPos : Vector3) : Vector3 :=
  let '(perpX, perpZ) := perpOf viewerPos targetPos in
  mkVector3 (vx targetPos + perpX) (vy targetPos) (vz targetPos + perpZ).
Definition rightBottomPos (viewerPos targetPos : Vector3) : Vector3 :=
  let '(perpX, perpZ) := perpOf viewerPos targetPos in
  mkVector3 (vx targetPos - perpX) (vy targetPos) (vz targetPos - perpZ).

Definition canSeeEntity (viewerPos targetPos : Vector3) (spatialGrid : SpatialGrid) : bool :=
  let dx := vx targetPos - vx viewerPos in
  let dz := vz targetPos - vz viewerPos in
  let distXZ := Math_sqrt (dx * dx + dz * dz) in
  if distXZ <? #0.001 then true
  else
    let eyePos := eyeOf viewerPos in
    if hasLineOfSight eyePos (leftPos viewerPos targetPos) spatialGrid then true
    else if hasLineOfSight eyePos (rightPos viewerPos targetPos) spatialGrid then true
    else if hasLineOfSight eyePos (leftBottomPos viewerPos targetPos) spatialGrid then true
    else if hasLineOfSight eyePos (rightBottomPos viewerPos targetPos) spatialGrid then true
    else false.

(** The same function, also recording the ray ends [hasLineOfSight] was
    called on, in call order: what the short-circuiting of the source makes
    observable. *)
Definition canSeeEntity_casts (viewerPos targetPos : Vector3) (spatialGrid : SpatialGrid)
  : bool * list (Vector3 * Vector3) :=
  let dx := vx targetPos - vx viewerPos in
  let dz := vz targetPos - vz viewerPos in
  let distXZ := Math_sqrt (dx * dx + dz * dz) in
  if distXZ <? #0.001 then (true, [])
  else
    let eyePos := eyeOf viewerPos in
    let r1 := (eyePos, leftPos viewerPos targetPos) in
    let r2 := (eyePos, rightPos viewerPos targetPos) in
    let r3 := (eyePos, leftBottomPos viewerPos targetPos) in
    let r4 := (eyePos, rightBottomPos viewerPos targetPos) in
    if hasLineOfSight (fst r1) (snd r1) spatialGrid then (true, [r1])
    else if hasLineOfSight (fst r2) (snd r2) spatialGrid then (true, [r1; r2])
    else if hasLineOfSight (fst r3) (snd r3) spatialGrid then (true, [r1; r2; r3])
    else if hasLineOfSight (fst r4) (snd r4) spatialGrid then (true, [r1; r2; r3; r4])
    else (false, [r1; r2; r3; r4]).

(** [entityPositions] is the id -> position map built once per tick from
    the entity table; ids are numbers. *)
Definition getVisibleEntities (viewerPos : Vector3) (entityPositions : idmap Vector3)
  (spatialGrid : SpatialGrid) (viewDistance : num) (losMode : bool) (viewerId : Z) : list Z :=
  let viewDistanceSq := viewDistance * viewDistance in
  fold_left (fun visible (entry : Z * Vector3) =>
    let '(entityId, entityPos) := entry in
    if entityId =? viewerId then visible
    else
      let dx := vx entityPos - vx viewerPos in
      let dy := vy entityPos - vy viewerPos in
      let dz := vz entityPos - vz viewerPos in
      let distSq := dx * dx + dy * dy + dz * dz in
      if distSq >? viewDistanceSq then visible
      else if negb losMode then visible ++ [entityId]
      else if canSeeEntity viewerPos entityPos spatialGrid then visible ++ [entityId]
      else visible)
    entityPositions [].

End Los.

(* ================================================================== *)
(** * [protocol.ts], and [decodeUpdate] of [client.js] *)
(* ================================================================== *)

Module Protocol.
Open Scope Z_scope.

(** An [ArrayBuffer] is the list of its bytes, each in [0, 256). *)
Definition buffer : Type := list Z.

Definition MSG_CONFIG : Z := 1.
Definition MSG_UPDATE : Z := 2.
Definition MSG_INPUT : Z := 3.
Definition MSG_SHOOT : Z := 4.
Definition MSG_TOGGLE_MODE : Z := 5.
Definition ENTITY_FLAG_IS_PLAYER : Z := 1.

(** ** binary32 on the wire *)

Definition sign_bit (s : bool) : Z := if s then 2 ^ 31 else 0.

(** The pattern of a binary32 value given in canonical form. *)
Definition bits_of_binary32 (x : spec_float) : Z :=
  match x with
  | S754_nan => 2143289344                      (* 0x7fc00000 *)
  | S754_zero s => sign_bit s
  | S754_infinity s => sign_bit s + 2139095040  (* 0x7f800000 *)
  | S754_finite s m e =>
      sign_bit s +
      (if Zpos m <? 2 ^ 23 then Zpos m else (e + 150) * 2 ^ 23 + (Zpos m - 2 ^ 23))
  end.

(** [setFloat32] stores the binary32 nearest to the number (ties to even,
    overflow to an infinity). *)
Definition float32_bits (x : num) : Z :=
  match x with
  | S754_finite s m e => bits_of_binary32 (binary_normalize 24 128 (cond_Zopp s (Zpos m)) e s)
  | _ => bits_of_binary32 x
  end.

(** [getFloat32] reads a pattern back as a number; every binary32 value is a
    binary64 value. *)
Definition float32_of_bits (b : Z) : num :=
  let s := Z.testbit b 31 in
  let E := (b / 2 ^ 23) mod 256 in
  let F := b mod 2 ^ 23 in
  if E =? 255 then (if F =? 0 then S754_infinity s else S754_nan)
  else if E =? 0 then binary_normalize JsNum.prec JsNum.emax (cond_Zopp s F) (-149) s
  else binary_normalize JsNum.prec JsNum.emax (cond_Zopp s (F + 2 ^ 23)) (E - 150) s.

(** [Math.fround]: what a number becomes once written with [setFloat32] and
    read with [getFloat32]. *)
Definition fround (x : num) : num := float32_of_bits (float32_bits x mod 2 ^ 32).

(** ** [DataView] setters, little-endian; integers are reduced modulo the
    field width as [ToUint8], [ToUint16] and [ToUint32] do. *)
Definition setUint8 (v : Z) : buffer := [v mod 256].
Definition setUint16 (v : Z) : buffer := [v mod 256; (v / 256) mod 256].
Definition setUint32 (v : Z) : buffer :=
  [v mod 256; (v / 256) mod 256; (v / 65536) mod 256; (v / 16777216) mod 256].
Definition setFloat32 (x : num) : buffer := setUint32 (float32_bits x).

(** ** [DataView] getters at a byte offset; a read past the end throws a
    RangeError, which is [None]. *)
Definition getUint8 (buf : buffer) (off : nat) : option Z :=
  match skipn off buf with
  | b0 :: _ => Some b0
  | _ => None
  end.
Definition getUint16 (buf : buffer) (off : nat) : option Z :=
  match skipn off buf with
  | b0 :: b1 :: _ => Some (b0 + 256 * b1)
  | _ => None
  end.
Definition getUint32 (buf : buffer) (off : nat) : option Z :=
  match skipn off buf with
  | b0 :: b1 :: b2 :: b3 :: _ => Some (b0 + 256 * b1 + 65536 * b2 + 16777216 * b3)
  | _ => None
  end.
Definition getFloat32 (buf : buffer) (off : nat) : option num :=
  option_map float32_of_bits (getUint32 buf off).

Notation "x <- a ;; b" := (match a with Some x => b | None => None end)
  (at level 61, a at next level, right associativity).

(** ** The arguments of [encodeUpdate] *)

Record EntityUpdate : Type := mkEntityUpdate {
  u_id : Z;
  u_position : Vector3;
  u_rotation : num;
  u_pitch : num;
  u_hp : Z;
  u_maxHp : Z;
  u_isPlayer : bool
}.

Record HitUpdate : Type := mkHitUpdate {
  hu_position : Vector3;
  hu_hitEntity : bool
}.

Inductive ServerMode : Type := classical | los.

Record Stats : Type := mkStats {
  totalEntities : Z;
  totalObstacles : Z;
  connectedPlayers : Z;
  tickTimeMsPerSec : num;
  losTimeMsPerSec : num;
  tickTimeMsAvg : num;
  visibleEntities : Z;
  serverMode : ServerMode;
  tickRate : Z
}.

(** [bullets] are [{ position }] objects: a bullet is its position. *)
Record Update : Type := mkUpdate {
  myPosition : Vector3;
  upd_entities : list EntityUpdate;
  upd_bullets : list Vector3;
  upd_hits : list HitUpdate;
  upd_stats : Stats
}.

Definition setVector3 (p : Vector3) : buffer :=
  setFloat32 (vx p) ++ setFloat32 (vy p) ++ setFloat32 (vz p).

Definition encodeEntity (entity : EntityUpdate) : buffer :=
  setUint32 (u_id entity) ++
  setVector3 (u_position entity) ++
  setFloat32 (u_rotation entity) ++
  setFloat32 (u_pitch entity) ++
  setUint16 (u_hp entity) ++
  setUint16 (u_maxHp entity) ++
  setUint8 (if u_isPlayer entity then ENTITY_FLAG_IS_PLAYER else 0).

Definition encodeHit (hit : HitUpdate) : buffer :=
  setVector3 (hu_position hit) ++ setUint8 (if hu_hitEntity hit then 1 else 0).

Definition encodeStats (stats : Stats) : buffer :=
  setUint32 (totalEntities stats) ++
  setUint32 (totalObstacles stats) ++
  setUint16 (connectedPlayers stats) ++
  setFloat32 (tickTimeMsPerSec stats) ++
  setFloat32 (losTimeMsPerSec stats) ++
  setFloat32 (tickTimeMsAvg stats) ++
  setUint16 (visibleEntities stats) ++
  setUint8 (match serverMode stats with los => 1 | classical => 0 end) ++
  setUint8 (tickRate stats) ++
  [0; 0].

(** [encodeUpdate] allocates [totalSize] zero bytes and writes every field at
    the running [offset], each byte once and in increasing order, leaving the
    last two bytes zero: the buffer is the concatenation of the fields. *)
Definition encodeUpdate (myPosition : Vector3) (entities : list EntityUpdate)
  (bullets : list Vector3) (hits : list HitUpdate) (stats : Stats) : buffer :=
  setUint8 MSG_UPDATE ++
  setVector3 myPosition ++
  setUint16 (Z.of_nat (List.length entities)) ++
  flat_map encodeEntity entities ++
  setUint16 (Z.of_nat (List.length bullets)) ++
  flat_map setVector3 bullets ++
  setUint16 (Z.of_nat (List.length hits)) ++
  flat_map encodeHit hits ++
  encodeStats stats.

(** ** [decodeUpdate] (client) *)

(** [n.toString()] of an unsigned integer. *)
Definition uint_toString (n : Z) : string :=
  NilZero.string_of_uint (N.to_uint (Z.to_N n)).

Record ClientEntity : Type := mkClientEntity {
  ce_id : string;
  ce_name : string;
  ce_position : Vector3;
  ce_rotation : num;
  ce_pitch : num;
  ce_hp : Z;
  ce_maxHp : Z;
  ce_isPlayer : bool
}.

Record ClientStats : Type := mkClientStats {
  cs_totalEntities : Z;
  cs_totalObstacles : Z;
  cs_connectedPlayers : Z;
  cs_tickTimeMsPerSec : num;
  cs_losTimeMsPerSec : num;
  cs_tickTimeMsAvg : num;
  cs_visibleEntities : Z;
  cs_serverMode : ServerMode;
  cs_tickRate : Z
}.

Record DecodedUpdate : Type := mkDecoded {
  d_myPosition : Vector3;
  d_entities : list ClientEntity;
  d_bullets : list Vector3;
  d_hits : list HitUpdate;
  d_stats : ClientStats
}.

Definition getVector3 (view : buffer) (offset : nat) : option Vector3 :=
  x <- getFloat32 view offset ;;
  y <- getFloat32 view (offset + 4) ;;
  z <- getFloat32 view (offset + 8) ;;
  Some (mkVector3 x y z).

Definition decodeEntity (view : buffer) (offset : nat) : option ClientEntity :=
  numericId <- getUint32 view offset ;;
  flags <- getUint8 view (offset + 28) ;;
  let isPlayer := negb (Z.land flags 1 =? 0) in
  position <- getVector3 view (offset + 4) ;;
  rotation <- getFloat32 view (offset + 16) ;;
  pitch <- getFloat32 view (offset + 20) ;;
  hp <- getUint16 view (offset + 24) ;;
  maxHp <- getUint16 view (offset + 26) ;;
  Some (mkClientEntity
          (uint_toString numericId)
          ((if isPlayer then "Player " else "Bot ") ++ uint_toString numericId)%string
          position rotation pitch hp maxHp isPlayer).

(** The three [for (let i = 0; i < count; i++)] loops: [count] records of
    [size] bytes from [offset] on. *)
Fixpoint decodeMany {A : Type} (one : buffer -> nat -> option A) (size : nat)
  (view : buffer) (offset : nat) (count : nat) : option (list A) :=
  match count with
  | O => Some []
  | S n =>
      a <- one view offset ;;
      r <- decodeMany one size view (offset + size) n ;;
      Some (a :: r)
  end.

Definition decodeHit (view : buffer) (offset : nat) : option HitUpdate :=
  position <- getVector3 view offset ;;
  b <- getUint8 view (offset + 12) ;;
  Some (mkHitUpdate position (b =? 1)).

Definition decodeStats (view : buffer) (offset : nat) : option ClientStats :=
  totalEntities <- getUint32 view offset ;;
  totalObstacles <- getUint32 view (offset + 4) ;;
  connectedPlayers <- getUint16 view (offset + 8) ;;
  tickTimeMsPerSec <- getFloat32 view (offset + 10) ;;
  losTimeMsPerSec <- getFloat32 view (offset + 14) ;;
  tickTimeMsAvg <- getFloat32 view (offset + 18) ;;
  visibleEntities <- getUint16 view (offset + 22) ;;
  mode <- getUint8 view (offset + 24) ;;
  tickRate <- getUint8 view (offset + 25) ;;
  Some (mkClientStats totalEntities totalObstacles connectedPlayers
          tickTimeMsPerSec losTimeMsPerSec tickTimeMsAvg visibleEntities
          (if mode =? 1 then los else classical) tickRate).

Definition decodeUpdate (view : buffer) : option DecodedUpdate :=
  let offset := 1%nat in
  myPosition <- getVector3 view offset ;;
  let offset := (offset + 12)%nat in
  entityCount <- getUint16 view offset ;;
  let offset := (offset + 2)%nat in
  entities <- decodeMany decodeEntity 29 view offset (Z.to_nat entityCount) ;;
  let offset := (offset + 29 * Z.to_nat entityCount)%nat in
  bulletCount <- getUint16 view offset ;;
  let offset := (offset + 2)%nat in
  bullets <- decodeMany getVector3 12 view offset (Z.to_nat bulletCount) ;;
  let offset := (offset + 12 * Z.to_nat bulletCount)%nat in
  hitCount <- getUint16 view offset ;;
  let offset := (offset + 2)%nat in
  hits <- decodeMany decodeHit 13 view offset (Z.to_nat hitCount) ;;
  let offset := (offset + 13 * Z.to_nat hitCount)%nat in
  stats <- decodeStats view offset ;;
  Some (mkDecoded myPosition entities bullets hits stats).

(** ** Client-to-server messages *)

Record InputMessage : Type := mkInput {
  in_moveDirection : Vector2;
  in_rotation : num;
  in_pitch : num
}.

Definition decodeInput (buf : buffer) : option InputMessage :=
  if (List.length buf <? 17)%nat then None
  else
    match getUint8 buf 0 with
    | Some ty =>
        if negb (ty =? MSG_INPUT) then None
        else
          x <- getFloat32 buf 1 ;;
          z <- getFloat32 buf 5 ;;
          rotation <- getFloat32 buf 9 ;;
          pitch <- getFloat32 buf 13 ;;
          Some (mkInput (mkVector2 x z) rotation pitch)
    | None => None
    end.

Definition decodeShoot (buf : buffer) : option bool :=
  if (List.length buf <? 2)%nat then None
  else
    match getUint8 buf 0, getUint8 buf 1 with
    | Some ty, Some b => if negb (ty =? MSG_SHOOT) then None else Some (b =? 1)
    | _, _ => None
    end.

Definition decodeToggleMode (buf : buffer) : option bool :=
  if (List.length buf <? 2)%nat then None
  else
    match getUint8 buf 0, getUint8 buf 1 with
    | Some ty, Some b => if negb (ty =? MSG_TOGGLE_MODE) then None else Some (b =? 1)
    | _, _ => None
    end.

(** [encodeInput] of the client. *)
Definition encodeInput (moveX moveZ rotation pitch : num) : buffer :=
  setUint8 MSG_INPUT ++ setFloat32 moveX ++ setFloat32 moveZ ++
  setFloat32 rotation ++ setFloat32 pitch.

End Protocol.

(* ================================================================== *)
(** * [bots.ts] *)
(* ================================================================== *)

(** [Math.PI]. *)
Definition Math_PI : num := #3.141592653589793.

(** [Math.random()] is an input: the n-th call of a handler returns
    [rnd n]. *)
Definition randoms : Type := nat -> num.

Definition setPosition (e : Entity) (p : Vector3) : Entity :=
  mkEntity (e_id e) p (velocity e) (rotation e) (pitch e) (isPlayer e) (hp e) (maxHp e).
Definition setRotation (e : Entity) (r : num) : Entity :=
  mkEntity (e_id e) (position e) (velocity e) r (pitch e) (isPlayer e) (hp e) (maxHp e).
Definition setPitch (e : Entity) (p : num) : Entity :=
  mkEntity (e_id e) (position e) (velocity e) (rotation e) p (isPlayer e) (hp e) (maxHp e).
Definition setHp (e : Entity) (h : Z) : Entity :=
  mkEntity (e_id e) (position e) (velocity e) (rotation e) (pitch e) (isPlayer e) h (maxHp e).

Module Bots.
Import Terrain Spatial.
Open Scope num_scope.

(** [ToInt32] and [ToUint32]. *)
Definition toInt32 (z : Z) : Z := ((z + 2 ^ 31) mod 2 ^ 32 - 2 ^ 31)%Z.
Definition toUint32 (z : Z) : Z := (z mod 2 ^ 32)%Z.

(** [fastRandom]: the result and the new [rngState].  The shifts and xors
    work on 32-bit signed integers; [>>] keeps the sign. *)
Definition fastRandom (rngState : Z) : num * Z :=
  let s := Z.lxor (toInt32 rngState) (toInt32 (Z.shiftl (toInt32 rngState) 13)) in
  let s := Z.lxor s (Z.shiftr s 17) in
  let s := Z.lxor s (toInt32 (Z.shiftl s 5)) in
  (ofZ (toUint32 s) / #4294967296, s).

Definition TABLE_SIZE : num := #360.
Definition TABLE_SCALE : num := TABLE_SIZE / (Math_PI * #2).

Definition SOLID_TYPES : list ObstacleType :=
  [house_wall; ruins; tower; shed; crate; barricade; rock; fence; boundary; tree].
Definition isSolid (t : ObstacleType) : bool := existsb (ObstacleType_eqb t) SOLID_TYPES.

Definition checkCollision (x z : num) (gs : GridState) : bool :=
  let collisionRadius := #1.5 in
  existsb (fun obstacle =>
    if negb (isSolid (o_type obstacle)) then false
    else
      let halfX := vx (o_size obstacle) / #2 in
      let halfZ := vz (o_size obstacle) / #2 in
      let minX := vx (o_position obstacle) - halfX - collisionRadius in
      let maxX := vx (o_position obstacle) + halfX + collisionRadius in
      let minZ := vz (o_position obstacle) - halfZ - collisionRadius in
      let maxZ := vz (o_position obstacle) + halfZ + collisionRadius in
      (x >=? minX) && (x <=? maxX) && (z >=? minZ) && (z <=? maxZ))
    (getNearbyObstacles gs x z).

Section WithMath.
Variables Math_sin Math_cos : num -> num.

(** [SIN_TABLE[i]] and [COS_TABLE[i]] for [i] from 0 to 359; any other index
    reads [undefined], which arithmetic turns into NaN. *)
Definition tableAt (f : num -> num) (index : num) : num :=
  match toString index with
  | PInt i =>
      if ((0 <=? i) && (i <? 360))%Z
      then f ((ofZ i / TABLE_SIZE) * Math_PI * #2)
      else NaN
  | _ => NaN
  end.

Definition fastSin (angle : num) : num :=
  let normalized := nrem (nrem angle (Math_PI * #2) + Math_PI * #2) (Math_PI * #2) in
  let index := nrem (Math_floor (normalized * TABLE_SCALE)) TABLE_SIZE in
  tableAt Math_sin index.

Definition fastCos (angle : num) : num :=
  let normalized := nrem (nrem angle (Math_PI * #2) + Math_PI * #2) (Math_PI * #2) in
  let index := nrem (Math_floor (normalized * TABLE_SCALE)) TABLE_SIZE in
  tableAt Math_cos index.

Definition createBot (id : Z) (r1 r2 r3 : num) : Entity :=
  let x := (r1 - #0.5) * (TERRAIN_SIZE - #100) in
  let z := (r2 - #0.5) * (TERRAIN_SIZE - #100) in
  let y := getHeightAt Math_sin x z in
  mkEntity id (mkVector3 x y z) (mkVector3 #0 #0 #0) (r3 * Math_PI * #2) #0 false 100 100.

Definition createBots (count : nat) (rnd : randoms) : idmap Entity :=
  map (fun i => (Z.of_nat i,
                 createBot (Z.of_nat i) (rnd (3 * i)%nat) (rnd (3 * i + 1)%nat) (rnd (3 * i + 2)%nat)))
      (seq 0 count).

(** [updateBot(bot, deltaTime, spatialGrid)]: the bot after the call and the
    new [rngState]. *)
Definition updateBot (bot : Entity) (deltaTime : num) (gs : GridState) (rngState : Z)
  : Entity * Z :=
  let speed := #5 in
  let turnSpeed := #1 in
  let '(r, rngState) := fastRandom rngState in
  let '(bot, rngState) :=
    if r <? #0.02 then
      let '(r', rngState) := fastRandom rngState in
      (setRotation bot (rotation bot + (r' - #0.5) * turnSpeed * deltaTime * #10), rngState)
    else (bot, rngState) in
  let dx := fastSin (rotation bot) * speed * deltaTime in
  let dz := fastCos (rotation bot) * speed * deltaTime in
  let newX := vx (position bot) + dx in
  let newZ := vz (position bot) + dz in
  let boundary := TERRAIN_SIZE / #2 - #50 in
  if (Math_abs newX >? boundary) || (Math_abs newZ >? boundary) then
    (setRotation bot (rotation bot + Math_PI), rngState)
  else
    let '(finalX, finalZ, moved) :=
      if negb (checkCollision newX newZ gs) then (newX, newZ, true)
      else
        let '(finalX, moved) :=
          if (dx !== #0) && negb (checkCollision newX (vz (position bot)) gs)
          then (newX, true) else (vx (position bot), false) in
        let '(finalZ, moved) :=
          if (dz !== #0) && negb (checkCollision (vx (position bot)) newZ gs)
          then (newZ, true) else (vz (position bot), moved) in
        (finalX, finalZ, moved) in
    if moved then
      (setPosition bot (mkVector3 finalX (getHeightAt Math_sin finalX finalZ) finalZ), rngState)
    else
      let '(r'', rngState) := fastRandom rngState in
      (setRotation bot (rotation bot + (Math_PI / #2 + (r'' - #0.5) * Math_PI / #4)), rngState).

End WithMath.
End Bots.

(* ================================================================== *)
(** * [index.ts] *)
(* ================================================================== *)

Module Index.
Import Terrain Spatial Los.
Open Scope num_scope.

Definition VIEW_DISTANCE : num := #200.
Definition BOTS_COUNT : nat := 600.

Definition BULLET_SPEED : num := #150.
Definition BULLET_DAMAGE : Z := 20.
Definition FIRE_RATE : Z := 5.
Definition FIRE_INTERVAL : Z := (1000 / FIRE_RATE)%Z.
Definition BULLET_LIFETIME : Z := 3000.
Definition BULLET_RADIUS : num := #0.3.

Definition LOS_GRACE_TICKS : Z := 1.

Definition PLAYER_SPEED : num := #50.
Definition TICK_RATE : Z := 30.

Definition SOLID_TYPES : list ObstacleType :=
  [house_wall; ruins; tower; shed; crate; barricade; rock; fence; boundary; tree].
Definition isSolid (t : ObstacleType) : bool := existsb (ObstacleType_eqb t) SOLID_TYPES.

Record CurrentStats : Type := mkCurrentStats {
  st_tickTimeMsAvg : num;
  st_tickTimeMsPerSec : num;
  st_losTimeMsAvg : num;
  st_losTimeMsPerSec : num
}.

(** The module-level state of the server.  Sockets are named by integers.
    The rolling timing statistics ([performance.now()] measurements) only
    feed the stats block of the frames: [currentStats] is carried as it is
    and its once-a-second refresh is left out, like logging and [Perf]. *)
Record ServerState : Type := mkServer {
  entities : idmap Entity;                      (* gameState.entities *)
  obstacles : list Obstacle;                    (* gameState.obstacles *)
  gstate : GridState;                           (* gameState.spatialGrid, and spatial.ts *)
  clients : idmap ClientConnection;             (* socket -> client *)
  recentlyVisibleEntities : idmap (idmap Z);    (* client id -> entity id -> ticks *)
  bullets : list Bullet;
  bulletIdCounter : Z;
  tickHitEvents : list HitEvent;
  playerIdCounter : Z;
  lastTime : Z;
  rngState : Z;                                 (* bots.ts *)
  running : bool;                               (* gameLoopInterval !== null *)
  currentStats : CurrentStats
}.

Definition with_entities (s : ServerState) (v : idmap Entity) : ServerState :=
  mkServer v (obstacles s) (gstate s) (clients s) (recentlyVisibleEntities s) (bullets s)
    (bulletIdCounter s) (tickHitEvents s) (playerIdCounter s) (lastTime s) (rngState s)
    (running s) (currentStats s).
Definition with_gstate (s : ServerState) (v : GridState) : ServerState :=
  mkServer (entities s) (obstacles s) v (clients s) (recentlyVisibleEntities s) (bullets s)
    (bulletIdCounter s) (tickHitEvents s) (playerIdCounter s) (lastTime s) (rngState s)
    (running s) (currentStats s).
Definition with_clients (s : ServerState) (v : idmap ClientConnection) : ServerState :=
  mkServer (entities s) (obstacles s) (gstate s) v (recentlyVisibleEntities s) (bullets s)
    (bulletIdCounter s) (tickHitEvents s) (playerIdCounter s) (lastTime s) (rngState s)
    (running s) (currentStats s).
Definition with_grace (s : ServerState) (v : idmap (idmap Z)) : ServerState :=
  mkServer (entities s) (obstacles s) (gstate s) (clients s) v (bullets s)
    (bulletIdCounter s) (tickHitEvents s) (playerIdCounter s) (lastTime s) (rngState s)
    (running s) (currentStats s).
Definition with_bullets (s : ServerState) (v : list Bullet) (c : Z) : ServerState :=
  mkServer (entities s) (obstacles s) (gstate s) (clients s) (recentlyVisibleEntities s) v
    c (tickHitEvents s) (playerIdCounter s) (lastTime s) (rngState s)
    (running s) (currentStats s).
Definition with_hits (s : ServerState) (v : list HitEvent) : ServerState :=
  mkServer (entities s) (obstacles s) (gstate s) (clients s) (recentlyVisibleEntities s)
    (bullets s) (bulletIdCounter s) v (playerIdCounter s) (lastTime s) (rngState s)
    (running s) (currentStats s).
Definition with_playerIdCounter (s : ServerState) (v : Z) : ServerState :=
  mkServer (entities s) (obstacles s) (gstate s) (clients s) (recentlyVisibleEntities s)
    (bullets s) (bulletIdCounter s) (tickHitEvents s) v (lastTime s) (rngState s)
    (running s) (currentStats s).
Definition with_lastTime (s : ServerState) (v : Z) : ServerState :=
  mkServer (entities s) (obstacles s) (gstate s) (clients s) (recentlyVisibleEntities s)
    (bullets s) (bulletIdCounter s) (tickHitEvents s) (playerIdCounter s) v (rngState s)
    (running s) (currentStats s).
Definition with_rngState (s : ServerState) (v : Z) : ServerState :=
  mkServer (entities s) (obstacles s) (gstate s) (clients s) (recentlyVisibleEntities s)
    (bullets s) (bulletIdCounter s) (tickHitEvents s) (playerIdCounter s) (lastTime s) v
    (running s) (currentStats s).
Definition with_running (s : ServerState) (v : bool) : ServerState :=
  mkServer (entities s) (obstacles s) (gstate s) (clients s) (recentlyVisibleEntities s)
    (bullets s) (bulletIdCounter s) (tickHitEvents s) (playerIdCounter s) (lastTime s)
    (rngState s) v (currentStats s).

Definition setClientInput (c : ClientConnection) (d : Vector2) : ClientConnection :=
  mkClient (c_id c) (losMode c) (viewDistance c) d (shooting c) (lastShotTime c).
Definition setShooting (c : ClientConnection) (b : bool) : ClientConnection :=
  mkClient (c_id c) (losMode c) (viewDistance c) (moveDirection c) b (lastShotTime c).
Definition setLosMode (c : ClientConnection) (b : bool) : ClientConnection :=
  mkClient (c_id c) b (viewDistance c) (moveDirection c) (shooting c) (lastShotTime c).
Definition setLastShotTime (c : ClientConnection) (t : Z) : ClientConnection :=
  mkClient (c_id c) (losMode c) (viewDistance c) (moveDirection c) (shooting c) t.

(** [startGameLoop] and [stopGameLoop]; [now] is [Date.now()]. *)
Definition startGameLoop (now : Z) (s : ServerState) : ServerState :=
  if running s then s else with_running (with_lastTime s now) true.
Definition stopGameLoop (s : ServerState) : ServerState :=
  if running s then with_running s false else s.

(** ** Player movement (the [players_update] loop of [gameTick]) *)

(** The closure [checkCollision] of the loop body. *)
Definition checkCollision (gs : GridState) (x z : num) : bool :=
  let boundary := TERRAIN_SIZE / #2 - #10 in
  let PLAYER_RADIUS := #1.5 in
  if (Math_abs x >=? boundary) || (Math_abs z >=? boundary) then true
  else
    existsb (fun obstacle =>
      if negb (isSolid (o_type obstacle)) then false
      else
        let halfX := vx (o_size obstacle) / #2 + PLAYER_RADIUS in
        let halfZ := vz (o_size obstacle) / #2 + PLAYER_RADIUS in
        (x >? vx (o_position obstacle) - halfX) &&
        (x <? vx (o_position obstacle) + halfX) &&
        (z >? vz (o_position obstacle) - halfZ) &&
        (z <? vz (o_position obstacle) + halfZ))
      (getNearbyObstacles gs x z).

(** The position the wall-sliding of the loop body settles on. *)
Definition slide (gs : GridState) (pos : Vector3) (dx dz : num) : num * num :=
  let newX := vx pos + dx in
  let newZ := vz pos + dz in
  if negb (checkCollision gs newX newZ) then (newX, newZ)
  else
    let finalX :=
      if (dx !== #0) && negb (checkCollision gs newX (vz pos)) then newX else vx pos in
    let finalZ :=
      if (dz !== #0) && negb (checkCollision gs (vx pos) newZ) then newZ else vz pos in
    (finalX, finalZ).

Section WithMath.
Variables Math_sin Math_cos : num -> num.

Local Abbreviation getHeightAt := (Terrain.getHeightAt Math_sin).

(** One iteration of [for (const [ws, client] of clients)]: the entity table
    and the grid after it. *)
Definition movePlayer (deltaTime : num) (client : ClientConnection)
  (w : idmap Entity * GridState) : idmap Entity * GridState :=
  let '(ents, gs) := w in
  match id_get ents (c_id client) with
  | None => w
  | Some entity =>
      let moveDirection := moveDirection client in
      if (v2x moveDirection !== #0) || (v2z moveDirection !== #0) then
        let dx := v2x moveDirection * PLAYER_SPEED * deltaTime in
        let dz := v2z moveDirection * PLAYER_SPEED * deltaTime in
        let '(finalX, finalZ) := slide gs (position entity) dx dz in
        if (finalX !== vx (position entity)) || (finalZ !== vz (position entity)) then
          let p := mkVector3 finalX (getHeightAt finalX finalZ) finalZ in
          (id_set ents (c_id client) (setPosition entity p),
           updateEntityInGrid gs (c_id client) p)
        else w
      else w
  end.

Definition playerStep (deltaTime : num) (w : idmap Entity * GridState)
  (entry : Z * ClientConnection) : idmap Entity * GridState :=
  movePlayer deltaTime (snd entry) w.

Definition playersUpdate (deltaTime : num) (s : ServerState) : ServerState :=
  let r := fold_left (playerStep deltaTime) (clients s) (entities s, gstate s) in
  with_gstate (with_entities s (fst r)) (snd r).

(** ** Bots (the first two loops of [gameTick]) *)

(** One iteration of [for (const [id, entity] of gameState.entities)]: the
    entries visited so far, with the bots among them updated, and
    [rngState]. *)
Definition botStep (deltaTime : num) (gs : GridState) (acc : idmap Entity * Z)
  (entry : Z * Entity) : idmap Entity * Z :=
  if negb (isPlayer (snd entry)) then
    let r := Bots.updateBot Math_sin Math_cos (snd entry) deltaTime gs (snd acc) in
    (fst acc ++ [(fst entry, fst r)], snd r)
  else (fst acc ++ [entry], snd acc).

Definition botsUpdate (deltaTime : num) (s : ServerState) : ServerState :=
  let r := fold_left (botStep deltaTime (gstate s)) (entities s) ([], rngState s) in
  with_rngState (with_entities s (fst r)) (snd r).

Definition botGridStep (gs : GridState) (entry : Z * Entity) : GridState :=
  if negb (isPlayer (snd entry)) then updateEntityInGrid gs (fst entry) (position (snd entry))
  else gs.

Definition botsGridUpdate (s : ServerState) : ServerState :=
  with_gstate s (fold_left botGridStep (entities s) (gstate s)).

(** ** Bullet spawning *)

(** [x || 0] on a number. *)
Definition orZero (x : num) : num :=
  match x with
  | S754_nan => #0
  | S754_zero _ => #0
  | _ => x
  end.

Definition newBullet (now : Z) (client : ClientConnection) (entity : Entity) (id : Z) : Bullet :=
  let yaw := rotation entity in
  let pitch := orZero (pitch entity) in
  let cosPitch := Math_cos pitch in
  let dirX := - Math_sin yaw * cosPitch in
  let dirY := Math_sin pitch in
  let dirZ := - Math_cos yaw * cosPitch in
  let EYE_HEIGHT := #3.0 in
  let spawnOffset := #1.5 in
  mkBullet id (c_id client)
    (mkVector3 (vx (position entity) + dirX * spawnOffset)
               (vy (position entity) + EYE_HEIGHT + dirY * spawnOffset)
               (vz (position entity) + dirZ * spawnOffset))
    (mkVector3 dirX dirY dirZ) BULLET_SPEED BULLET_DAMAGE now.

(** The gate of the spawning loop. *)
Definition mayFire (now : Z) (client : ClientConnection) : bool :=
  shooting client && (now - lastShotTime client >=? FIRE_INTERVAL)%Z.

(** One iteration of the spawning loop for the client on socket [ws]. *)
Definition spawnFor (now : Z) (s : ServerState) (entry : Z * ClientConnection) : ServerState :=
  let '(ws, client) := entry in
  if mayFire now client then
    match id_get (entities s) (c_id client) with
    | Some entity =>
        let client' := setLastShotTime client now in
        with_bullets (with_clients s (id_set (clients s) ws client'))
          (bullets s ++ [newBullet now client' entity (bulletIdCounter s)])
          (bulletIdCounter s + 1)%Z
    | None => s
    end
  else s.

Definition bulletsSpawn (now : Z) (s : ServerState) : ServerState :=
  fold_left (spawnFor now) (clients s) s.

(** ** Bullet movement and collision *)

Definition BULLET_STEP_SIZE : num := #0.1.

(** [checkEntityAt]: the id of the first entity of the table (other than
    the bullet's owner) that the point touches, or -1. *)
Definition touches (entity : Entity) (px py pz : num) : bool :=
  let entityRadius := #1.5 in
  let entityHeight := #4.0 in
  let dx := px - vx (position entity) in
  let dz := pz - vz (position entity) in
  let distXZ := Math_sqrt (dx * dx + dz * dz) in
  (distXZ <? entityRadius + BULLET_RADIUS) &&
  (py >=? vy (position entity)) && (py <=? vy (position entity) + entityHeight).

Fixpoint checkEntityAt (ents : idmap Entity) (owner : Z) (px py pz : num) : Z :=
  match ents with
  | [] => (-1)%Z
  | (id, entity) :: rest =>
      if id =? owner then checkEntityAt rest owner px py pz
      else if touches entity px py pz then id
      else checkEntityAt rest owner px py pz
  end.

Definition checkObstacleAt (gs : GridState) (px py pz : num) : bool :=
  existsb (fun obstacle =>
    if negb (isSolid (o_type obstacle)) then false
    else
      let halfX := vx (o_size obstacle) / #2 + BULLET_RADIUS in
      let halfY := vy (o_size obstacle) / #2 + BULLET_RADIUS in
      let halfZ := vz (o_size obstacle) / #2 + BULLET_RADIUS in
      (px >? vx (o_position obstacle) - halfX) && (px <? vx (o_position obstacle) + halfX) &&
      (py >? vy (o_position obstacle) - halfY) && (py <? vy (o_position obstacle) + halfY) &&
      (pz >? vz (o_position obstacle) - halfZ) && (pz <? vz (o_position obstacle) + halfZ))
    (getNearbyObstacles gs px pz).

(** [findPrecisePoint]: five halvings between [prev] and [new]. *)
Fixpoint refine (iter : nat) (prev new : Vector3) (checkFn : num -> num -> num -> bool)
  (t searchStep : num) : num :=
  match iter with
  | O => t
  | S n =>
      let testX := vx prev + (vx new - vx prev) * t in
      let testY := vy prev + (vy new - vy prev) * t in
      let testZ := vz prev + (vz new - vz prev) * t in
      let t := if checkFn testX testY testZ then t - searchStep else t + searchStep in
      refine n prev new checkFn t (searchStep * #0.5)
  end.

Definition findPrecisePoint (prev new : Vector3) (checkFn : num -> num -> num -> bool) : Vector3 :=
  let t := refine 5 prev new checkFn #1.0 #0.5 in
  mkVector3 (vx prev + (vx new - vx prev) * t)
            (vy prev + (vy new - vy prev) * t)
            (vz prev + (vz new - vz prev) * t).

(** What the bullet loop changes besides the bullet list; [w_random] counts
    the calls of [Math.random()] made so far in the tick. *)
Record World : Type := mkWorld {
  w_entities : idmap Entity;
  w_gstate : GridState;
  w_hits : list HitEvent;
  w_random : nat
}.

Definition setBulletPosition (b : Bullet) (p : Vector3) : Bullet :=
  mkBullet (b_id b) (ownerId b) p (direction b) (speed b) (damage b) (createdAt b).

(** The entity hit: damage, and the respawn when the hit points run out. *)
Definition hitEntityAt (rnd : randoms) (bullet : Bullet) (prev new : Vector3)
  (hitEntityId : Z) (entity : Entity) (w : World) : World :=
  let hitPos := findPrecisePoint prev new
                  (fun px py pz => (0 <=? checkEntityAt (w_entities w) (ownerId bullet) px py pz)%Z) in
  let entity := setHp entity (Z.max 0 (hp entity - damage bullet)) in
  let hits := w_hits w ++ [mkHit hitPos true (Some hitEntityId)] in
  if (hp entity <=? 0)%Z then
    let entity := setHp entity (maxHp entity) in
    let x := (rnd (w_random w) - #0.5) * (TERRAIN_SIZE - #200) in
    let z := (rnd (S (w_random w)) - #0.5) * (TERRAIN_SIZE - #200) in
    let p := mkVector3 x (getHeightAt x z) z in
    mkWorld (id_set (w_entities w) hitEntityId (setPosition entity p))
            (updateEntityInGrid (w_gstate w) hitEntityId p)
            hits (S (S (w_random w)))
  else
    mkWorld (id_set (w_entities w) hitEntityId entity) (w_gstate w) hits (w_random w).

(** The sub-steps of one bullet: the bullet if it survives them ([None] when
    it was removed), and the world. *)
Fixpoint stepBullet (rnd : randoms) (steps : nat) (stepSize : num) (bullet : Bullet) (w : World)
  : option Bullet * World :=
  match steps with
  | O => (Some bullet, w)
  | S n =>
      let prev := b_position bullet in
      let new := mkVector3 (vx prev + vx (direction bullet) * stepSize)
                           (vy prev + vy (direction bullet) * stepSize)
                           (vz prev + vz (direction bullet) * stepSize) in
      let hitEntityId := checkEntityAt (w_entities w) (ownerId bullet) (vx new) (vy new) (vz new) in
      if (hitEntityId >=? 0)%Z then
        match id_get (w_entities w) hitEntityId with
        | Some entity => (None, hitEntityAt rnd bullet prev new hitEntityId entity w)
        | None => (None, w)
        end
      else if checkObstacleAt (w_gstate w) (vx new) (vy new) (vz new) then
        let hitPos := findPrecisePoint prev new (checkObstacleAt (w_gstate w)) in
        (None, mkWorld (w_entities w) (w_gstate w)
                 (w_hits w ++ [mkHit hitPos false None]) (w_random w))
      else
        let terrainHeight := getHeightAt (vx new) (vz new) in
        let boundary := TERRAIN_SIZE / #2 in
        if (vy new <? terrainHeight) || (Math_abs (vx new) >? boundary)
           || (Math_abs (vz new) >? boundary) then
          (None, mkWorld (w_entities w) (w_gstate w)
                   (w_hits w ++ [mkHit (mkVector3 (vx new) (Math_max (vy new) terrainHeight) (vz new))
                                       false None])
                   (w_random w))
        else stepBullet rnd n stepSize (setBulletPosition bullet new) w
  end.

(** The iterations of [for (let step = 0; step < numSteps ...; step++)]. *)
Definition stepCount (numSteps : num) : nat :=
  match floorZ (Math_ceil numSteps) with
  | Some n => Z.to_nat n
  | None => O
  end.

(** The body of the bullet loop for one bullet. *)
Definition updateBullet (rnd : randoms) (now : Z) (deltaTime : num) (bullet : Bullet) (w : World)
  : option Bullet * World :=
  if (now - createdAt bullet >? BULLET_LIFETIME)%Z then (None, w)
  else
    let totalMoveAmount := speed bullet * deltaTime in
    let numSteps := Math_ceil (totalMoveAmount / BULLET_STEP_SIZE) in
    let stepSize := totalMoveAmount / numSteps in
    stepBullet rnd (stepCount numSteps) stepSize bullet w.

(** [for (let i = bullets.length - 1; i >= 0; i--)]: the bullets are visited
    from the last to the first, and the removed ones spliced out. *)
Definition bulletStep (rnd : randoms) (now : Z) (deltaTime : num) (bullet : Bullet)
  (acc : list Bullet * World) : list Bullet * World :=
  let r := updateBullet rnd now deltaTime bullet (snd acc) in
  match fst r with
  | Some b => (b :: fst acc, snd r)
  | None => (fst acc, snd r)
  end.

Definition updateBullets (rnd : randoms) (now : Z) (deltaTime : num)
  (bs : list Bullet) (w : World) : list Bullet * World :=
  fold_right (bulletStep rnd now deltaTime) ([], w) bs.

Definition bulletsUpdate (rnd : randoms) (now : Z) (deltaTime : num) (s : ServerState)
  : ServerState :=
  let r := updateBullets rnd now deltaTime (bullets s)
             (mkWorld (entities s) (gstate s) (tickHitEvents s) O) in
  with_hits (with_gstate (with_entities (with_bullets s (fst r) (bulletIdCounter s))
                                        (w_entities (snd r))) (w_gstate (snd r)))
            (w_hits (snd r)).

(** ** The per-client broadcast *)

(** The grace loop and the refresh of the grace map: the ids to send and the
    client's grace map after the tick. *)
Definition graceStep (ents : idmap Entity) (visibleIds : list Z)
  (acc : list Z * idmap Z) (entry : Z * Z) : list Z * idmap Z :=
  let '(finalVisibleIds, clientGraceMap) := acc in
  let '(entityId, ticksRemaining) := entry in
  if negb (existsb (Z.eqb entityId) visibleIds) && id_has ents entityId then
    (finalVisibleIds ++ [entityId],
     if (ticksRemaining <=? 1)%Z then id_delete clientGraceMap entityId
     else id_set clientGraceMap entityId (ticksRemaining - 1)%Z)
  else acc.

Definition applyGrace (ents : idmap Entity) (visibleIds : list Z) (clientGraceMap : idmap Z)
  : list Z * idmap Z :=
  let '(finalVisibleIds, clientGraceMap) :=
    fold_left (graceStep ents visibleIds) clientGraceMap (visibleIds, clientGraceMap) in
  (finalVisibleIds,
   fold_left (fun m entityId => id_set m entityId LOS_GRACE_TICKS) visibleIds clientGraceMap).

Definition entityUpdate (entity : Entity) : Protocol.EntityUpdate :=
  Protocol.mkEntityUpdate (e_id entity) (position entity) (rotation entity)
    (orZero (pitch entity)) (hp entity) (maxHp entity) (isPlayer entity).

(** [finalVisibleIds.map(id => ... gameState.entities.get(id)! ...)]: reading
    a field of a missing entity throws, which is [None]. *)
Fixpoint buildEntities (ents : idmap Entity) (ids : list Z) : option (list Protocol.EntityUpdate) :=
  match ids with
  | [] => Some []
  | id :: rest =>
      match id_get ents id, buildEntities ents rest with
      | Some entity, Some l => Some (entityUpdate entity :: l)
      | _, _ => None
      end
  end.

Definition statsFor (s : ServerState) (client : ClientConnection) (nVisible : nat) : Protocol.Stats :=
  Protocol.mkStats (JsMap.size (entities s)) (Z.of_nat (List.length (obstacles s)))
    (JsMap.size (clients s))
    (st_tickTimeMsPerSec (currentStats s)) (st_losTimeMsPerSec (currentStats s))
    (st_tickTimeMsAvg (currentStats s)) (Z.of_nat nVisible)
    (if losMode client then Protocol.los else Protocol.classical) TICK_RATE.

(** The ids freshly computed as visible to a client. *)
Definition visibleNow (s : ServerState) (client : ClientConnection) (entity : Entity) : list Z :=
  getVisibleEntities (position entity)
    (map (fun entry : Z * Entity => (fst entry, position (snd entry))) (entities s))
    (grid (gstate s)) (viewDistance client) (losMode client) (c_id client).

Definition graceMapOf (s : ServerState) (client : ClientConnection) : idmap Z :=
  match id_get (recentlyVisibleEntities s) (c_id client) with
  | Some m => m
  | None => []
  end.

(** One iteration of the sending loop: the state (only the grace maps
    change) and the message handed to [ws.send], if any.  The body runs
    inside [try]: an exception while the message is built sends nothing. *)
Definition broadcastTo (s : ServerState) (entry : Z * ClientConnection)
  : ServerState * option (Z * Protocol.Update) :=
  let '(ws, client) := entry in
  match id_get (entities s) (c_id client) with
  | None => (s, None)
  | Some entity =>
      let visibleIds := visibleNow s client entity in
      let '(finalVisibleIds, clientGraceMap) :=
        applyGrace (entities s) visibleIds (graceMapOf s client) in
      let s' := with_grace s (id_set (recentlyVisibleEntities s) (c_id client) clientGraceMap) in
      match buildEntities (entities s) finalVisibleIds with
      | Some ents =>
          (s', Some (ws, Protocol.mkUpdate (position entity) ents
                           (map b_position (bullets s))
                           (map (fun h => Protocol.mkHitUpdate (h_position h) (hitEntity h))
                                (tickHitEvents s))
                           (statsFor s client (List.length finalVisibleIds))))
      | None => (s', None)
      end
  end.

Definition sendStep (acc : ServerState * list (Z * Protocol.Update))
  (entry : Z * ClientConnection) : ServerState * list (Z * Protocol.Update) :=
  let r := broadcastTo (fst acc) entry in
  match snd r with
  | Some m => (fst r, snd acc ++ [m])
  | None => (fst r, snd acc)
  end.

Definition broadcast (s : ServerState) : ServerState * list (Z * Protocol.Update) :=
  fold_left sendStep (clients s) (s, []).

(** ** [gameTick]; [now] is [Date.now()] and [rnd] the results of the calls
    of [Math.random()].  The result is the new state and the messages sent,
    in order. *)
Definition beforeBroadcast (now : Z) (rnd : randoms) (s : ServerState) : ServerState :=
  let deltaTime := ofZ (now - lastTime s) / #1000 in
  let s := with_lastTime s now in
  let s := botsUpdate deltaTime s in
  let s := botsGridUpdate s in
  let s := playersUpdate deltaTime s in
  let s := with_hits s [] in
  let s := bulletsSpawn now s in
  bulletsUpdate rnd now deltaTime s.

Definition gameTick (now : Z) (rnd : randoms) (s : ServerState)
  : ServerState * list (Z * Protocol.Update) :=
  broadcast (beforeBroadcast now rnd s).

(** ** The socket handlers *)

(** [open(ws)]: [r1], [r2] are the two calls of [Math.random()]. *)
Definition open (ws : Z) (now : Z) (r1 r2 : num) (s : ServerState) : ServerState :=
  let playerId := playerIdCounter s in
  let s := with_playerIdCounter s (playerId + 1)%Z in
  let x := (r1 - #0.5) * #100 in
  let z := (r2 - #0.5) * #100 in
  let y := getHeightAt x z in
  let maxHp := 100%Z in
  let entity := mkEntity playerId (mkVector3 x y z) (mkVector3 #0 #0 #0) #0 #0 true maxHp maxHp in
  let s := with_entities s (id_set (entities s) playerId entity) in
  let s := with_gstate s (updateEntityInGrid (gstate s) playerId (position entity)) in
  let client := mkClient playerId false VIEW_DISTANCE (mkVector2 #0 #0) false 0 in
  let s := with_clients s (id_set (clients s) ws client) in
  startGameLoop now s.

(** [message(ws, message)] for a binary message.  (The JSON branch, kept by
    the source as a legacy fallback, is not modelled: the client only sends
    binary frames.) *)
Definition message (ws : Z) (buf : Protocol.buffer) (s : ServerState) : ServerState :=
  match id_get (clients s) ws with
  | None => s
  | Some client =>
      match Protocol.getUint8 buf 0 with
      | None => s
      | Some msgType =>
          if (msgType =? Protocol.MSG_INPUT)%Z then
            match Protocol.decodeInput buf with
            | Some input =>
                let s := with_clients s
                           (id_set (clients s) ws
                              (setClientInput client (Protocol.in_moveDirection input))) in
                match id_get (entities s) (c_id client) with
                | Some entity =>
                    with_entities s
                      (id_set (entities s) (c_id client)
                         (setPitch (setRotation entity (Protocol.in_rotation input))
                                   (Protocol.in_pitch input)))
                | None => s
                end
            | None => s
            end
          else if (msgType =? Protocol.MSG_SHOOT)%Z then
            match Protocol.decodeShoot buf with
            | Some b => with_clients s (id_set (clients s) ws (setShooting client b))
            | None => s
            end
          else if (msgType =? Protocol.MSG_TOGGLE_MODE)%Z then
            match Protocol.decodeToggleMode buf with
            | Some b => with_clients s (id_set (clients s) ws (setLosMode client b))
            | None => s
            end
          else s
      end
  end.

(** [close(ws)]. *)
Definition close (ws : Z) (s : ServerState) : ServerState :=
  match id_get (clients s) ws with
  | None => s
  | Some client =>
      let s := with_gstate s (removeEntityFromGrid (gstate s) (c_id client)) in
      let s := with_entities s (id_delete (entities s) (c_id client)) in
      let s := with_grace s (id_delete (recentlyVisibleEntities s) (c_id client)) in
      let s := with_clients s (id_delete (clients s) ws) in
      if (JsMap.size (clients s) =? 0)%Z then stopGameLoop s else s
  end.

(** ** [initializeWorld]; [terrain] is the result of [generateTerrain()],
    [seed] the [Date.now()] that [bots.ts] starts its generator from and
    [loadTime] the one [lastTime] starts from. *)
Definition initializeWorld (terrain : list Obstacle) (rnd : randoms) (seed loadTime : Z)
  : ServerState :=
  let g := createSpatialGrid terrain in
  let gs := mkGridState g [] (buildNearbyObstaclesCache g) in
  let bots := Bots.createBots Math_sin BOTS_COUNT rnd in
  let gs := fold_left (fun gs (entry : Z * Entity) =>
                         updateEntityInGrid gs (fst entry) (position (snd entry)))
                      bots gs in
  mkServer bots terrain gs [] [] [] 0 [] 1000 loadTime seed false
           (mkCurrentStats #0 #0 #0 #0).

(** ** The events of a run.  A socket opens once; the interval timer only
    fires while the loop runs. *)
Inductive Event : Type :=
| Open (ws : Z) (now : Z) (r1 r2 : num)
| Message (ws : Z) (buf : Protocol.buffer)
| Close (ws : Z)
| Tick (now : Z) (rnd : randoms).

Definition step (s : ServerState) (ev : Event) : ServerState :=
  match ev with
  | Open ws now r1 r2 => if id_has (clients s) ws then s else open ws now r1 r2 s
  | Message ws buf => message ws buf s
  | Close ws => close ws s
  | Tick now rnd => if running s then fst (gameTick now rnd s) else s
  end.

Definition run (evs : list Event) (s : ServerState) : ServerState := fold_left step evs s.

Inductive reachable : ServerState -> Prop :=
| reach_init (terrain : list Obstacle) (rnd : randoms) (seed loadTime : Z) :
    reachable (initializeWorld terrain rnd seed loadTime)
| reach_step (s : ServerState) (ev : Event) :
    reachable s -> reachable (step s ev).

End WithMath.
End Index.

(* ================================================================== *)
(** * Concrete worlds for the examples *)
(* ================================================================== *)

Module Scenario.
Import Terrain Spatial Los Index.
Open Scope num_scope.

(** A sine and a cosine to run the examples with: after reduction to
    [-pi/2, pi/2], the Taylor polynomial of degree 11 in Horner form.
    ECMAScript leaves [Math.sin] and [Math.cos] implementation-approximated;
    no statement below depends on the digits this approximation produces. *)
Definition sinTaylor (x : num) : num :=
  let r := nrem x (Math_PI * #2) in
  let r := if r >? Math_PI then r - Math_PI * #2
           else if r <? - Math_PI then r + Math_PI * #2 else r in
  let r := if r >? Math_PI * #0.5 then Math_PI - r
           else if r <? - (Math_PI * #0.5) then - Math_PI - r else r in
  let r2 := r * r in
  r * (#1 + r2 * (#(-0.16666666666666666) + r2 * (#0.008333333333333333
       + r2 * (#(-0.0001984126984126984) + r2 * (#2.7557319223985893e-06
       + r2 * #(-2.505210838544172e-08)))))).
Definition cosTaylor (x : num) : num := sinTaylor (x + Math_PI * #0.5).

Definition V3 (a b c : float) : Vector3 := mkVector3 (lit a) (lit b) (lit c).

(** A world with the given obstacles, entities and clients, every entity
    filed in the grid as [initializeWorld] and [open] file them. *)
Definition world (terrain : list Obstacle) (ents : idmap Entity)
  (cls : idmap ClientConnection) (lastTime : Z) : ServerState :=
  let g := createSpatialGrid terrain in
  let gs := fold_left (fun gs (entry : Z * Entity) =>
                         updateEntityInGrid gs (fst entry) (position (snd entry)))
                      ents (mkGridState g [] (buildNearbyObstaclesCache g)) in
  mkServer ents terrain gs cls [] [] 0 [] 1001 lastTime 1 true (mkCurrentStats #0 #0 #0 #0).

Definition bot (id : Z) (p : Vector3) : Entity :=
  mkEntity id p (V3 0 0 0) #0 #0 false 100 100.
Definition player (id : Z) (p : Vector3) : Entity :=
  mkEntity id p (V3 0 0 0) #0 #0 true 100 100.
Definition client (id : Z) : ClientConnection :=
  mkClient id false VIEW_DISTANCE (mkVector2 #0 #0) false 0.

(** Open ground: the player 1000 (socket 7) stands at the origin and the bot
    1 at (20, 2, 0) in plain sight.  After one frame the bot is in the
    player's grace map; it is then teleported to (900, 2, 900), as a respawn
    does, far beyond the view distance of 200. *)
Definition openWorld : ServerState :=
  world [] [(1%Z, bot 1 (V3 20 2 0)); (1000%Z, player 1000 (V3 0 2 0))] [(7%Z, client 1000)] 0.
Definition afterFirstFrame : ServerState := fst (broadcast openWorld).
Definition farBot : Entity := bot 1 (V3 900 2 900).
Definition teleported : ServerState :=
  with_gstate (with_entities afterFirstFrame (id_set (entities afterFirstFrame) 1 farBot))
              (updateEntityInGrid (gstate afterFirstFrame) 1 (position farBot)).

(** Every call of [Math.random()] returns 0.5 in the runs below. *)
Definition half : randoms := fun _ => #0.5.

(** The ids of the entities in the frames sent to a socket. *)
Definition sentIds (frames : list (Z * Protocol.Update)) (ws : Z) : list Z :=
  flat_map (fun m : Z * Protocol.Update =>
              if (fst m =? ws)%Z then map Protocol.u_id (Protocol.upd_entities (snd m)) else [])
           frames.

(** [canSeeEntity] from one entity of the table to another. *)
Definition canSeeIn (s : ServerState) (viewerId targetId : Z) : option bool :=
  match id_get (entities s) viewerId, id_get (entities s) targetId with
  | Some viewer, Some target =>
      Some (canSeeEntity (position viewer) (position target) (grid (gstate s)))
  | _, _ => None
  end.

(** A wall between the two: the player 1000 (socket 7, classical mode) at
    the origin, the bot 1 at (20, 2, 0), and a house wall of 4 x 10 x 4
    centred at (10, 5, 0).  A first tick at 33 ms; then the client switches
    to line-of-sight mode; then a second tick at 66 ms. *)
Definition houseWall : Obstacle := mkObstacle (V3 10 5 0) (V3 4 10 4) house_wall.
Definition wallWorld : ServerState :=
  world [houseWall] [(1%Z, bot 1 (V3 20 2 0)); (1000%Z, player 1000 (V3 0 2 0))]
        [(7%Z, client 1000)] 0.
Definition wallTick1 : ServerState * list (Z * Protocol.Update) :=
  gameTick sinTaylor cosTaylor 33 half wallWorld.
Definition wallToggled : ServerState :=
  message 7 [Protocol.MSG_TOGGLE_MODE; 1%Z] (fst wallTick1).
Definition wallTick2 : ServerState * list (Z * Protocol.Update) :=
  gameTick sinTaylor cosTaylor 66 half wallToggled.

(** A run from [initializeWorld]: no obstacle, the 600 bots, one player on
    socket 7, and two ticks. *)
Definition bootWorld : ServerState := initializeWorld sinTaylor [] half 1 0.
Definition bootOpened : ServerState :=
  step sinTaylor cosTaylor bootWorld (Open 7 0 #0.5 #0.5).
Definition bootTicked : ServerState :=
  step sinTaylor cosTaylor bootOpened (Tick 33 half).

End Scenario.

(* ================================================================== *)
(** * Properties *)
(* ================================================================== *)

(** ** The silhouette test ([canSeeEntity]) *)

Section CanSee.
Import Spatial Los.
Open Scope num_scope.


Lemma canSeeEntity_casts_fst (v t : Vector3) (g : SpatialGrid) :
  fst (canSeeEntity_casts v t g) = canSeeEntity v t g.
Proof.
  unfold canSeeEntity_casts, canSeeEntity; cbn zeta.
  destruct (_ <? _); [reflexivity|]. cbn [fst snd].
  repeat (destruct (hasLineOfSight _ _ g); [reflexivity|]).
  reflexivity.
Qed.


End CanSee.

(** ** Cells along a ray ([getCellsAlongRay]) *)

Section CellsAlongRay.
Import Spatial Scenario.
Open Scope num_scope.

(** C2.  The segment from (1, 4.125) to (9, 6.125) in the XZ plane passes, at
    the fraction 15/32 of its length, through the point (4.75, 5.0625) of
    the cell "200,201"; [getCellsAlongRay] samples the cells "200,200" and
    "201,201" only and omits that cell. *)
Theorem getCellsAlongRay_omits_pierced_cell :
  let start := V3 1 0 4.125 in
  let end_ := V3 9 0 6.125 in
  let t := #0.46875 in
  let x := vx start + (vx end_ - vx start) * t in
  let z := vz start + (vz end_ - vz start) * t in
  (#0 <=? t) = true /\ (t <=? #1) = true /\
  x = #4.75 /\ z = #5.0625 /\
  getCellKey x z = (PInt 200, PInt 201) /\
  getCellsAlongRay start end_ = [(PInt 200, PInt 200); (PInt 201, PInt 201)] /\
  existsb (key_eqb (getCellKey x z)) (getCellsAlongRay start end_) = false.
Proof. vm_compute. repeat split; reflexivity. Qed.

End CellsAlongRay.

(** ** Bullet against entity ([checkEntityAt]) *)

Section BulletHit.
Import Index Scenario.
Open Scope num_scope.

Lemma checkEntityAt_find (ents : idmap Entity) (owner : Z) (px py pz : num) :
  checkEntityAt ents owner px py pz =
  match find (fun entry : Z * Entity =>
                negb (fst entry =? owner)%Z && touches (snd entry) px py pz) ents with
  | Some entry => fst entry
  | None => (-1)%Z
  end.
Proof.
  induction ents as [|[id entity] rest IH]; [reflexivity|].
  cbn [checkEntityAt find fst snd].
  destruct (id =? owner)%Z; cbn [negb andb]; [exact IH|].
  destruct (touches entity px py pz); [reflexivity|exact IH].
Qed.



End BulletHit.

(** ** Wall sliding *)

Section WallSlide.
Import Spatial Index Scenario.
Open Scope num_scope.

(** What [slide] does in each case. *)
Lemma slide_cases (gs : GridState) (pos : Vector3) (dx dz : num) :
  let newX := vx pos + dx in
  let newZ := vz pos + dz in
  slide gs pos dx dz =
  if negb (checkCollision gs newX newZ) then (newX, newZ)
  else (if (dx !== #0) && negb (checkCollision gs newX (vz pos)) then newX else vx pos,
        if (dz !== #0) && negb (checkCollision gs (vx pos) newZ) then newZ else vz pos).
Proof. reflexivity. Qed.

(** Whenever the full step collides and each single-axis step is free, both
    single-axis steps are taken: the entity lands on the full step. *)
Lemma slide_takes_both_axes (gs : GridState) (pos : Vector3) (dx dz : num) :
  checkCollision gs (vx pos + dx) (vz pos + dz) = true ->
  (dx !== #0) = true -> checkCollision gs (vx pos + dx) (vz pos) = false ->
  (dz !== #0) = true -> checkCollision gs (vx pos) (vz pos + dz) = false ->
  slide gs pos dx dz = (vx pos + dx, vz pos + dz).
Proof.
  intros Hfull Hdx Hx Hdz Hz. unfold slide.
  rewrite Hfull, Hdx, Hx, Hdz, Hz. reflexivity.
Qed.

(** The player of the example stands at the origin and steers along (1, 1);
    a crate of side 1 is centred at (3.5, 3.5); the tick lasts 33 ms. *)
Definition cornerCrate : Obstacle := mkObstacle (V3 3.5 1 3.5) (V3 1 2 1) crate.
Definition cornerWorld : ServerState :=
  world [cornerCrate] [(1000%Z, player 1000 (V3 0 2 0))]
        [(7%Z, setClientInput (client 1000) (mkVector2 #1 #1))] 0.

(** C6.  In [cornerWorld] the full step of the player collides with the crate
    and the X-only step does not; the claim has z unchanged then, but the
    source also tries the Z-only step, finds it free, and moves the player
    to the full step it had found colliding: z changes from 0 to 1.65. *)
Theorem player_slide_moves_z_after_x :
  let gs := gstate cornerWorld in
  let deltaTime := ofZ 33 / #1000 in
  let dx := #1 * PLAYER_SPEED * deltaTime in
  let dz := #1 * PLAYER_SPEED * deltaTime in
  checkCollision gs (#0 + dx) (#0 + dz) = true /\
  checkCollision gs (#0 + dx) #0 = false /\
  checkCollision gs #0 (#0 + dz) = false /\
  slide gs (V3 0 2 0) dx dz = (#0 + dx, #0 + dz) /\
  option_map (fun e => (vx (position e), vz (position e)))
    (id_get (entities (playersUpdate sinTaylor deltaTime cornerWorld)) 1000)
  = Some (#1.6500000000000001, #1.6500000000000001) /\
  (#1.6500000000000001 !== #0) = true.
Proof. vm_compute. repeat split; reflexivity. Qed.

End WallSlide.

(** ** Facts on maps and sets *)

Section MapFacts.
Variables (K V : Type) (keq : K -> K -> bool).
Hypothesis keq_spec : forall a b, keq a b = true <-> a = b.

Local Abbreviation get := (JsMap.get keq).
Local Abbreviation set := (JsMap.set keq).
Local Abbreviation delete := (@JsMap.delete K V keq).
Local Abbreviation keys := (@JsMap.keys K V).

Lemma keq_refl (a : K) : keq a a = true.
Proof. apply keq_spec. reflexivity. Qed.

Lemma keq_neq (a b : K) : a <> b -> keq a b = false.
Proof.
  intros H. destruct (keq a b) eqn:E; [|reflexivity].
  apply keq_spec in E. contradiction.
Qed.

Lemma keq_dec (a b : K) : a = b \/ a <> b.
Proof.
  destruct (keq a b) eqn:E.
  - left. apply keq_spec. exact E.
  - right. intros H. apply keq_spec in H. congruence.
Qed.

Lemma get_set_same (m : JsMap.t K V) (k : K) (v : V) : get (set m k v) k = Some v.
Proof.
  induction m as [|[k' v'] r IH]; cbn.
  - rewrite keq_refl. reflexivity.
  - destruct (keq k' k) eqn:E; cbn; rewrite E; [reflexivity|exact IH].
Qed.

Lemma get_set_other (m : JsMap.t K V) (k k' : K) (v : V) :
  k <> k' -> get (set m k v) k' = get m k'.
Proof.
  intros Hne. induction m as [|[k0 v0] r IH]; cbn.
  - rewrite (keq_neq Hne). reflexivity.
  - destruct (keq k0 k) eqn:E; cbn.
    + apply keq_spec in E. subst k0. rewrite (keq_neq Hne). reflexivity.
    + destruct (keq k0 k'); [reflexivity|exact IH].
Qed.

Lemma get_delete_same (m : JsMap.t K V) (k : K) : get (delete m k) k = None.
Proof.
  induction m as [|[k' v'] r IH]; cbn; [reflexivity|].
  destruct (keq k' k) eqn:E; cbn; [exact IH|]. rewrite E. exact IH.
Qed.

Lemma get_delete_other (m : JsMap.t K V) (k k' : K) :
  k <> k' -> get (delete m k) k' = get m k'.
Proof.
  intros Hne. induction m as [|[k0 v0] r IH]; cbn; [reflexivity|].
  destruct (keq k0 k) eqn:E; cbn.
  - apply keq_spec in E. subst k0. rewrite (keq_neq Hne). exact IH.
  - destruct (keq k0 k'); [reflexivity|exact IH].
Qed.

Lemma get_Some_In (m : JsMap.t K V) (k : K) (v : V) : get m k = Some v -> In (k, v) m.
Proof.
  induction m as [|[k' v'] r IH]; cbn; [discriminate|].
  destruct (keq k' k) eqn:E.
  - intros H. inversion H. apply keq_spec in E. subst. left. reflexivity.
  - intros H. right. exact (IH H).
Qed.

Lemma get_Some_keys (m : JsMap.t K V) (k : K) (v : V) : get m k = Some v -> In k (keys m).
Proof. intros H. apply get_Some_In in H. apply (in_map fst) in H. exact H. Qed.

Lemma keys_get_Some (m : JsMap.t K V) (k : K) : In k (keys m) -> exists v, get m k = Some v.
Proof.
  induction m as [|[k' v'] r IH]; cbn; [intros []|].
  intros [H|H].
  - subst. rewrite keq_refl. eauto.
  - destruct (keq k' k); eauto.
Qed.

Lemma get_None_keys (m : JsMap.t K V) (k : K) : get m k = None -> ~ In k (keys m).
Proof.
  intros H Hin. apply keys_get_Some in Hin. destruct Hin as [v Hv]. congruence.
Qed.

Lemma has_keys (m : JsMap.t K V) (k : K) : JsMap.has keq m k = true <-> In k (keys m).
Proof.
  unfold JsMap.has. split.
  - destruct (get m k) eqn:E; [|discriminate]. intros _. exact (get_Some_keys _ _ E).
  - intros H. apply keys_get_Some in H. destruct H as [v Hv]. rewrite Hv. reflexivity.
Qed.

Lemma keys_set (m : JsMap.t K V) (k k' : K) (v : V) :
  In k' (keys (set m k v)) <-> k' = k \/ In k' (keys m).
Proof.
  induction m as [|[k0 v0] r IH]; cbn.
  - intuition.
  - destruct (keq k0 k) eqn:E; cbn.
    + apply keq_spec in E. subst. intuition.
    + rewrite IH. intuition.
Qed.

Lemma keys_set_present (m : JsMap.t K V) (k : K) (v : V) :
  In k (keys m) -> keys (set m k v) = keys m.
Proof.
  induction m as [|[k0 v0] r IH]; cbn; [intros []|].
  destruct (keq k0 k) eqn:E; cbn; [reflexivity|].
  intros [H|H]; [subst; rewrite keq_refl in E; discriminate|].
  f_equal. exact (IH H).
Qed.

Lemma keys_delete (m : JsMap.t K V) (k k' : K) :
  In k' (keys (delete m k)) <-> k' <> k /\ In k' (keys m).
Proof.
  unfold JsMap.keys, JsMap.delete. rewrite !in_map_iff. split.
  - intros [[a b] [Hfst Hin]]. apply filter_In in Hin. destruct Hin as [Hin Hneq].
    cbn in *. subst a. split.
    + intros Heq. subst. rewrite keq_refl in Hneq. discriminate.
    + exists (k', b). split; [reflexivity|exact Hin].
  - intros [Hne [[a b] [Hfst Hin]]]. cbn in Hfst. subst a.
    exists (k', b). split; [reflexivity|]. apply filter_In. split; [exact Hin|].
    cbn. rewrite keq_neq; [reflexivity|exact Hne].
Qed.

Lemma In_set (m : JsMap.t K V) (k : K) (v : V) (entry : K * V) :
  In entry (set m k v) -> entry = (k, v) \/ In entry m.
Proof.
  induction m as [|[k0 v0] r IH]; cbn.
  - intuition.
  - destruct (keq k0 k) eqn:E; cbn.
    + apply keq_spec in E. subst. intuition.
    + intros [H|H]; [intuition|]. destruct (IH H); intuition.
Qed.

Lemma In_delete (m : JsMap.t K V) (k : K) (entry : K * V) :
  In entry (delete m k) -> In entry m /\ fst entry <> k.
Proof.
  unfold JsMap.delete. intros H. apply filter_In in H. destruct H as [Hin Hneq].
  split; [exact Hin|]. intros Heq. subst. rewrite keq_refl in Hneq. discriminate.
Qed.

Lemma NoDup_keys_set (m : JsMap.t K V) (k : K) (v : V) :
  NoDup (keys m) -> NoDup (keys (set m k v)).
Proof.
  induction m as [|[k0 v0] r IH]; cbn; intros Hnd.
  - constructor; [intros []|constructor].
  - destruct (keq k0 k) eqn:E; cbn; [exact Hnd|].
    inversion Hnd as [|? ? Hnotin Hnd']; subst. constructor; [|exact (IH Hnd')].
    intros Hin. apply keys_set in Hin. destruct Hin as [Hin|Hin].
    + subst. rewrite keq_refl in E. discriminate.
    + exact (Hnotin Hin).
Qed.

Lemma NoDup_keys_delete (m : JsMap.t K V) (k : K) :
  NoDup (keys m) -> NoDup (keys (delete m k)).
Proof.
  induction m as [|[k0 v0] r IH]; cbn; intros Hnd; [constructor|].
  inversion Hnd as [|? ? Hnotin Hnd']; subst.
  destruct (keq k0 k); cbn; [exact (IH Hnd')|].
  constructor; [|exact (IH Hnd')].
  intros Hin. apply keys_delete in Hin. exact (Hnotin (proj2 Hin)).
Qed.

Lemma In_get_NoDup (m : JsMap.t K V) (k : K) (v : V) :
  NoDup (keys m) -> In (k, v) m -> get m k = Some v.
Proof.
  induction m as [|[k0 v0] r IH]; cbn; [intros _ []|].
  intros Hnd [H|H].
  - inversion H; subst. rewrite keq_refl. reflexivity.
  - inversion Hnd as [|? ? Hnotin Hnd']; subst.
    destruct (keq k0 k) eqn:E.
    + apply keq_spec in E. subst. exfalso. apply Hnotin.
      apply (in_map fst) in H. exact H.
    + exact (IH Hnd' H).
Qed.

End MapFacts.

Lemma Zeqb_spec (a b : Z) : (a =? b) = true <-> a = b.
Proof. apply Z.eqb_eq. Qed.

Lemma printed_eqb_spec (a b : printed) : printed_eqb a b = true <-> a = b.
Proof.
  destruct a, b; cbn; try (split; [discriminate|intros H; discriminate H]).
  - rewrite Z.eqb_eq. split; congruence.
  - split; reflexivity.
  - rewrite Bool.eqb_true_iff. split; congruence.
  - destruct (num_eq_dec x x0); split; congruence.
Qed.

Lemma key_eqb_spec (a b : cellkey) : key_eqb a b = true <-> a = b.
Proof.
  destruct a as [a1 a2], b as [b1 b2]. unfold key_eqb. cbn.
  rewrite andb_true_iff, !printed_eqb_spec. split.
  - intros [-> ->]. reflexivity.
  - intros H. inversion H. split; reflexivity.
Qed.

Lemma JsSet_has_In (s : JsSet.t) (x : Z) : JsSet.has s x = true <-> In x s.
Proof.
  unfold JsSet.has. rewrite existsb_exists. split.
  - intros [y [Hin Heq]]. apply Z.eqb_eq in Heq. subst. exact Hin.
  - intros H. exists x. split; [exact H|apply Z.eqb_refl].
Qed.

Lemma JsSet_In_add (s : JsSet.t) (x y : Z) : In x (JsSet.add s y) <-> x = y \/ In x s.
Proof.
  unfold JsSet.add. destruct (JsSet.has s y) eqn:E.
  - apply JsSet_has_In in E. split; [intuition|]. intros [->|H]; assumption.
  - rewrite in_app_iff. cbn. intuition.
Qed.

Lemma JsSet_In_delete (s : JsSet.t) (x y : Z) : In x (JsSet.delete s y) <-> x <> y /\ In x s.
Proof.
  unfold JsSet.delete. rewrite filter_In, negb_true_iff, Z.eqb_neq. intuition.
Qed.

Lemma existsb_Zeqb_In (x : Z) (l : list Z) : existsb (Z.eqb x) l = true <-> In x l.
Proof.
  rewrite existsb_exists. split.
  - intros [y [Hin Heq]]. apply Z.eqb_eq in Heq. subst. exact Hin.
  - intros H. exists x. split; [exact H|apply Z.eqb_refl].
Qed.

(** ** The visible set and the grace window *)

Section Visibility.
Import Spatial Los Index Scenario.
Open Scope num_scope.

(** The test [getVisibleEntities] applies to one entry of [entityPositions]. *)
Definition passes (viewerPos : Vector3) (g : SpatialGrid) (viewDistance : num)
  (losMode : bool) (viewerId : Z) (entry : Z * Vector3) : bool :=
  let dx := vx (snd entry) - vx viewerPos in
  let dy := vy (snd entry) - vy viewerPos in
  let dz := vz (snd entry) - vz viewerPos in
  negb (fst entry =? viewerId)%Z &&
  negb (dx * dx + dy * dy + dz * dz >? viewDistance * viewDistance) &&
  (negb losMode || canSeeEntity viewerPos (snd entry) g).

Lemma getVisibleEntities_filter (viewerPos : Vector3) (entityPositions : idmap Vector3)
  (g : SpatialGrid) (viewDistance : num) (losMode : bool) (viewerId : Z) :
  getVisibleEntities viewerPos entityPositions g viewDistance losMode viewerId =
  map fst (filter (passes viewerPos g viewDistance losMode viewerId) entityPositions).
Proof.
  unfold getVisibleEntities.
  match goal with
  | |- fold_left ?F _ _ = _ =>
      enough (Hgen : forall acc, fold_left F entityPositions acc =
                acc ++ map fst (filter (passes viewerPos g viewDistance losMode viewerId)
                                       entityPositions))
        by (exact (Hgen []))
  end.
  induction entityPositions as [|[id pos] rest IH]; intros acc; cbn [fold_left filter].
  - cbn. rewrite app_nil_r. reflexivity.
  - rewrite IH.
    assert (Hp : passes viewerPos g viewDistance losMode viewerId (id, pos) =
                 negb (id =? viewerId)%Z &&
                 negb ((vx pos - vx viewerPos) * (vx pos - vx viewerPos) +
                       (vy pos - vy viewerPos) * (vy pos - vy viewerPos) +
                       (vz pos - vz viewerPos) * (vz pos - vz viewerPos)
                       >? viewDistance * viewDistance) &&
                 (negb losMode || canSeeEntity viewerPos pos g)) by reflexivity.
    rewrite Hp.
    destruct (id =? viewerId)%Z; cbn [negb andb]; [reflexivity|].
    destruct (_ >? _); cbn [negb andb]; [reflexivity|].
    destruct losMode; cbn [negb orb].
    + destruct (canSeeEntity viewerPos pos g).
      * cbn [map fst]. rewrite <- app_assoc. reflexivity.
      * reflexivity.
    + cbn [map fst]. rewrite <- app_assoc. reflexivity.
Qed.

(** Whether a grace entry is sent: the test of the grace loop. *)
Definition inGrace (ents : idmap Entity) (visibleIds : list Z) (entry : Z * Z) : bool :=
  negb (existsb (Z.eqb (fst entry)) visibleIds) && id_has ents (fst entry).

Lemma graceLoop_fst (ents : idmap Entity) (visibleIds : list Z) (l : idmap Z)
  (acc : list Z) (m : idmap Z) :
  fst (fold_left (graceStep ents visibleIds) l (acc, m)) =
  acc ++ map fst (filter (inGrace ents visibleIds) l).
Proof.
  revert acc m. induction l as [|[id ticks] rest IH]; intros acc m; cbn [fold_left filter].
  - cbn. rewrite app_nil_r. reflexivity.
  - assert (Hg : graceStep ents visibleIds (acc, m) (id, ticks) =
                 if inGrace ents visibleIds (id, ticks)
                 then (acc ++ [id],
                       if (ticks <=? 1)%Z then id_delete m id else id_set m id (ticks - 1)%Z)
                 else (acc, m)) by reflexivity.
    rewrite Hg.
    destruct (inGrace ents visibleIds (id, ticks)).
    + rewrite IH. cbn [map fst]. rewrite <- app_assoc. reflexivity.
    + apply IH.
Qed.

Lemma applyGrace_fst (ents : idmap Entity) (visibleIds : list Z) (gm : idmap Z) :
  fst (applyGrace ents visibleIds gm) =
  visibleIds ++ map fst (filter (inGrace ents visibleIds) gm).
Proof.
  unfold applyGrace.
  pose proof (graceLoop_fst ents visibleIds gm visibleIds gm) as H.
  destruct (fold_left _ gm _) as [f m]. cbn [fst] in *. exact H.
Qed.

Lemma getVisibleEntities_present (viewerPos : Vector3) (ents : idmap Entity)
  (g : SpatialGrid) (vd : num) (losMode : bool) (viewerId id : Z) :
  In id (getVisibleEntities viewerPos
           (map (fun entry : Z * Entity => (fst entry, position (snd entry))) ents)
           g vd losMode viewerId) ->
  id_has ents id = true.
Proof.
  rewrite getVisibleEntities_filter. intros H.
  apply in_map_iff in H. destruct H as [[i p] [Hi Hin]]. cbn in Hi. subst i.
  apply filter_In in Hin. destruct Hin as [Hin _].
  apply in_map_iff in Hin. destruct Hin as [[i e] [Heq Hin]]. cbn in Heq. inversion Heq; subst.
  apply (has_keys Z.eqb Zeqb_spec). apply (in_map fst) in Hin. exact Hin.
Qed.

Lemma buildEntities_total (ents : idmap Entity) (ids : list Z) :
  (forall id, In id ids -> id_has ents id = true) ->
  exists l, buildEntities ents ids = Some l /\
    (forall id, In id ids -> exists e, id_get ents id = Some e /\ In (entityUpdate e) l) /\
    (forall u, In u l -> exists id e, In id ids /\ id_get ents id = Some e /\ u = entityUpdate e).
Proof.
  induction ids as [|id rest IH]; intros Hall; cbn [buildEntities].
  - exists []. split; [reflexivity|]. split; [intros ? []|intros ? []].
  - destruct IH as (l & Hl & Hfwd & Hbwd); [intros; apply Hall; right; assumption|].
    assert (Hid : id_has ents id = true) by (apply Hall; left; reflexivity).
    unfold id_has, JsMap.has in Hid. fold (id_get ents id) in Hid.
    destruct (id_get ents id) as [e|] eqn:He; [|discriminate].
    rewrite Hl. exists (entityUpdate e :: l). split; [reflexivity|]. split.
    + intros id' [<-|Hin].
      * exists e. split; [exact He|left; reflexivity].
      * destruct (Hfwd _ Hin) as (e' & He' & Hin'). exists e'. split; [exact He'|right; exact Hin'].
    + intros u [<-|Hin].
      * exists id, e. repeat split; [left; reflexivity|exact He].
      * destruct (Hbwd _ Hin) as (id' & e' & Hin' & He' & Hu).
        exists id', e'. repeat split; [right; exact Hin'|exact He'|exact Hu].
Qed.

Lemma finalVisibleIds_present (s : ServerState) (client : ClientConnection) (viewer : Entity) (id : Z) :
  In id (fst (applyGrace (entities s) (visibleNow s client viewer) (graceMapOf s client))) ->
  id_has (entities s) id = true.
Proof.
  rewrite applyGrace_fst, in_app_iff. intros [H|H].
  - exact (getVisibleEntities_present _ _ _ _ _ _ _ H).
  - apply in_map_iff in H. destruct H as [[i t] [Hi Hin]]. cbn in Hi. subst i.
    apply filter_In in Hin. destruct Hin as [_ Hc]. unfold inGrace in Hc. cbn in Hc.
    apply andb_true_iff in Hc. exact (proj2 Hc).
Qed.

(** What one iteration of the sending loop sends. *)
Lemma broadcastTo_sends (s : ServerState) (ws : Z) (client : ClientConnection) (viewer : Entity) :
  id_get (entities s) (c_id client) = Some viewer ->
  let visibleIds := visibleNow s client viewer in
  let final := fst (applyGrace (entities s) visibleIds (graceMapOf s client)) in
  exists ents,
    buildEntities (entities s) final = Some ents /\
    broadcastTo s (ws, client) =
      (with_grace s (id_set (recentlyVisibleEntities s) (c_id client)
                       (snd (applyGrace (entities s) visibleIds (graceMapOf s client)))),
       Some (ws, Protocol.mkUpdate (position viewer) ents (map b_position (bullets s))
                   (map (fun h => Protocol.mkHitUpdate (h_position h) (hitEntity h))
                        (tickHitEvents s))
                   (statsFor s client (List.length final)))).
Proof.
  intros Hv visibleIds final.
  destruct (buildEntities_total (entities s) final) as (l & Hl & _).
  { intros id Hin. exact (finalVisibleIds_present _ _ _ _ Hin). }
  exists l. split; [exact Hl|].
  unfold broadcastTo. rewrite Hv. fold visibleIds.
  destruct (applyGrace (entities s) visibleIds (graceMapOf s client)) as [f m] eqn:E.
  cbn [fst snd] in *. subst final. rewrite Hl. reflexivity.
Qed.

(** C10.  An entity id that is in the client's grace map, is not in the
    visible set freshly computed for the client, and is still in the entity
    table, is put in the client's frame with the entity's current position:
    no distance or line-of-sight test stands between the grace map and the
    frame.  (So an entity teleported by a respawn beyond the view distance
    is sent once more, at its new position.) *)
Theorem grace_entity_is_sent (s : ServerState) (ws : Z) (client : ClientConnection)
  (viewer : Entity) (id ticks : Z) (e : Entity) :
  id_get (entities s) (c_id client) = Some viewer ->
  In (id, ticks) (graceMapOf s client) ->
  existsb (Z.eqb id) (visibleNow s client viewer) = false ->
  id_get (entities s) id = Some e ->
  exists s' upd,
    broadcastTo s (ws, client) = (s', Some (ws, upd)) /\
    In (entityUpdate e) (Protocol.upd_entities upd) /\
    Protocol.u_id (entityUpdate e) = e_id e /\
    Protocol.u_position (entityUpdate e) = position e.
Proof.
  intros Hv Hgrace Hnotvis He.
  destruct (broadcastTo_sends s ws client Hv) as (ents & Hbuild & Hsend).
  eexists. eexists. split; [exact Hsend|]. cbn [Protocol.upd_entities].
  split; [|split; reflexivity].
  destruct (buildEntities_total (entities s)
              (fst (applyGrace (entities s) (visibleNow s client viewer) (graceMapOf s client))))
    as (l & Hl & Hfwd & _).
  { intros i Hin. exact (finalVisibleIds_present _ _ _ _ Hin). }
  rewrite Hl in Hbuild. inversion Hbuild; subst ents.
  destruct (Hfwd id) as (e' & He' & Hin).
  - rewrite applyGrace_fst, in_app_iff. right.
    apply in_map_iff. exists (id, ticks). split; [reflexivity|].
    apply filter_In. split; [exact Hgrace|].
    unfold inGrace. cbn [fst]. rewrite Hnotvis. cbn.
    unfold id_has, JsMap.has. fold (id_get (entities s) id). rewrite He. reflexivity.
  - rewrite He in He'. inversion He'; subst. exact Hin.
Qed.

(** The teleported bot of [Scenario.teleported] is sent at (900, 2, 900). *)
Lemma grace_entity_is_sent_witness :
  exists s' upd,
    broadcastTo teleported (7%Z, client 1000) = (s', Some (7%Z, upd)) /\
    In (entityUpdate farBot) (Protocol.upd_entities upd) /\
    Protocol.u_id (entityUpdate farBot) = e_id farBot /\
    Protocol.u_position (entityUpdate farBot) = position farBot.
Proof.
  apply (@grace_entity_is_sent teleported 7%Z (client 1000) (player 1000 (V3 0 2 0))
           1%Z 1%Z farBot).
  - vm_compute. reflexivity.
  - vm_compute. left. reflexivity.
  - vm_compute. reflexivity.
  - vm_compute. reflexivity.
Defined.

End Visibility.

(** ** What the phases of a tick leave alone *)

Ltac fields :=
  cbn [Index.entities Index.obstacles Index.gstate Index.clients
       Index.recentlyVisibleEntities Index.bullets Index.bulletIdCounter
       Index.tickHitEvents Index.playerIdCounter Index.lastTime Index.rngState
       Index.running Index.currentStats
       Index.with_entities Index.with_gstate Index.with_clients Index.with_grace
       Index.with_bullets Index.with_hits Index.with_playerIdCounter
       Index.with_lastTime Index.with_rngState Index.with_running] in *.

Section Phases.
Import Spatial Los Index.
Open Scope num_scope.
Variables Math_sin Math_cos : num -> num.

(** The socket and the client id of an entry of [clients]. *)
Definition clientTag (entry : Z * ClientConnection) : Z * Z := (fst entry, c_id (snd entry)).

(** Two states with the same entity ids, the same clients up to their
    inputs, the same grace maps and the same id counter. *)
Definition sameShape (s s' : ServerState) : Prop :=
  JsMap.keys (entities s') = JsMap.keys (entities s) /\
  map clientTag (clients s') = map clientTag (clients s) /\
  recentlyVisibleEntities s' = recentlyVisibleEntities s /\
  playerIdCounter s' = playerIdCounter s.

Lemma sameShape_refl (s : ServerState) : sameShape s s.
Proof. repeat split. Qed.

Lemma sameShape_trans (a b c : ServerState) : sameShape a b -> sameShape b c -> sameShape a c.
Proof.
  intros (H1 & H2 & H3 & H4) (H1' & H2' & H3' & H4').
  repeat split; congruence.
Qed.

Lemma id_keys_set_present {V : Type} (m : idmap V) (k : Z) (v v' : V) :
  id_get m k = Some v -> JsMap.keys (id_set m k v') = JsMap.keys m.
Proof.
  intros H. apply (keys_set_present Z.eqb Zeqb_spec).
  exact (get_Some_keys Z.eqb Zeqb_spec _ _ H).
Qed.

Lemma botsUpdate_keys_gen (deltaTime : num) (gs : GridState) (l : idmap Entity)
  (acc : idmap Entity * Z) :
  JsMap.keys (fst (fold_left (botStep Math_sin Math_cos deltaTime gs) l acc)) =
  JsMap.keys (fst acc) ++ JsMap.keys l.
Proof.
  revert acc. induction l as [|[id e] rest IH]; intros acc; cbn [fold_left].
  - cbn. rewrite app_nil_r. reflexivity.
  - rewrite IH. unfold botStep. cbn [fst snd].
    destruct (negb (isPlayer e)); cbn [fst snd]; unfold JsMap.keys;
      rewrite map_app, <- app_assoc; reflexivity.
Qed.

Lemma botsUpdate_shape (deltaTime : num) (s : ServerState) :
  sameShape s (botsUpdate Math_sin Math_cos deltaTime s).
Proof.
  unfold botsUpdate, sameShape. fields.
  rewrite botsUpdate_keys_gen. cbn. repeat split.
Qed.

Lemma botsGridUpdate_shape (s : ServerState) : sameShape s (botsGridUpdate s).
Proof. unfold botsGridUpdate, sameShape. fields. repeat split. Qed.

Lemma movePlayer_keys (deltaTime : num) (client : ClientConnection) (w : idmap Entity * GridState) :
  JsMap.keys (fst (movePlayer Math_sin deltaTime client w)) = JsMap.keys (fst w).
Proof.
  destruct w as [ents gs]. unfold movePlayer.
  destruct (id_get ents (c_id client)) as [entity|] eqn:He; [|reflexivity].
  destruct (_ || _); [|reflexivity].
  destruct (slide gs (position entity) _ _) as [fx fz].
  destruct (_ || _); [|reflexivity].
  cbn [fst]. exact (id_keys_set_present _ _ _ He).
Qed.

Lemma playersUpdate_shape (deltaTime : num) (s : ServerState) :
  sameShape s (playersUpdate Math_sin deltaTime s).
Proof.
  unfold playersUpdate, sameShape. fields.
  assert (H : forall l w, JsMap.keys (fst (fold_left (playerStep Math_sin deltaTime) l w)) =
                          JsMap.keys (fst w)).
  { induction l as [|entry rest IH]; intros w; cbn [fold_left]; [reflexivity|].
    rewrite IH. apply movePlayer_keys. }
  rewrite H. repeat split.
Qed.

Lemma tags_set (m : idmap ClientConnection) (ws : Z) (c : ClientConnection) :
  NoDup (JsMap.keys m) -> In (ws, c_id c) (map clientTag m) ->
  map clientTag (id_set m ws c) = map clientTag m.
Proof.
  induction m as [|[k0 c0] rest IH]; cbn; [intros _ []|].
  intros Hnd Hin. inversion Hnd as [|? ? Hnotin Hnd']; subst.
  destruct (k0 =? ws)%Z eqn:E.
  - apply Z.eqb_eq in E. subst k0. cbn. destruct Hin as [Hin|Hin].
    + unfold clientTag in *. cbn in *. inversion Hin. reflexivity.
    + exfalso. apply Hnotin. apply in_map_iff in Hin. destruct Hin as [[k c'] [Heq Hin]].
      unfold clientTag in Heq. cbn in Heq. inversion Heq; subst.
      apply (in_map fst) in Hin. exact Hin.
  - cbn. f_equal. apply IH; [exact Hnd'|].
    destruct Hin as [Hin|Hin]; [|exact Hin].
    unfold clientTag in Hin. cbn in Hin. inversion Hin. subst. rewrite Z.eqb_refl in E. discriminate.
Qed.

Lemma keys_of_tags (m : idmap ClientConnection) : JsMap.keys m = map fst (map clientTag m).
Proof. unfold JsMap.keys. rewrite map_map. reflexivity. Qed.

Lemma spawnFor_shape (now : Z) (s : ServerState) (entry : Z * ClientConnection) :
  NoDup (JsMap.keys (clients s)) -> In (clientTag entry) (map clientTag (clients s)) ->
  sameShape s (spawnFor Math_sin Math_cos now s entry).
Proof.
  intros Hnd Hin. destruct entry as [ws client]. unfold spawnFor.
  destruct (mayFire now client); [|apply sameShape_refl].
  destruct (id_get (entities s) (c_id client)); [|apply sameShape_refl].
  unfold sameShape. fields. repeat split.
  apply tags_set; assumption.
Qed.

Lemma bulletsSpawn_shape (now : Z) (s : ServerState) :
  NoDup (JsMap.keys (clients s)) -> sameShape s (bulletsSpawn Math_sin Math_cos now s).
Proof.
  intros Hnd. unfold bulletsSpawn.
  assert (H : forall l s', sameShape s s' ->
                (forall entry, In entry l -> In (clientTag entry) (map clientTag (clients s))) ->
                sameShape s (fold_left (spawnFor Math_sin Math_cos now) l s')).
  { induction l as [|entry rest IH]; intros s' Hs Hl; cbn [fold_left]; [exact Hs|].
    apply IH; [|intros; apply Hl; right; assumption].
    apply (sameShape_trans Hs). apply spawnFor_shape.
    - rewrite keys_of_tags. destruct Hs as (_ & -> & _). rewrite <- keys_of_tags. exact Hnd.
    - destruct Hs as (_ & -> & _). apply Hl. left. reflexivity. }
  apply H; [apply sameShape_refl|].
  intros entry Hin. apply in_map. exact Hin.
Qed.

Lemma hitEntityAt_keys (rnd : randoms) (bullet : Bullet) (prev new : Vector3) (id : Z)
  (entity : Entity) (w : World) :
  id_get (w_entities w) id = Some entity ->
  JsMap.keys (w_entities (hitEntityAt Math_sin rnd bullet prev new id entity w)) =
  JsMap.keys (w_entities w).
Proof.
  intros He. unfold hitEntityAt. cbn zeta.
  destruct (_ <=? _)%Z; cbn [w_entities]; exact (id_keys_set_present _ _ _ He).
Qed.

Lemma stepBullet_keys (rnd : randoms) (steps : nat) (stepSize : num) (bullet : Bullet) (w : World) :
  JsMap.keys (w_entities (snd (stepBullet Math_sin rnd steps stepSize bullet w))) =
  JsMap.keys (w_entities w).
Proof.
  revert bullet w. induction steps as [|n IH]; intros bullet w; cbn [stepBullet]; [reflexivity|].
  cbn zeta.
  destruct (_ >=? _)%Z.
  - destruct (id_get (w_entities w) _) as [entity|] eqn:He; cbn [snd]; [|reflexivity].
    exact (hitEntityAt_keys _ _ _ _ _ _ He).
  - destruct (checkObstacleAt _ _ _ _); [reflexivity|].
    destruct (_ || _); [reflexivity|]. apply IH.
Qed.

Lemma updateBullets_keys (rnd : randoms) (now : Z) (deltaTime : num) (bs : list Bullet) (w : World) :
  JsMap.keys (w_entities (snd (updateBullets Math_sin rnd now deltaTime bs w))) =
  JsMap.keys (w_entities w).
Proof.
  unfold updateBullets. induction bs as [|b rest IH]; cbn [fold_right]; [reflexivity|].
  unfold bulletStep at 1.
  set (acc := fold_right _ _ rest) in *.
  assert (H : JsMap.keys (w_entities (snd (updateBullet Math_sin rnd now deltaTime b (snd acc)))) =
              JsMap.keys (w_entities (snd acc))).
  { unfold updateBullet. destruct (_ >? _)%Z; [reflexivity|]. apply stepBullet_keys. }
  destruct (fst (updateBullet Math_sin rnd now deltaTime b (snd acc))); cbn [snd];
    rewrite H; exact IH.
Qed.

Lemma bulletsUpdate_shape (rnd : randoms) (now : Z) (deltaTime : num) (s : ServerState) :
  sameShape s (bulletsUpdate Math_sin rnd now deltaTime s).
Proof.
  unfold bulletsUpdate, sameShape. fields.
  rewrite updateBullets_keys. cbn. repeat split.
Qed.

Lemma beforeBroadcast_shape (now : Z) (rnd : randoms) (s : ServerState) :
  NoDup (JsMap.keys (clients s)) ->
  sameShape s (beforeBroadcast Math_sin Math_cos now rnd s).
Proof.
  intros Hnd. unfold beforeBroadcast. cbn zeta.
  set (dt := ofZ (now - lastTime s) / #1000).
  set (s1 := with_lastTime s now).
  set (s2 := botsUpdate Math_sin Math_cos dt s1).
  set (s3 := botsGridUpdate s2).
  set (s4 := playersUpdate Math_sin dt s3).
  set (s5 := with_hits s4 []).
  set (s6 := bulletsSpawn Math_sin Math_cos now s5).
  assert (H1 : sameShape s s1) by (repeat split).
  assert (H2 : sameShape s1 s2) by apply botsUpdate_shape.
  assert (H3 : sameShape s2 s3) by apply botsGridUpdate_shape.
  assert (H4 : sameShape s3 s4) by apply playersUpdate_shape.
  assert (H5 : sameShape s4 s5) by (repeat split).
  assert (H15 : sameShape s s5)
    by (eauto using sameShape_trans).
  assert (H6 : sameShape s5 s6).
  { apply bulletsSpawn_shape. rewrite keys_of_tags.
    destruct H15 as (_ & -> & _). rewrite <- keys_of_tags. exact Hnd. }
  eapply sameShape_trans; [exact H15|].
  eapply sameShape_trans; [exact H6|]. apply bulletsUpdate_shape.
Qed.

End Phases.

(** ** The grace window over a run *)

Section GraceMap.
Import Spatial Los Index.
Open Scope num_scope.

(** The grace map after the grace loop, when no counter exceeds 1: an entry
    that is left was there before and was not sent by grace. *)
Lemma graceLoop_snd_In (ents : idmap Entity) (visibleIds : list Z) (l : idmap Z)
  (acc : list Z) (m : idmap Z) (e t : Z) :
  (forall e' t', In (e', t') l -> (t' <= 1)%Z) ->
  In (e, t) (snd (fold_left (graceStep ents visibleIds) l (acc, m))) ->
  In (e, t) m /\ (In e (JsMap.keys l) -> inGrace ents visibleIds (e, t) = false).
Proof.
  revert acc m. induction l as [|[id ticks] rest IH]; intros acc m Hle Hin; cbn [fold_left] in Hin.
  - split; [exact Hin|intros []].
  - assert (Hg : graceStep ents visibleIds (acc, m) (id, ticks) =
                 if inGrace ents visibleIds (id, ticks)
                 then (acc ++ [id],
                       if (ticks <=? 1)%Z then id_delete m id else id_set m id (ticks - 1)%Z)
                 else (acc, m)) by reflexivity.
    rewrite Hg in Hin. clear Hg.
    assert (Hticks : (ticks <=? 1)%Z = true).
    { apply Z.leb_le. apply (Hle id ticks). left. reflexivity. }
    assert (Hrest : forall e' t', In (e', t') rest -> (t' <= 1)%Z).
    { intros e' t' H. apply (Hle e' t'). right. exact H. }
    destruct (inGrace ents visibleIds (id, ticks)) eqn:Hg.
    + rewrite Hticks in Hin. destruct (IH _ _ Hrest Hin) as [Hm Hk].
      apply (In_delete Z.eqb Zeqb_spec) in Hm. destruct Hm as [Hm Hne]. cbn in Hne.
      split; [exact Hm|]. intros [Heq|Hin']; [cbn in Heq; congruence|exact (Hk Hin')].
    + destruct (IH _ _ Hrest Hin) as [Hm Hk].
      split; [exact Hm|]. intros [Heq|Hin']; [|exact (Hk Hin')].
      cbn in Heq. subst id. exact Hg.
Qed.

Lemma refresh_In (visibleIds : list Z) (m : idmap Z) (e t : Z) :
  In (e, t) (fold_left (fun m entityId => id_set m entityId LOS_GRACE_TICKS) visibleIds m) ->
  (In e visibleIds /\ t = 1%Z) \/ In (e, t) m.
Proof.
  revert m. induction visibleIds as [|id rest IH]; intros m Hin; cbn [fold_left] in Hin.
  - right. exact Hin.
  - destruct (IH _ Hin) as [[H1 H2]|H].
    + left. split; [right; exact H1|exact H2].
    + apply (In_set Z.eqb Zeqb_spec) in H. destruct H as [H|H].
      * inversion H; subst. left. split; [left; reflexivity|reflexivity].
      * right. exact H.
Qed.

Lemma applyGrace_snd_In (ents : idmap Entity) (visibleIds : list Z) (gm : idmap Z) (e t : Z) :
  (forall e' t', In (e', t') gm -> (t' <= 1)%Z) ->
  In (e, t) (snd (applyGrace ents visibleIds gm)) ->
  (In e visibleIds /\ t = 1%Z) \/ (In (e, t) gm /\ inGrace ents visibleIds (e, t) = false).
Proof.
  intros Hle. unfold applyGrace.
  pose proof (@graceLoop_snd_In ents visibleIds gm visibleIds gm e t Hle) as Hloop.
  destruct (fold_left (graceStep ents visibleIds) gm (visibleIds, gm)) as [f m]. cbn [snd] in *.
  intros Hin. apply refresh_In in Hin. destruct Hin as [H|H]; [left; exact H|].
  right. destruct (Hloop H) as [Hm Hk]. split; [exact Hm|].
  apply Hk. apply (in_map fst) in Hm. exact Hm.
Qed.

(** An id is in view of a client whose entity is [viewer]: it names another
    entity of the table that is not farther than the view distance and, when
    the client is in line-of-sight mode, that [canSeeEntity] accepts. *)
Definition inView (s : ServerState) (client : ClientConnection) (viewer : Entity) (id : Z) : Prop :=
  id <> c_id client /\
  exists target : Entity,
    In (id, target) (entities s) /\
    (let dx := vx (position target) - vx (position viewer) in
     let dy := vy (position target) - vy (position viewer) in
     let dz := vz (position target) - vz (position viewer) in
     dx * dx + dy * dy + dz * dz >? viewDistance client * viewDistance client) = false /\
    (losMode client = false \/
     canSeeEntity (position viewer) (position target) (grid (gstate s)) = true).

Lemma visibleNow_inView (s : ServerState) (client : ClientConnection) (viewer : Entity) (id : Z) :
  In id (visibleNow s client viewer) <-> inView s client viewer id.
Proof.
  unfold visibleNow, inView. rewrite getVisibleEntities_filter, in_map_iff. split.
  - intros [[i p] [Hi Hin]]. cbn in Hi. subst i.
    apply filter_In in Hin. destruct Hin as [Hin Hp].
    apply in_map_iff in Hin. destruct Hin as [[i e] [Heq Hin]]. cbn in Heq. inversion Heq; subst.
    unfold passes in Hp. cbn [fst snd] in Hp.
    apply andb_true_iff in Hp. destruct Hp as [Hp Hlos].
    apply andb_true_iff in Hp. destruct Hp as [Hne Hd].
    apply negb_true_iff in Hne, Hd. apply Z.eqb_neq in Hne.
    split; [exact Hne|]. exists e. split; [exact Hin|]. split; [exact Hd|].
    apply orb_true_iff in Hlos. destruct Hlos as [H|H]; [left|right; exact H].
    apply negb_true_iff in H. exact H.
  - intros [Hne (e & Hin & Hd & Hlos)].
    exists (id, position e). split; [reflexivity|].
    apply filter_In. split.
    + apply in_map_iff. exists (id, e). split; [reflexivity|exact Hin].
    + unfold passes. cbn [fst snd]. cbn zeta in Hd. rewrite Hd.
      apply Z.eqb_neq in Hne. rewrite Hne. cbn [negb andb].
      destruct Hlos as [ -> | -> ]; [reflexivity|apply orb_true_r].
Qed.

End GraceMap.

Section Broadcast.
Import Spatial Los Index.
Open Scope Z_scope.

Definition clientIds (l : idmap ClientConnection) : list Z := map snd (map clientTag l).

(** The bookkeeping a reachable state obeys. *)
Record WF (s : ServerState) : Prop := mkWF {
  wf_entity_ids : forall id, In id (JsMap.keys (entities s)) -> id < playerIdCounter s;
  wf_client_keys : NoDup (map fst (map clientTag (clients s)));
  wf_client_ids : NoDup (clientIds (clients s));
  wf_client_entity : forall cid, In cid (clientIds (clients s)) -> In cid (JsMap.keys (entities s));
  wf_grace_keys : NoDup (JsMap.keys (recentlyVisibleEntities s));
  wf_grace_client : forall cid gm, In (cid, gm) (recentlyVisibleEntities s) ->
                                   In cid (clientIds (clients s));
  wf_grace_entries : forall cid gm e t, In (cid, gm) (recentlyVisibleEntities s) ->
                                        In (e, t) gm -> e < playerIdCounter s /\ t <= 1
}.

Lemma WF_shape (s s' : ServerState) : sameShape s s' -> WF s -> WF s'.
Proof.
  intros (H1 & H2 & H3 & H4) [W1 W2 W3 W4 W5 W6 W7].
  constructor; unfold clientIds in *; rewrite ?H1, ?H2, ?H3, ?H4; assumption.
Qed.

Definition graceOf (rve : idmap (idmap Z)) (cid : Z) : idmap Z :=
  match id_get rve cid with
  | Some m => m
  | None => []
  end.

Lemma has_true_get {V : Type} (m : idmap V) (k : Z) :
  id_has m k = true -> exists v, id_get m k = Some v.
Proof.
  unfold id_has, JsMap.has. fold (id_get m k). destruct (id_get m k); [eauto|discriminate].
Qed.

Lemma in_keys_has {V : Type} (m : idmap V) (k : Z) : In k (JsMap.keys m) -> id_has m k = true.
Proof. intros H. apply (has_keys Z.eqb Zeqb_spec). exact H. Qed.

(** One iteration of the sending loop on a state that differs from [B] by
    its grace maps only. *)
Lemma sendStep_on (B : ServerState) (rve : idmap (idmap Z)) (sent : list (Z * Protocol.Update))
  (ws : Z) (client : ClientConnection) (viewer : Entity) :
  id_get (entities B) (c_id client) = Some viewer ->
  exists upd,
    sendStep (with_grace B rve, sent) (ws, client) =
      (with_grace B (id_set rve (c_id client)
                       (snd (applyGrace (entities B) (visibleNow B client viewer)
                                        (graceOf rve (c_id client))))),
       sent ++ [(ws, upd)]) /\
    buildEntities (entities B)
      (fst (applyGrace (entities B) (visibleNow B client viewer) (graceOf rve (c_id client))))
    = Some (Protocol.upd_entities upd).
Proof.
  intros Hv.
  destruct (@broadcastTo_sends (with_grace B rve) ws client viewer Hv) as (ents & Hb & Hsend).
  eexists. split.
  - unfold sendStep. cbn [fst snd]. rewrite Hsend. cbn [fst snd]. reflexivity.
  - exact Hb.
Qed.

Lemma broadcast_loop (B : ServerState) (l : idmap ClientConnection) :
  forall (rve : idmap (idmap Z)) (sent : list (Z * Protocol.Update)),
  (forall cid, In cid (clientIds l) -> In cid (JsMap.keys (entities B))) ->
  NoDup (clientIds l) ->
  let r := fold_left sendStep l (with_grace B rve, sent) in
  fst r = with_grace B (recentlyVisibleEntities (fst r)) /\
  (forall ws upd, In (ws, upd) (snd r) ->
     In (ws, upd) sent \/
     exists client viewer,
       In (ws, client) l /\ id_get (entities B) (c_id client) = Some viewer /\
       buildEntities (entities B)
         (fst (applyGrace (entities B) (visibleNow B client viewer) (graceOf rve (c_id client))))
       = Some (Protocol.upd_entities upd)) /\
  (forall cid, ~ In cid (clientIds l) ->
     id_get (recentlyVisibleEntities (fst r)) cid = id_get rve cid) /\
  (forall ws client, In (ws, client) l ->
     exists viewer, id_get (entities B) (c_id client) = Some viewer /\
       id_get (recentlyVisibleEntities (fst r)) (c_id client) =
       Some (snd (applyGrace (entities B) (visibleNow B client viewer)
                             (graceOf rve (c_id client))))) /\
  (forall cid, In cid (JsMap.keys (recentlyVisibleEntities (fst r))) ->
     In cid (JsMap.keys rve) \/ In cid (clientIds l)) /\
  (NoDup (JsMap.keys rve) -> NoDup (JsMap.keys (recentlyVisibleEntities (fst r)))).
Proof.
  induction l as [|[ws client] rest IH]; intros rve sent Hent Hnd; cbn [fold_left].
  - cbn. repeat split; intros; tauto.
  - unfold clientIds in Hnd, Hent. cbn [map clientTag fst snd] in Hnd, Hent.
    inversion Hnd as [|? ? Hnotin Hnd']; subst.
    assert (Hv : exists viewer, id_get (entities B) (c_id client) = Some viewer).
    { apply has_true_get, in_keys_has, Hent. left. reflexivity. }
    destruct Hv as [viewer Hv].
    destruct (@sendStep_on B rve sent ws client viewer Hv) as (upd & Hstep & Hbuild).
    rewrite Hstep.
    set (gm' := snd (applyGrace (entities B) (visibleNow B client viewer)
                                (graceOf rve (c_id client)))) in *.
    specialize (IH (id_set rve (c_id client) gm') (sent ++ [(ws, upd)])).
    cbn zeta in IH.
    destruct IH as (I1 & I2 & I3 & I4 & I5 & I6);
      [intros cid Hc; apply Hent; right; exact Hc|exact Hnd'|].
    assert (Hother : forall cid, cid <> c_id client ->
              graceOf (id_set rve (c_id client) gm') cid = graceOf rve cid).
    { intros cid Hne. unfold graceOf, id_get, id_set.
      rewrite (get_set_other Z.eqb Zeqb_spec); [reflexivity|congruence]. }
    split; [exact I1|]. split; [|split; [|split; [|split]]].
    + intros ws' upd' Hin. destruct (I2 _ _ Hin) as [Hs|(c' & v' & Hc' & Hv' & Hb')].
      * apply in_app_iff in Hs. destruct Hs as [Hs|[Hs|[]]]; [left; exact Hs|].
        inversion Hs; subst. right. exists client, viewer.
        split; [left; reflexivity|]. split; [exact Hv|exact Hbuild].
      * right. exists c', v'. split; [right; exact Hc'|]. split; [exact Hv'|].
        rewrite <- Hother; [exact Hb'|].
        intros Heq. apply Hnotin. rewrite <- Heq.
        unfold clientIds. apply in_map_iff. exists (ws', c_id c'). split; [reflexivity|].
        apply in_map_iff. exists (ws', c'). split; [reflexivity|exact Hc'].
    + intros cid Hn. rewrite I3.
      * unfold id_get, id_set. apply (get_set_other Z.eqb Zeqb_spec).
        intros Heq. apply Hn. left. exact Heq.
      * intros Hin. apply Hn. right. exact Hin.
    + intros ws' c' [Heq|Hin].
      * inversion Heq; subst. exists viewer. split; [exact Hv|].
        rewrite I3; [|exact Hnotin].
        unfold id_get, id_set. apply (get_set_same Z.eqb Zeqb_spec).
      * destruct (I4 _ _ Hin) as (v' & Hv' & Hg'). exists v'. split; [exact Hv'|].
        rewrite Hg'. rewrite Hother; [reflexivity|].
        intros Heq. apply Hnotin. rewrite <- Heq.
        unfold clientIds. apply in_map_iff. exists (ws', c_id c'). split; [reflexivity|].
        apply in_map_iff. exists (ws', c'). split; [reflexivity|exact Hin].
    + intros cid Hin. destruct (I5 _ Hin) as [H|H].
      * apply (keys_set Z.eqb Zeqb_spec) in H. destruct H as [H|H].
        -- right. left. symmetry. exact H.
        -- left. exact H.
      * right. right. exact H.
    + intros Hndr. apply I6. apply (NoDup_keys_set Z.eqb Zeqb_spec). exact Hndr.
Qed.

End Broadcast.

Section ListFacts.
Variables (A B : Type).

Lemma NoDup_map_filter (f : A -> B) (keep : A -> bool) (entries : list A) :
  NoDup (map f entries) -> NoDup (map f (filter keep entries)).
Proof.
  induction entries as [|a rest IH]; cbn; intros Hnd; [constructor|].
  inversion Hnd as [|? ? Hnotin Hnd']; subst.
  destruct (keep a); cbn; [|exact (IH Hnd')].
  constructor; [|exact (IH Hnd')].
  intros Hin. apply Hnotin. apply in_map_iff in Hin. destruct Hin as [x [Hx Hin]].
  apply filter_In in Hin. apply in_map_iff. exists x. split; [exact Hx|exact (proj1 Hin)].
Qed.

Lemma NoDup_map_In_inj (f : A -> B) (l : list A) (a b : A) :
  NoDup (map f l) -> In a l -> In b l -> f a = f b -> a = b.
Proof.
  induction l as [|x rest IH]; cbn; intros Hnd Ha Hb Heq; [contradiction|].
  inversion Hnd as [|? ? Hnotin Hnd']; subst.
  destruct Ha as [Ha|Ha], Hb as [Hb|Hb].
  - congruence.
  - subst x. exfalso. apply Hnotin. rewrite Heq. apply in_map. exact Hb.
  - subst x. exfalso. apply Hnotin. rewrite <- Heq. apply in_map. exact Ha.
  - exact (IH Hnd' Ha Hb Heq).
Qed.

End ListFacts.

Lemma set_absent {V : Type} (m : idmap V) (k : Z) (v : V) :
  id_has m k = false -> id_set m k v = m ++ [(k, v)].
Proof.
  unfold id_has, JsMap.has, id_set.
  induction m as [|[k0 v0] rest IH]; cbn; [reflexivity|].
  destruct (k0 =? k)%Z; [discriminate|].
  intros H. f_equal. exact (IH H).
Qed.

Section History.
Import Spatial Los Index.
Open Scope Z_scope.
Variables Math_sin Math_cos : num -> num.

Local Abbreviation beforeBroadcast := (Index.beforeBroadcast Math_sin Math_cos).
Local Abbreviation gameTick := (Index.gameTick Math_sin Math_cos).
Local Abbreviation step := (Index.step Math_sin Math_cos).
Local Abbreviation initializeWorld := (Index.initializeWorld Math_sin).

(** The entity [e] was in view of the client [cid] when the frames of the
    previous tick were built, in the state [B] of that moment. *)
Definition seenBefore (prev : option ServerState) (cid e : Z) : Prop :=
  exists B ws client viewer,
    prev = Some B /\ In (ws, client) (clients B) /\ c_id client = cid /\
    id_get (entities B) cid = Some viewer /\ inView B client viewer e.

(** Every entry of a grace map that names an entity of the table was put
    there by the previous tick. *)
Definition graceJustified (s : ServerState) (prev : option ServerState) : Prop :=
  forall cid gm e t,
    In (cid, gm) (recentlyVisibleEntities s) -> In (e, t) gm ->
    In e (JsMap.keys (entities s)) -> seenBefore prev cid e.

Lemma graceJustified_shape (s s' : ServerState) (prev : option ServerState) :
  sameShape s s' -> graceJustified s prev -> graceJustified s' prev.
Proof.
  intros (H1 & H2 & H3 & H4) HJ cid gm e t Hin Hin' Hk.
  rewrite H3 in Hin. rewrite H1 in Hk. exact (HJ _ _ _ _ Hin Hin' Hk).
Qed.

Lemma with_grace_same (B : ServerState) : with_grace B (recentlyVisibleEntities B) = B.
Proof. destruct B. reflexivity. Qed.

Lemma client_of_id (l : idmap ClientConnection) (cid : Z) :
  In cid (clientIds l) -> exists ws client, In (ws, client) l /\ c_id client = cid.
Proof.
  unfold clientIds. rewrite map_map. intros H. apply in_map_iff in H.
  destruct H as [[ws c] [Heq Hin]]. cbn in Heq. eauto.
Qed.

Lemma id_of_client (l : idmap ClientConnection) (ws : Z) (client : ClientConnection) :
  In (ws, client) l -> In (c_id client) (clientIds l).
Proof.
  intros H. unfold clientIds. rewrite map_map. apply in_map_iff.
  exists (ws, client). split; [reflexivity|exact H].
Qed.

Lemma graceOf_entries (s : ServerState) (cid e t : Z) :
  WF s -> In (e, t) (graceOf (recentlyVisibleEntities s) cid) ->
  In (cid, graceOf (recentlyVisibleEntities s) cid) (recentlyVisibleEntities s) /\
  e < playerIdCounter s /\ t <= 1.
Proof.
  intros W Hin. unfold graceOf in *.
  destruct (id_get (recentlyVisibleEntities s) cid) as [gm|] eqn:E; [|destruct Hin].
  apply (get_Some_In Z.eqb Zeqb_spec) in E.
  split; [exact E|]. exact (wf_grace_entries W _ _ _ _ E Hin).
Qed.

(** The state after the frames of a tick are sent. *)
Lemma broadcast_preserves (B : ServerState) :
  WF B ->
  WF (fst (broadcast B)) /\ graceJustified (fst (broadcast B)) (Some B) /\
  sameShape B (with_grace (fst (broadcast B)) (recentlyVisibleEntities B)) /\
  running (fst (broadcast B)) = running B.
Proof.
  intros W. unfold broadcast.
  pose proof (@broadcast_loop B (clients B) (recentlyVisibleEntities B) []
                (wf_client_entity W) (wf_client_ids W)) as H.
  rewrite with_grace_same in H. cbn zeta in H.
  destruct H as (I1 & I2 & I3 & I4 & I5 & I6).
  set (r := fold_left sendStep (clients B) (B, [])) in *.
  assert (Hclient : forall cid gm, In (cid, gm) (recentlyVisibleEntities (fst r)) ->
            exists ws client viewer,
              In (ws, client) (clients B) /\ c_id client = cid /\
              id_get (entities B) cid = Some viewer /\
              gm = snd (applyGrace (entities B) (visibleNow B client viewer)
                                   (graceOf (recentlyVisibleEntities B) cid))).
  { intros cid gm Hin.
    assert (Hcid : In cid (clientIds (clients B))).
    { destruct (I5 cid) as [Hk|Hk]; [apply (in_map fst) in Hin; exact Hin| |exact Hk].
      apply (keys_get_Some Z.eqb Zeqb_spec) in Hk. destruct Hk as [gm0 Hgm0].
      apply (get_Some_In Z.eqb Zeqb_spec) in Hgm0. exact (wf_grace_client W _ _ Hgm0). }
    destruct (client_of_id _ _ Hcid) as (ws & client & Hc & Hid).
    destruct (I4 _ _ Hc) as (viewer & Hv & Hg).
    exists ws, client, viewer. subst cid. repeat split; try assumption.
    pose proof (In_get_NoDup Z.eqb Zeqb_spec _ _ _ (I6 (wf_grace_keys W)) Hin) as Hget.
    unfold id_get in Hg. rewrite Hg in Hget. inversion Hget. reflexivity. }
  assert (Hentry : forall cid gm e t, In (cid, gm) (recentlyVisibleEntities (fst r)) ->
            In (e, t) gm ->
            (e < playerIdCounter B /\ t <= 1) /\
            (In e (JsMap.keys (entities B)) -> seenBefore (Some B) cid e)).
  { intros cid gm e t Hin Het.
    destruct (Hclient _ _ Hin) as (ws & client & viewer & Hc & Hid & Hv & Hgm).
    subst gm. apply applyGrace_snd_In in Het.
    - assert (Hseen : In e (visibleNow B client viewer) -> seenBefore (Some B) cid e).
      { intros Hvis. exists B, ws, client, viewer. repeat split; try assumption.
        - apply visibleNow_inView in Hvis. exact (proj1 Hvis).
        - apply visibleNow_inView in Hvis. exact (proj2 Hvis). }
      destruct Het as [[Hvis Ht]|[Hold Hng]].
      + split; [|intros _; exact (Hseen Hvis)]. split; [|lia].
        apply (wf_entity_ids W). apply (has_keys Z.eqb Zeqb_spec).
        exact (getVisibleEntities_present _ _ _ _ _ _ _ Hvis).
      + destruct (graceOf_entries _ _ _ W Hold) as (_ & Hlt & Hle).
        split; [split; assumption|]. intros Hk. apply Hseen.
        unfold inGrace in Hng. cbn [fst] in Hng.
        rewrite (in_keys_has _ _ Hk), andb_true_r in Hng.
        apply negb_false_iff in Hng. apply existsb_Zeqb_In. exact Hng.
    - intros e' t' H'. exact (proj2 (proj2 (graceOf_entries _ _ _ W H'))). }
  rewrite I1. fields.
  split; [|split; [|split]].
  - constructor; fields; try (destruct W; assumption).
    + exact (I6 (wf_grace_keys W)).
    + intros cid gm Hin. destruct (Hclient _ _ Hin) as (ws & client & _ & Hc & Hid & _).
      subst cid. exact (id_of_client _ _ _ Hc).
    + intros cid gm e t Hin Het. exact (proj1 (Hentry _ _ _ _ Hin Het)).
  - intros cid gm e t Hin Het Hk. fields. exact (proj2 (Hentry _ _ _ _ Hin Het) Hk).
  - repeat split.
  - reflexivity.
Qed.

(** Who gets what: every entity update of a frame is the update of a
    table entry that is in view now or was left in the grace map. *)
Lemma broadcast_frames (B : ServerState) (ws : Z) (upd : Protocol.Update)
  (u : Protocol.EntityUpdate) :
  WF B ->
  In (ws, upd) (snd (broadcast B)) -> In u (Protocol.upd_entities upd) ->
  exists client viewer id e,
    In (ws, client) (clients B) /\
    id_get (entities B) (c_id client) = Some viewer /\
    id_get (entities B) id = Some e /\ u = entityUpdate e /\
    (inView B client viewer id \/
     exists t, In (id, t) (graceOf (recentlyVisibleEntities B) (c_id client))).
Proof.
  intros W Hsent Hu. unfold broadcast in Hsent.
  pose proof (@broadcast_loop B (clients B) (recentlyVisibleEntities B) []
                (wf_client_entity W) (wf_client_ids W)) as H.
  rewrite with_grace_same in H. cbn zeta in H.
  destruct H as (_ & I2 & _).
  destruct (I2 _ _ Hsent) as [[]|(client & viewer & Hc & Hv & Hbuild)].
  destruct (buildEntities_total (entities B)
              (fst (applyGrace (entities B) (visibleNow B client viewer)
                               (graceOf (recentlyVisibleEntities B) (c_id client)))))
    as (l & Hl & _ & Hbwd).
  { intros i Hin. rewrite applyGrace_fst, in_app_iff in Hin. destruct Hin as [Hin|Hin].
    - exact (getVisibleEntities_present _ _ _ _ _ _ _ Hin).
    - apply in_map_iff in Hin. destruct Hin as [[i' t] [Hi Hin]]. cbn in Hi. subst i'.
      apply filter_In in Hin. destruct Hin as [_ Hg]. unfold inGrace in Hg.
      apply andb_true_iff in Hg. exact (proj2 Hg). }
  rewrite Hl in Hbuild. inversion Hbuild; subst l.
  destruct (Hbwd _ Hu) as (id & e & Hid & He & Hue).
  exists client, viewer, id, e. repeat split; try assumption.
  rewrite applyGrace_fst, in_app_iff in Hid. destruct Hid as [Hid|Hid].
  - left. apply visibleNow_inView. exact Hid.
  - right. apply in_map_iff in Hid. destruct Hid as [[i t] [Hi Hin]]. cbn in Hi. subst i.
    apply filter_In in Hin. exists t. exact (proj1 Hin).
Qed.

(** ** The socket events *)

Definition isTick (ev : Event) : bool :=
  match ev with
  | Tick _ _ => true
  | _ => false
  end.

Lemma client_get_tag (s : ServerState) (ws : Z) (client : ClientConnection) :
  id_get (clients s) ws = Some client -> In (ws, c_id client) (map clientTag (clients s)).
Proof.
  intros H. apply (get_Some_In Z.eqb Zeqb_spec) in H.
  apply in_map_iff. exists (ws, client). split; [reflexivity|exact H].
Qed.

Lemma message_shape (ws : Z) (buf : Protocol.buffer) (s : ServerState) :
  WF s -> sameShape s (message ws buf s).
Proof.
  intros W. unfold message.
  destruct (id_get (clients s) ws) as [client|] eqn:Hc; [|apply sameShape_refl].
  pose proof (client_get_tag _ _ Hc) as Htag.
  assert (Hnd : NoDup (JsMap.keys (clients s))) by (rewrite keys_of_tags; exact (wf_client_keys W)).
  destruct (Protocol.getUint8 buf 0); [|apply sameShape_refl].
  destruct (_ =? Protocol.MSG_INPUT).
  - destruct (Protocol.decodeInput buf) as [input|]; [|apply sameShape_refl].
    fields.
    destruct (id_get (entities s) (c_id client)) as [entity|] eqn:He;
      unfold sameShape; fields; repeat split;
      try (apply tags_set; assumption).
    exact (id_keys_set_present _ _ _ He).
  - destruct (_ =? Protocol.MSG_SHOOT).
    + destruct (Protocol.decodeShoot buf); [|apply sameShape_refl].
      unfold sameShape; fields; repeat split. apply tags_set; assumption.
    + destruct (_ =? Protocol.MSG_TOGGLE_MODE); [|apply sameShape_refl].
      destruct (Protocol.decodeToggleMode buf); [|apply sameShape_refl].
      unfold sameShape; fields; repeat split. apply tags_set; assumption.
Qed.

Lemma open_preserves (ws now : Z) (r1 r2 : num) (s : ServerState) (prev : option ServerState) :
  id_has (clients s) ws = false -> WF s -> graceJustified s prev ->
  WF (open Math_sin ws now r1 r2 s) /\ graceJustified (open Math_sin ws now r1 r2 s) prev.
Proof.
  intros Hfresh W HJ. unfold open. cbn zeta.
  match goal with
  | |- WF (startGameLoop now ?x) /\ _ => set (s1 := x)
  end.
  assert (Hshape : sameShape s1 (startGameLoop now s1)).
  { unfold startGameLoop. destruct (running s1); repeat split. }
  enough (H : WF s1 /\ graceJustified s1 prev).
  { split; [exact (WF_shape Hshape (proj1 H))|exact (graceJustified_shape Hshape (proj2 H))]. }
  subst s1.
  assert (Hids : forall cid, In cid (clientIds (clients s)) -> cid < playerIdCounter s).
  { intros cid Hin. apply (wf_entity_ids W). exact (wf_client_entity W _ Hin). }
  split.
  - constructor; fields.
    + intros id Hin. apply (keys_set Z.eqb Zeqb_spec) in Hin. destruct Hin as [->|Hin]; [lia|].
      pose proof (wf_entity_ids W _ Hin). lia.
    + rewrite <- keys_of_tags. apply (NoDup_keys_set Z.eqb Zeqb_spec).
      rewrite keys_of_tags. exact (wf_client_keys W).
    + rewrite (@set_absent _ _ _ _ Hfresh). unfold clientIds. rewrite !map_app. cbn.
      apply NoDup_app.
      * exact (wf_client_ids W).
      * constructor; [intros []|constructor].
      * intros a Ha [<-|[]]. apply Hids in Ha. lia.
    + rewrite (@set_absent _ _ _ _ Hfresh). unfold clientIds. rewrite !map_app. cbn.
      intros cid Hin. apply (keys_set Z.eqb Zeqb_spec).
      apply in_app_iff in Hin. destruct Hin as [Hin|[<-|[]]]; [right|left; reflexivity].
      exact (wf_client_entity W _ Hin).
    + exact (wf_grace_keys W).
    + rewrite (@set_absent _ _ _ _ Hfresh). unfold clientIds. rewrite !map_app.
      intros cid gm Hin. apply in_app_iff. left. exact (wf_grace_client W _ _ Hin).
    + intros cid gm e t Hin Het. pose proof (wf_grace_entries W _ _ _ _ Hin Het). lia.
  - intros cid gm e t Hin Het Hk. fields.
    apply (keys_set Z.eqb Zeqb_spec) in Hk. destruct Hk as [->|Hk].
    + pose proof (wf_grace_entries W _ _ _ _ Hin Het). lia.
    + exact (HJ _ _ _ _ Hin Het Hk).
Qed.

Lemma close_preserves (ws : Z) (s : ServerState) (prev : option ServerState) :
  WF s -> graceJustified s prev ->
  WF (close ws s) /\ graceJustified (close ws s) prev.
Proof.
  intros W HJ. unfold close.
  destruct (id_get (clients s) ws) as [client|] eqn:Hc; [|split; assumption].
  cbn zeta.
  match goal with
  | |- WF (if _ then stopGameLoop ?x else ?x) /\ _ => set (s1 := x)
  end.
  assert (Hshape : sameShape s1 (if JsMap.size (clients s1) =? 0 then stopGameLoop s1 else s1)).
  { destruct (_ =? 0); [|apply sameShape_refl].
    unfold stopGameLoop. destruct (running s1); repeat split. }
  enough (H : WF s1 /\ graceJustified s1 prev).
  { split; [exact (WF_shape Hshape (proj1 H))|exact (graceJustified_shape Hshape (proj2 H))]. }
  subst s1.
  pose proof (get_Some_In Z.eqb Zeqb_spec _ _ Hc) as Hin_c.
  assert (Hkeys : NoDup (JsMap.keys (clients s))) by (rewrite keys_of_tags; exact (wf_client_keys W)).
  assert (Hother : forall ws' c', In (ws', c') (clients s) -> ws' <> ws -> c_id c' <> c_id client).
  { intros ws' c' Hin Hne Heq.
    assert (Heq' : (ws', c') = (ws, client)).
    { apply (NoDup_map_In_inj (fun entry : Z * ClientConnection => c_id (snd entry)) (clients s));
        try assumption.
      pose proof (wf_client_ids W) as Hnd. unfold clientIds in Hnd. rewrite map_map in Hnd.
      exact Hnd. }
    inversion Heq'. contradiction. }
  assert (Hsame : forall c', In (ws, c') (clients s) -> c' = client).
  { intros c' Hin. pose proof (In_get_NoDup Z.eqb Zeqb_spec _ _ _ Hkeys Hin) as Hg.
    unfold id_get in Hc. rewrite Hc in Hg. inversion Hg. reflexivity. }
  split.
  - constructor; fields.
    + intros id Hin. apply (keys_delete Z.eqb Zeqb_spec) in Hin.
      exact (wf_entity_ids W _ (proj2 Hin)).
    + rewrite <- keys_of_tags. apply (NoDup_keys_delete Z.eqb Zeqb_spec). exact Hkeys.
    + unfold clientIds, id_delete, JsMap.delete. rewrite map_map.
      apply NoDup_map_filter.
      pose proof (wf_client_ids W) as Hnd. unfold clientIds in Hnd. rewrite map_map in Hnd.
      exact Hnd.
    + intros cid Hin. destruct (client_of_id _ _ Hin) as (ws' & c' & Hin' & Hid).
      apply (In_delete Z.eqb Zeqb_spec) in Hin'. destruct Hin' as [Hin' Hne]. cbn in Hne.
      apply (keys_delete Z.eqb Zeqb_spec). subst cid. split.
      * exact (Hother _ _ Hin' Hne).
      * apply (wf_client_entity W). exact (id_of_client _ _ _ Hin').
    + apply (NoDup_keys_delete Z.eqb Zeqb_spec). exact (wf_grace_keys W).
    + intros cid gm Hin. apply (In_delete Z.eqb Zeqb_spec) in Hin.
      destruct Hin as [Hin Hne]. cbn in Hne.
      destruct (client_of_id _ _ (wf_grace_client W _ _ Hin)) as (ws' & c' & Hin' & Hid).
      subst cid. apply (id_of_client _ ws').
      unfold id_delete, JsMap.delete. apply filter_In. split; [exact Hin'|].
      cbn. apply negb_true_iff, Z.eqb_neq. intros Heq. subst ws'.
      apply Hne. rewrite (Hsame _ Hin'). reflexivity.
    + intros cid gm e t Hin Het. apply (In_delete Z.eqb Zeqb_spec) in Hin.
      exact (wf_grace_entries W _ _ _ _ (proj1 Hin) Het).
  - intros cid gm e t Hin Het Hk. fields.
    apply (In_delete Z.eqb Zeqb_spec) in Hin.
    apply (keys_delete Z.eqb Zeqb_spec) in Hk.
    exact (HJ _ _ _ _ (proj1 Hin) Het (proj2 Hk)).
Qed.

(** ** Runs *)

(** [history s prev]: the server can be in state [s], and [prev] is the
    state in which the frames of the latest tick were built (the state
    after the movement and bullet phases of that tick), if there was a
    tick. *)
Inductive history : ServerState -> option ServerState -> Prop :=
| hist_init (terrain : list Obstacle) (rnd : randoms) (seed loadTime : Z) :
    history (initializeWorld terrain rnd seed loadTime) None
| hist_socket (s : ServerState) (prev : option ServerState) (ev : Event) :
    history s prev -> isTick ev = false -> history (step s ev) prev
| hist_tick (s : ServerState) (prev : option ServerState) (now : Z) (rnd : randoms) :
    history s prev -> running s = true ->
    history (step s (Tick now rnd)) (Some (beforeBroadcast now rnd s)).

Lemma createBots_keys (count : nat) (rnd : randoms) (id : Z) :
  In id (JsMap.keys (Bots.createBots Math_sin count rnd)) -> 0 <= id < Z.of_nat count.
Proof.
  unfold Bots.createBots, JsMap.keys. rewrite map_map. cbn [fst].
  intros H. apply in_map_iff in H. destruct H as [i [Hi Hin]]. apply in_seq in Hin. lia.
Qed.

Lemma initializeWorld_WF (terrain : list Obstacle) (rnd : randoms) (seed loadTime : Z) :
  WF (initializeWorld terrain rnd seed loadTime).
Proof.
  unfold Index.initializeWorld. constructor; fields; cbn [map clientIds];
    try constructor; try (intros; contradiction).
  intros id Hin. apply createBots_keys in Hin. unfold BOTS_COUNT in Hin. lia.
Qed.

Lemma history_inv (s : ServerState) (prev : option ServerState) :
  history s prev -> WF s /\ graceJustified s prev.
Proof.
  induction 1 as [terrain rnd seed loadTime|s prev ev Hh [W HJ] Hev|s prev now rnd Hh [W HJ] Hrun].
  - split; [apply initializeWorld_WF|]. intros cid gm e t [].
  - destruct ev as [ws now r1 r2|ws buf|ws|now rnd]; cbn [Index.step]; [| | |discriminate].
    + destruct (id_has (clients s) ws) eqn:Hfresh; [split; assumption|].
      exact (open_preserves ws now r1 r2 Hfresh W HJ).
    + pose proof (message_shape ws buf W) as Hs.
      split; [exact (WF_shape Hs W)|exact (graceJustified_shape Hs HJ)].
    + exact (close_preserves ws W HJ).
  - cbn [Index.step]. rewrite Hrun. unfold Index.gameTick.
    assert (WB : WF (beforeBroadcast now rnd s)).
    { apply (WF_shape (s := s)); [|exact W]. apply beforeBroadcast_shape.
      rewrite keys_of_tags. exact (wf_client_keys W). }
    destruct (broadcast_preserves WB) as (W' & HJ' & _). split; assumption.
Qed.

Lemma gameTick_eq (now : Z) (rnd : randoms) (s : ServerState) :
  gameTick now rnd s = broadcast (beforeBroadcast now rnd s).
Proof. reflexivity. Qed.

(** The frames built in a state [B] that has the shape of [s]. *)
Lemma frames_justified (s B : ServerState) (prev : option ServerState)
  (ws : Z) (upd : Protocol.Update) (u : Protocol.EntityUpdate) :
  WF s -> graceJustified s prev -> sameShape s B ->
  In (ws, upd) (snd (broadcast B)) ->
  In u (Protocol.upd_entities upd) ->
  exists client viewer id e,
    In (ws, client) (clients B) /\
    id_get (entities B) (c_id client) = Some viewer /\
    id_get (entities B) id = Some e /\
    u = entityUpdate e /\
    (inView B client viewer id \/ seenBefore prev (c_id client) id).
Proof.
  intros W HJ Hshape Hsent Hu.
  assert (WB : WF B) by exact (WF_shape Hshape W).
  destruct (@broadcast_frames _ _ _ _ WB Hsent Hu)
    as (client & viewer & id & e & Hc & Hv & He & Hue & Hcase).
  exists client, viewer, id, e. repeat split; try assumption.
  destruct Hcase as [Hnow|[t Hgrace]]; [left; exact Hnow|right].
  destruct (@graceOf_entries _ _ _ _ WB Hgrace) as (Hin & _).
  destruct Hshape as (Hk & _ & Hrve & _).
  rewrite Hrve in Hin, Hgrace.
  apply (HJ _ _ _ _ Hin Hgrace). rewrite <- Hk.
  exact (get_Some_keys Z.eqb Zeqb_spec _ _ He).
Qed.

(* The automatic detection of implicit arguments normalises the hypotheses
   of a statement; it is switched off where they run the whole tick. *)
Unset Implicit Arguments.

(** X1 (C1 as the code has it).  Whenever a tick sends a frame to a client,
    every entity update in the frame is that of an entity of the table which
    either is in view of the client in this tick (it is another entity, not
    farther than the view distance, and [canSeeEntity] accepts it or the
    client is in classical mode), or was in view of the same client, in that
    same sense and with the positions and the mode of that moment, in the
    previous tick.  The state of each tick is the one its frames are built
    from. *)
Theorem frame_entity_in_view_now_or_in_previous_tick
  (s : ServerState) (prev : option ServerState) (now : Z) (rnd : randoms)
  (ws : Z) (upd : Protocol.Update) (u : Protocol.EntityUpdate) :
  history s prev ->
  In (ws, upd) (snd (gameTick now rnd s)) ->
  In u (Protocol.upd_entities upd) ->
  exists client viewer id e,
    In (ws, client) (clients (beforeBroadcast now rnd s)) /\
    id_get (entities (beforeBroadcast now rnd s)) (c_id client) = Some viewer /\
    id_get (entities (beforeBroadcast now rnd s)) id = Some e /\
    u = entityUpdate e /\
    (inView (beforeBroadcast now rnd s) client viewer id \/
     seenBefore prev (c_id client) id).
Proof.
  intros Hh Hsent Hu. destruct (history_inv Hh) as [W HJ].
  rewrite gameTick_eq in Hsent.
  apply (@frames_justified s (beforeBroadcast now rnd s) prev ws upd u W HJ); try assumption.
  apply beforeBroadcast_shape. rewrite keys_of_tags. exact (wf_client_keys W).
Qed.

Set Implicit Arguments.

End History.

Section GraceExamples.
Import Spatial Los Index Scenario.

(** The first tick of [Scenario.bootOpened]: the first entity of the frame
    sent to socket 7 is in view of the player in that tick. *)
Lemma frame_entity_witness :
  let s := bootOpened in
  let frames := snd (gameTick sinTaylor cosTaylor 33 half s) in
  let upd := snd (hd (0%Z, Protocol.mkUpdate (V3 0 0 0) [] [] []
                             (Protocol.mkStats 0 0 0 #0 #0 #0 0 Protocol.classical 0)) frames) in
  let u := hd (entityUpdate (bot 0 (V3 0 0 0))) (Protocol.upd_entities upd) in
  exists client viewer id e,
    In (7%Z, client) (clients (beforeBroadcast sinTaylor cosTaylor 33 half s)) /\
    id_get (entities (beforeBroadcast sinTaylor cosTaylor 33 half s)) (c_id client) = Some viewer /\
    id_get (entities (beforeBroadcast sinTaylor cosTaylor 33 half s)) id = Some e /\
    u = entityUpdate e /\
    (inView (beforeBroadcast sinTaylor cosTaylor 33 half s) client viewer id \/
     seenBefore None (c_id client) id).
Proof.
  intros s frames upd u.
  apply (@frame_entity_in_view_now_or_in_previous_tick sinTaylor cosTaylor
           s None 33%Z half 7%Z upd u).
  - exact (@hist_socket sinTaylor cosTaylor _ _ (Open 7 0 #0.5 #0.5)
             (@hist_init sinTaylor cosTaylor [] half 1 0) eq_refl).
  - vm_compute. left. reflexivity.
  - vm_compute. left. reflexivity.
Defined.

(** C1 as the claim has it fails.  In [Scenario.wallWorld] the bot stands
    behind the wall for the player throughout.  The first tick, in classical
    mode, sends it; the client then switches to line-of-sight mode; the
    second tick sends the bot once more, from the grace map, although
    [canSeeEntity] rejects it in the second tick, rejected it in the first,
    and the client is in line-of-sight mode. *)
Lemma grace_after_mode_switch_counterexample :
  sentIds (snd wallTick1) 7 = [1%Z] /\
  sentIds (snd wallTick2) 7 = [1%Z] /\
  canSeeIn (beforeBroadcast sinTaylor cosTaylor 66 half wallToggled) 1000 1 = Some false /\
  canSeeIn (beforeBroadcast sinTaylor cosTaylor 33 half wallWorld) 1000 1 = Some false /\
  map (fun entry : Z * ClientConnection => losMode (snd entry))
      (clients (beforeBroadcast sinTaylor cosTaylor 66 half wallToggled)) = [true].
Proof. vm_compute. repeat split; reflexivity. Qed.

End GraceExamples.

(** ** More worlds for the examples *)

Module Examples.
Import Index Scenario.
(** A player alone: the player 1000 (socket 7) stands at the origin and
    looks at the ground; its client has sent SHOOT = 1 and has not fired
    yet.  The last tick was at 1000 ms. *)
Definition gunner : Entity :=
  mkEntity 1000 (V3 0 2 0) (V3 0 0 0) (#0)%num (#(-1.5))%num true 100 100.
Definition gunWorld : ServerState :=
  message 7 [Protocol.MSG_SHOOT; 1] (world [] [(1000, gunner)] [(7, client 1000)] 1000).
End Examples.

(** ** The fire-rate gate *)

Section FireRate.
Import Spatial Los Index.
Open Scope Z_scope.
Variables Math_sin Math_cos : num -> num.

(** What the spawning loop does to one entry of [clients]. *)
Definition gateEntry (now : Z) (entry : Z * ClientConnection) : Z * ClientConnection :=
  (fst entry, if mayFire now (snd entry) then setLastShotTime (snd entry) now else snd entry).

(** Owner and creation time of a bullet. *)
Definition ownerTime (b : Bullet) : Z * Z := (ownerId b, createdAt b).

Lemma id_set_mid {V : Type} (l1 l2 : idmap V) (k : Z) (v v' : V) :
  ~ In k (JsMap.keys l1) -> id_set (l1 ++ (k, v) :: l2) k v' = l1 ++ (k, v') :: l2.
Proof.
  unfold id_set. induction l1 as [|[k0 v0] rest IH]; cbn; intros Hn.
  - rewrite Z.eqb_refl. reflexivity.
  - destruct (k0 =? k) eqn:E.
    + apply Z.eqb_eq in E. exfalso. apply Hn. left. exact E.
    + f_equal. apply IH. intros H. apply Hn. right. exact H.
Qed.

Lemma keys_gateEntry (now : Z) (l : idmap ClientConnection) :
  JsMap.keys (map (gateEntry now) l) = JsMap.keys l.
Proof. unfold JsMap.keys. rewrite map_map. reflexivity. Qed.

Lemma spawn_loop (now : Z) (l2 : idmap ClientConnection) :
  forall (l1 : idmap ClientConnection) (s : ServerState),
    clients s = map (gateEntry now) l1 ++ l2 ->
    NoDup (JsMap.keys (l1 ++ l2)) ->
    (forall entry, In entry l2 -> id_has (entities s) (c_id (snd entry)) = true) ->
    let s' := fold_left (spawnFor Math_sin Math_cos now) l2 s in
    clients s' = map (gateEntry now) (l1 ++ l2) /\
    map ownerTime (bullets s') =
      map ownerTime (bullets s) ++
      map (fun entry => (c_id (snd entry), now)) (filter (fun entry => mayFire now (snd entry)) l2) /\
    bulletIdCounter s' =
      bulletIdCounter s + Z.of_nat (List.length (filter (fun entry => mayFire now (snd entry)) l2)) /\
    entities s' = entities s /\ gstate s' = gstate s /\
    recentlyVisibleEntities s' = recentlyVisibleEntities s /\
    playerIdCounter s' = playerIdCounter s /\ running s' = running s /\
    tickHitEvents s' = tickHitEvents s /\ lastTime s' = lastTime s /\
    rngState s' = rngState s /\ obstacles s' = obstacles s /\ currentStats s' = currentStats s.
Proof.
  induction l2 as [|[ws client] rest IH]; intros l1 s Hcl Hnd Hent; cbn [fold_left].
  - cbn. rewrite !app_nil_r in *. rewrite Z.add_0_r. repeat split; try reflexivity. exact Hcl.
  - assert (Hstep : exists s1,
               spawnFor Math_sin Math_cos now s (ws, client) = s1 /\
               clients s1 = map (gateEntry now) (l1 ++ [(ws, client)]) ++ rest /\
               map ownerTime (bullets s1) =
                 map ownerTime (bullets s) ++ (if mayFire now client then [(c_id client, now)] else []) /\
               bulletIdCounter s1 = bulletIdCounter s + (if mayFire now client then 1 else 0) /\
               entities s1 = entities s /\ gstate s1 = gstate s /\
               recentlyVisibleEntities s1 = recentlyVisibleEntities s /\
               playerIdCounter s1 = playerIdCounter s /\ running s1 = running s /\
               tickHitEvents s1 = tickHitEvents s /\ lastTime s1 = lastTime s /\
               rngState s1 = rngState s /\ obstacles s1 = obstacles s /\
               currentStats s1 = currentStats s).
    { eexists. split; [reflexivity|]. unfold spawnFor.
      rewrite map_app, <- app_assoc. cbn [map List.app]. unfold gateEntry at 2. cbn [fst snd].
      destruct (mayFire now client) eqn:Hf.
      - destruct (has_true_get _ _ (Hent (ws, client) (or_introl eq_refl))) as [entity He].
        cbn [snd] in He. rewrite He. fields.
        rewrite Hcl. rewrite id_set_mid.
        + rewrite map_app. cbn. repeat split; reflexivity.
        + rewrite keys_gateEntry. unfold JsMap.keys in Hnd. rewrite map_app in Hnd.
          apply NoDup_remove_2 in Hnd. intros Hin. apply Hnd. apply in_or_app. left. exact Hin.
      - rewrite app_nil_r, Z.add_0_r. repeat split; try reflexivity. exact Hcl. }
    destruct Hstep as (s1 & -> & H1 & H2 & H3 & H4 & H5 & H6 & H7 & H8 & H9 & H10 & H11 & H12 & H13).
    specialize (IH (l1 ++ [(ws, client)]) s1 H1).
    rewrite <- app_assoc in IH. cbn [List.app] in IH.
    destruct IH as (I1 & I2 & I3 & I4 & I5 & I6 & I7 & I8 & I9 & I10 & I11 & I12 & I13);
      [exact Hnd|intros entry Hin; rewrite H4; apply Hent; right; exact Hin|].
    cbn [filter snd].
    split; [exact I1|].
    split; [rewrite I2, H2; destruct (mayFire now client); cbn; rewrite <- ?app_assoc; reflexivity|].
    split; [rewrite I3, H3; destruct (mayFire now client); cbn [List.length]; lia|].
    repeat split; congruence.
Qed.

Lemma bulletsSpawn_spec (now : Z) (s : ServerState) :
  WF s ->
  clients (bulletsSpawn Math_sin Math_cos now s) = map (gateEntry now) (clients s) /\
  map ownerTime (bullets (bulletsSpawn Math_sin Math_cos now s)) =
    map ownerTime (bullets s) ++
    map (fun entry => (c_id (snd entry), now))
        (filter (fun entry => mayFire now (snd entry)) (clients s)) /\
  bulletIdCounter (bulletsSpawn Math_sin Math_cos now s) =
    bulletIdCounter s
    + Z.of_nat (List.length (filter (fun entry => mayFire now (snd entry)) (clients s))) /\
  running (bulletsSpawn Math_sin Math_cos now s) = running s.
Proof.
  intros W. unfold bulletsSpawn.
  pose proof (@spawn_loop now (clients s) [] s eq_refl) as H. cbn [List.app] in H.
  destruct H as (H1 & H2 & H3 & _ & _ & _ & _ & H4 & _).
  - pose proof (wf_client_keys W) as Hnd. rewrite map_map in Hnd. exact Hnd.
  - intros entry Hin. apply in_keys_has. apply (wf_client_entity W).
    unfold clientIds. rewrite map_map. apply (in_map (fun e => snd (clientTag e))) in Hin. exact Hin.
  - auto.
Qed.

(** The clients that fire at [now]. *)
Definition firing (now : Z) (l : idmap ClientConnection) : idmap ClientConnection :=
  filter (fun entry => mayFire now (snd entry)) l.

Lemma broadcast_keeps (B : ServerState) :
  WF B ->
  clients (fst (broadcast B)) = clients B /\
  bulletIdCounter (fst (broadcast B)) = bulletIdCounter B.
Proof.
  intros W. unfold broadcast.
  pose proof (@broadcast_loop B (clients B) (recentlyVisibleEntities B) []
                (wf_client_entity W) (wf_client_ids W)) as H.
  rewrite with_grace_same in H. cbn zeta in H. destruct H as (I1 & _).
  rewrite I1. split; reflexivity.
Qed.

Lemma beforeBroadcast_fire (now : Z) (rnd : randoms) (s : ServerState) :
  WF s ->
  clients (beforeBroadcast Math_sin Math_cos now rnd s) = map (gateEntry now) (clients s) /\
  bulletIdCounter (beforeBroadcast Math_sin Math_cos now rnd s) =
    bulletIdCounter s + Z.of_nat (List.length (firing now (clients s))) /\
  running (beforeBroadcast Math_sin Math_cos now rnd s) = running s.
Proof.
  intros W. unfold beforeBroadcast. cbn zeta.
  set (dt := (ofZ (now - lastTime s) / #1000)%num).
  set (s1 := with_lastTime s now).
  set (s2 := botsUpdate Math_sin Math_cos dt s1).
  set (s3 := botsGridUpdate s2).
  set (s4 := playersUpdate Math_sin dt s3).
  set (s5 := with_hits s4 []).
  assert (H1 : sameShape s s1) by (repeat split).
  assert (H2 : sameShape s1 s2) by apply botsUpdate_shape.
  assert (H3 : sameShape s2 s3) by apply botsGridUpdate_shape.
  assert (H4 : sameShape s3 s4) by apply playersUpdate_shape.
  assert (H5 : sameShape s4 s5) by (repeat split).
  assert (H15 : sameShape s s5) by (eauto using sameShape_trans).
  pose proof (bulletsSpawn_spec now (WF_shape H15 W)) as (Hc & _ & Hn & Hr).
  unfold bulletsUpdate. fields. rewrite Hc, Hn, Hr. repeat split; reflexivity.
Qed.

Lemma gameTick_fire (now : Z) (rnd : randoms) (s : ServerState) :
  WF s ->
  WF (fst (gameTick Math_sin Math_cos now rnd s)) /\
  running (fst (gameTick Math_sin Math_cos now rnd s)) = running s /\
  clients (fst (gameTick Math_sin Math_cos now rnd s)) = map (gateEntry now) (clients s) /\
  bulletIdCounter (fst (gameTick Math_sin Math_cos now rnd s)) =
    bulletIdCounter s + Z.of_nat (List.length (firing now (clients s))).
Proof.
  intros W. unfold gameTick.
  assert (WB : WF (beforeBroadcast Math_sin Math_cos now rnd s)).
  { apply (WF_shape (s := s)); [|exact W]. apply beforeBroadcast_shape.
    rewrite keys_of_tags. exact (wf_client_keys W). }
  destruct (beforeBroadcast_fire now rnd W) as (Hc & Hn & Hrun).
  destruct (broadcast_keeps WB) as [Kc Kn].
  destruct (broadcast_preserves WB) as (W' & _ & _ & Hr).
  split; [exact W'|]. split.
  - congruence.
  - split; congruence.
Qed.



(** The interval timer firing at the given times. *)
Definition ticking (ticks : list (Z * randoms)) : list Event :=
  map (fun t => Tick (fst t) (snd t)) ticks.















End FireRate.

Section FireRateTheorem.
Import Spatial Los Index.
Open Scope Z_scope.
Variables Math_sin Math_cos : num -> num.

(** The timer firing at the given times, every call of [Math.random()]
    returning 0.5. *)
Definition atTimes (times : list Z) : list (Z * randoms) :=
  map (fun t => (t, Scenario.half)) times.


End FireRateTheorem.

Section FireExamples.
Import Spatial Los Index Scenario Examples.
Open Scope Z_scope.

Lemma gunWorld_WF : WF gunWorld.
Proof.
  assert (Ek : JsMap.keys (entities gunWorld) = [1000]) by (vm_compute; reflexivity).
  assert (Ec : map clientTag (clients gunWorld) = [(7, 1000)]) by (vm_compute; reflexivity).
  assert (Eg : recentlyVisibleEntities gunWorld = []) by (vm_compute; reflexivity).
  assert (Ep : playerIdCounter gunWorld = 1001) by (vm_compute; reflexivity).
  constructor; unfold clientIds; rewrite ?Ek, ?Ec, ?Eg, ?Ep; cbn [map fst snd JsMap.keys].
  - intros id [<-|[]]. lia.
  - repeat constructor. intros [].
  - repeat constructor. intros [].
  - intros cid H. exact H.
  - constructor.
  - intros cid gm [].
  - intros cid gm e t [].
Qed.


(** The count depends on the tick times: the 31 ticks from 1000 ms to
    2000 ms at 30 Hz spawn six bullets, four ticks 300 ms apart spawn four. *)
Lemma held_trigger_counts :
  bulletIdCounter gunWorld = 0 /\
  map (fun entry => (shooting (snd entry), lastShotTime (snd entry))) (clients gunWorld)
    = [(true, 0)] /\
  bulletIdCounter
    (run sinTaylor cosTaylor
       (ticking (atTimes (map (fun k => 1000 + 1000 * Z.of_nat k / TICK_RATE) (seq 0 31))))
       gunWorld) = 6 /\
  bulletIdCounter
    (run sinTaylor cosTaylor (ticking (atTimes [1000; 1300; 1600; 1900])) gunWorld) = 4.
Proof. vm_compute. repeat split; reflexivity. Qed.

End FireExamples.

(** ** Decoding what [encodeUpdate] wrote *)

Section RoundTrip.
Import Protocol.
Open Scope Z_scope.

(** What the client reads of each part of an UPDATE: numbers rounded to
    binary32, integers reduced to their field, the id as a decimal string
    and a display name beside it. *)
Definition froundVector3 (p : Vector3) : Vector3 :=
  mkVector3 (fround (vx p)) (fround (vy p)) (fround (vz p)).

Definition receivedEntity (e : EntityUpdate) : ClientEntity :=
  let numericId := u_id e mod 2 ^ 32 in
  mkClientEntity
    (uint_toString numericId)
    ((if u_isPlayer e then "Player " else "Bot ") ++ uint_toString numericId)%string
    (froundVector3 (u_position e)) (fround (u_rotation e)) (fround (u_pitch e))
    (u_hp e mod 2 ^ 16) (u_maxHp e mod 2 ^ 16) (u_isPlayer e).

Definition receivedHit (h : HitUpdate) : HitUpdate :=
  mkHitUpdate (froundVector3 (hu_position h)) (hu_hitEntity h).

Definition receivedStats (st : Stats) : ClientStats :=
  mkClientStats (totalEntities st mod 2 ^ 32) (totalObstacles st mod 2 ^ 32)
    (connectedPlayers st mod 2 ^ 16)
    (fround (tickTimeMsPerSec st)) (fround (losTimeMsPerSec st)) (fround (tickTimeMsAvg st))
    (visibleEntities st mod 2 ^ 16) (serverMode st) (tickRate st mod 2 ^ 8).

Definition received (u : Update) : DecodedUpdate :=
  mkDecoded (froundVector3 (myPosition u)) (map receivedEntity (upd_entities u))
    (map froundVector3 (upd_bullets u)) (map receivedHit (upd_hits u))
    (receivedStats (upd_stats u)).

Lemma le16 (v : Z) : v mod 256 + 256 * ((v / 256) mod 256) = v mod 2 ^ 16.
Proof. change (2 ^ 16) with (256 * 256). rewrite Z.rem_mul_r by lia. reflexivity. Qed.

Lemma le32 (v : Z) :
  v mod 256 + 256 * ((v / 256) mod 256) + 65536 * ((v / 65536) mod 256)
  + 16777216 * ((v / 16777216) mod 256) = v mod 2 ^ 32.
Proof.
  change (2 ^ 32) with (256 * (256 * (256 * 256))).
  rewrite (Z.rem_mul_r v 256) by lia.
  rewrite (Z.rem_mul_r (v / 256) 256) by lia.
  rewrite (Z.rem_mul_r (v / 256 / 256) 256) by lia.
  rewrite !Z.div_div by lia.
  change (256 * 256) with 65536. change (65536 * 256) with 16777216. lia.
Qed.

Lemma skipn_plus (off k : nat) (buf : buffer) : skipn (off + k) buf = skipn k (skipn off buf).
Proof. rewrite skipn_skipn. f_equal. lia. Qed.

Lemma getUint8_at (buf rest : buffer) (off : nat) (v : Z) :
  skipn off buf = setUint8 v ++ rest ->
  getUint8 buf off = Some (v mod 2 ^ 8) /\ skipn (off + 1) buf = rest.
Proof.
  intros H. unfold getUint8. rewrite skipn_plus, H. split; reflexivity.
Qed.

Lemma getUint16_at (buf rest : buffer) (off : nat) (v : Z) :
  skipn off buf = setUint16 v ++ rest ->
  getUint16 buf off = Some (v mod 2 ^ 16) /\ skipn (off + 2) buf = rest.
Proof.
  intros H. unfold getUint16. rewrite skipn_plus, H. unfold setUint16. cbn [List.app skipn].
  rewrite le16. split; reflexivity.
Qed.

Lemma getUint32_at (buf rest : buffer) (off : nat) (v : Z) :
  skipn off buf = setUint32 v ++ rest ->
  getUint32 buf off = Some (v mod 2 ^ 32) /\ skipn (off + 4) buf = rest.
Proof.
  intros H. unfold getUint32. rewrite skipn_plus, H. unfold setUint32. cbn [List.app skipn].
  rewrite le32. split; reflexivity.
Qed.

Lemma getFloat32_at (buf rest : buffer) (off : nat) (x : num) :
  skipn off buf = setFloat32 x ++ rest ->
  getFloat32 buf off = Some (fround x) /\ skipn (off + 4) buf = rest.
Proof.
  intros H. unfold getFloat32. destruct (@getUint32_at _ _ _ _ H) as [-> E].
  split; [reflexivity|exact E].
Qed.

Lemma getVector3_at (buf rest : buffer) (off : nat) (p : Vector3) :
  skipn off buf = setVector3 p ++ rest ->
  getVector3 buf off = Some (froundVector3 p) /\ skipn (off + 12) buf = rest.
Proof.
  intros H. unfold setVector3 in H. rewrite <- !app_assoc in H.
  destruct (@getFloat32_at _ _ _ _ H) as [Hx H1].
  destruct (@getFloat32_at _ _ _ _ H1) as [Hy H2].
  destruct (@getFloat32_at _ _ _ _ H2) as [Hz H3].
  unfold getVector3. rewrite Hx, Hy.
  replace (off + 8)%nat with (off + 4 + 4)%nat by lia. rewrite Hz.
  split; [reflexivity|]. rewrite <- H3. f_equal. lia.
Qed.

Ltac offsets H := repeat rewrite <- Nat.add_assoc in H; cbn [Nat.add] in H.

Lemma decodeEntity_at (buf rest : buffer) (off : nat) (e : EntityUpdate) :
  skipn off buf = encodeEntity e ++ rest ->
  decodeEntity buf off = Some (receivedEntity e) /\ skipn (off + 29) buf = rest.
Proof.
  intros H. unfold encodeEntity in H. rewrite <- !app_assoc in H.
  destruct (@getUint32_at _ _ _ _ H) as [Hid H1].
  destruct (@getVector3_at _ _ _ _ H1) as [Hpos H2]. offsets H2.
  destruct (@getFloat32_at _ _ _ _ H2) as [Hrot H3]. offsets H3.
  destruct (@getFloat32_at _ _ _ _ H3) as [Hpitch H4]. offsets H4.
  destruct (@getUint16_at _ _ _ _ H4) as [Hhp H5]. offsets H5.
  destruct (@getUint16_at _ _ _ _ H5) as [Hmax H6]. offsets H6.
  destruct (@getUint8_at _ _ _ _ H6) as [Hflags H7]. offsets H7.
  unfold decodeEntity. rewrite Hid, Hflags, Hpos, Hrot, Hpitch, Hhp, Hmax.
  split; [|exact H7]. unfold receivedEntity. cbn zeta.
  destruct (u_isPlayer e); reflexivity.
Qed.

Lemma decodeHit_at (buf rest : buffer) (off : nat) (h : HitUpdate) :
  skipn off buf = encodeHit h ++ rest ->
  decodeHit buf off = Some (receivedHit h) /\ skipn (off + 13) buf = rest.
Proof.
  intros H. unfold encodeHit in H. rewrite <- !app_assoc in H.
  destruct (@getVector3_at _ _ _ _ H) as [Hpos H1].
  destruct (@getUint8_at _ _ _ _ H1) as [Hb H2]. offsets H2.
  unfold decodeHit. rewrite Hpos, Hb. split; [|exact H2].
  unfold receivedHit. destruct h as [p []]; reflexivity.
Qed.

Lemma decodeStats_at (buf : buffer) (off : nat) (st : Stats) :
  skipn off buf = encodeStats st ->
  decodeStats buf off = Some (receivedStats st).
Proof.
  intros H. unfold encodeStats in H.
  destruct (@getUint32_at _ _ _ _ H) as [F1 H1].
  destruct (@getUint32_at _ _ _ _ H1) as [F2 H2]. offsets H2.
  destruct (@getUint16_at _ _ _ _ H2) as [F3 H3]. offsets H3.
  destruct (@getFloat32_at _ _ _ _ H3) as [F4 H4]. offsets H4.
  destruct (@getFloat32_at _ _ _ _ H4) as [F5 H5]. offsets H5.
  destruct (@getFloat32_at _ _ _ _ H5) as [F6 H6]. offsets H6.
  destruct (@getUint16_at _ _ _ _ H6) as [F7 H7]. offsets H7.
  destruct (@getUint8_at _ _ _ _ H7) as [F8 H8]. offsets H8.
  destruct (@getUint8_at _ _ _ _ H8) as [F9 _].
  unfold decodeStats. rewrite F1, F2, F3, F4, F5, F6, F7, F8, F9.
  unfold receivedStats. destruct (serverMode st); reflexivity.
Qed.

Lemma decodeMany_at {A B : Type} (enc : A -> buffer) (one : buffer -> nat -> option B)
  (recv : A -> B) (size : nat) (buf rest : buffer) :
  (forall off a rest', skipn off buf = enc a ++ rest' ->
                       one buf off = Some (recv a) /\ skipn (off + size) buf = rest') ->
  forall (l : list A) (off : nat),
    skipn off buf = flat_map enc l ++ rest ->
    decodeMany one size buf off (List.length l) = Some (map recv l) /\
    skipn (off + size * List.length l) buf = rest.
Proof.
  intros Hone. induction l as [|a l IH]; intros off H; cbn [List.length decodeMany map].
  - split; [reflexivity|]. rewrite Nat.mul_0_r, Nat.add_0_r. exact H.
  - cbn [flat_map] in H. rewrite <- app_assoc in H.
    destruct (Hone _ _ _ H) as [-> H1]. destruct (IH _ H1) as [-> H2].
    split; [reflexivity|]. rewrite <- H2. f_equal. lia.
Qed.

Lemma count_read (n : nat) : Z.of_nat n < 2 ^ 16 -> Z.to_nat (Z.of_nat n mod 2 ^ 16) = n.
Proof. intros H. rewrite Z.mod_small by lia. apply Nat2Z.id. Qed.

(** X4.  When each of the three lists is shorter than 65536, [decodeUpdate]
    of the client succeeds on what [encodeUpdate] wrote and yields the
    message as the wire formats keep it: every number rounded to binary32,
    every integer reduced modulo its field width, each entity id as a
    decimal string with the display name beside it, the lists in order and
    of the same lengths, the flags and the server mode unchanged. *)
Theorem decodeUpdate_encodeUpdate (u : Update) :
  Z.of_nat (List.length (upd_entities u)) < 2 ^ 16 ->
  Z.of_nat (List.length (upd_bullets u)) < 2 ^ 16 ->
  Z.of_nat (List.length (upd_hits u)) < 2 ^ 16 ->
  decodeUpdate (encodeUpdate (myPosition u) (upd_entities u) (upd_bullets u) (upd_hits u)
                             (upd_stats u))
  = Some (received u).
Proof.
  intros He Hb Hh.
  set (buf := encodeUpdate _ _ _ _ _).
  assert (H0 : skipn 0 buf = buf) by reflexivity.
  unfold buf at 2 in H0. unfold encodeUpdate in H0.
  destruct (@getUint8_at _ _ _ _ H0) as [_ H1]. cbn [Nat.add] in H1.
  destruct (@getVector3_at _ _ _ _ H1) as [Fpos H2]. cbn [Nat.add] in H2.
  destruct (@getUint16_at _ _ _ _ H2) as [Fec H3]. cbn [Nat.add] in H3.
  destruct (@decodeMany_at _ _ encodeEntity decodeEntity receivedEntity 29 buf _
              (fun off a rest' => @decodeEntity_at buf rest' off a) _ _ H3) as [Fe H4].
  destruct (@getUint16_at _ _ _ _ H4) as [Fbc H5].
  destruct (@decodeMany_at _ _ setVector3 getVector3 froundVector3 12 buf _
              (fun off a rest' => @getVector3_at buf rest' off a) _ _ H5) as [Fb H6].
  destruct (@getUint16_at _ _ _ _ H6) as [Fhc H7].
  destruct (@decodeMany_at _ _ encodeHit decodeHit receivedHit 13 buf _
              (fun off a rest' => @decodeHit_at buf rest' off a) _ _ H7) as [Fh H8].
  pose proof (@decodeStats_at _ _ _ H8) as Fs.
  unfold decodeUpdate. cbn zeta.
  change (1 + 12 + 2)%nat with 15%nat. change (1 + 12)%nat with 13%nat.
  rewrite Fpos, Fec. rewrite (@count_read _ He), Fe.
  rewrite Fbc. rewrite (@count_read _ Hb), Fb.
  rewrite Fhc. rewrite (@count_read _ Hh), Fh.
  rewrite Fs. reflexivity.
Qed.

(** X5.  The buffer of [encodeUpdate] has the [totalSize] the source
    allocates, 15 + 29 e + 2 + 12 b + 2 + 13 h + 28 bytes for e entities,
    b bullets and h hits, and each of its bytes is in [0, 256). *)
Theorem encodeUpdate_size (p : Vector3) (entities : list EntityUpdate)
  (bullets : list Vector3) (hits : list HitUpdate) (stats : Stats) :
  List.length (encodeUpdate p entities bullets hits stats) =
    (15 + 29 * List.length entities + 2 + 12 * List.length bullets + 2
     + 13 * List.length hits + 28)%nat /\
  Forall (fun b => 0 <= b < 256) (encodeUpdate p entities bullets hits stats).
Proof.
  assert (Hlen : forall (A : Type) (f : A -> buffer) (n : nat) (l : list A),
             (forall a, List.length (f a) = n) ->
             List.length (flat_map f l) = (n * List.length l)%nat).
  { intros A f n l Hf. induction l as [|a l IH]; cbn [flat_map List.length]; [lia|].
    rewrite length_app, Hf, IH. lia. }
  assert (Hall : forall (A : Type) (f : A -> buffer) (l : list A),
             (forall a, Forall (fun b => 0 <= b < 256) (f a)) ->
             Forall (fun b => 0 <= b < 256) (flat_map f l)).
  { intros A f l Hf. induction l as [|a l IH]; cbn [flat_map]; [constructor|].
    apply Forall_app. split; [apply Hf|exact IH]. }
  assert (H8 : forall v, Forall (fun b => 0 <= b < 256) (setUint8 v)).
  { intros v. unfold setUint8. repeat constructor; apply Z.mod_pos_bound; lia. }
  assert (H16 : forall v, Forall (fun b => 0 <= b < 256) (setUint16 v)).
  { intros v. unfold setUint16. repeat constructor; apply Z.mod_pos_bound; lia. }
  assert (H32 : forall v, Forall (fun b => 0 <= b < 256) (setUint32 v)).
  { intros v. unfold setUint32. repeat constructor; apply Z.mod_pos_bound; lia. }
  assert (HF : forall x, Forall (fun b => 0 <= b < 256) (setFloat32 x)).
  { intros x. apply H32. }
  assert (HV : forall v, Forall (fun b => 0 <= b < 256) (setVector3 v)).
  { intros v. unfold setVector3. repeat (apply Forall_app; split); apply HF. }
  split.
  - unfold encodeUpdate. rewrite !length_app.
    rewrite (Hlen _ encodeEntity 29%nat), (Hlen _ setVector3 12%nat), (Hlen _ encodeHit 13%nat);
      try (intros a; reflexivity).
    cbn [setUint8 setUint16 setVector3 setFloat32 setUint32 encodeStats List.length List.app]. lia.
  - assert (HE : forall a, Forall (fun b => 0 <= b < 256) (encodeEntity a)).
    { intros a. unfold encodeEntity.
      repeat first [apply H8|apply H16|apply H32|apply HF|apply HV|apply Forall_app; split]. }
    assert (HH : forall a, Forall (fun b => 0 <= b < 256) (encodeHit a)).
    { intros a. unfold encodeHit.
      repeat first [apply H8|apply HV|apply Forall_app; split]. }
    assert (HS : Forall (fun b => 0 <= b < 256) (encodeStats stats)).
    { unfold encodeStats.
      repeat first [apply H8|apply H16|apply H32|apply HF|apply Forall_app; split].
      repeat constructor; lia. }
    unfold encodeUpdate.
    repeat first [apply H8|apply H16|apply HV|exact HS|apply Hall; assumption
                 |apply Forall_app; split].
Qed.

End RoundTrip.

(** ** The messages of the client *)

(** [encodeShoot] and [encodeToggleMode] of [client.js]. *)
Module Client.
Import Protocol.
Definition encodeShoot (shooting : bool) : buffer :=
  setUint8 MSG_SHOOT ++ setUint8 (if shooting then 1 else 0).
Definition encodeToggleMode (losMode : bool) : buffer :=
  setUint8 MSG_TOGGLE_MODE ++ setUint8 (if losMode then 1 else 0).
End Client.

Section ClientMessages.
Import Protocol Client.
Open Scope Z_scope.

(** In [Scenario.openWorld]-like data: one bot, one bullet, one hit. *)
Lemma decodeUpdate_encodeUpdate_witness :
  let u := mkUpdate (Scenario.V3 0.1 2 0)
             [mkEntityUpdate 7 (Scenario.V3 1 2 3) (lit 0.5) (lit 0) 100 100 false]
             [Scenario.V3 4 5 6] [mkHitUpdate (Scenario.V3 7 8 9) true]
             (mkStats 601 0 1 (lit 0) (lit 0) (lit 0) 1 los 30) in
  decodeUpdate (encodeUpdate (myPosition u) (upd_entities u) (upd_bullets u) (upd_hits u)
                             (upd_stats u))
  = Some (received u).
Proof.
  intros u. apply (@decodeUpdate_encodeUpdate u); vm_compute; reflexivity.
Defined.

(** X6.  The server decodes what the client's encoders wrote: an INPUT
    yields the four numbers rounded to binary32, a SHOOT and a TOGGLE_MODE
    yield the flag. *)
Theorem client_messages_decode (moveX moveZ rotation pitch : num) (flag : bool) :
  decodeInput (encodeInput moveX moveZ rotation pitch) =
    Some (mkInput (mkVector2 (fround moveX) (fround moveZ)) (fround rotation) (fround pitch)) /\
  decodeShoot (encodeShoot flag) = Some flag /\
  decodeToggleMode (encodeToggleMode flag) = Some flag.
Proof.
  split; [|split; destruct flag; reflexivity].
  set (buf := encodeInput moveX moveZ rotation pitch).
  assert (H0 : skipn 0 buf = buf) by reflexivity.
  unfold buf at 2 in H0. unfold encodeInput in H0.
  destruct (@getUint8_at _ _ _ _ H0) as [Ft H1]. cbn [Nat.add] in H1.
  destruct (@getFloat32_at _ _ _ _ H1) as [Fx H2]. cbn [Nat.add] in H2.
  destruct (@getFloat32_at _ _ _ _ H2) as [Fz H3]. cbn [Nat.add] in H3.
  destruct (@getFloat32_at _ _ _ _ H3) as [Fr H4]. cbn [Nat.add] in H4.
  rewrite <- (app_nil_r (setFloat32 pitch)) in H4.
  destruct (@getFloat32_at _ _ _ _ H4) as [Fp _].
  unfold decodeInput. rewrite Ft, Fx, Fz, Fr, Fp. reflexivity.
Qed.

Lemma getUint32_some (buf : buffer) (off : nat) :
  (off + 4 <= List.length buf)%nat -> exists v, getUint32 buf off = Some v.
Proof.
  intros H. unfold getUint32.
  pose proof (length_skipn off buf) as Hl.
  destruct (skipn off buf) as [|b0 [|b1 [|b2 [|b3 rest]]]]; cbn [List.length] in Hl;
    try lia. eauto.
Qed.

Lemma getUint8_some (buf : buffer) (off : nat) :
  (off + 1 <= List.length buf)%nat -> exists v, getUint8 buf off = Some v.
Proof.
  intros H. unfold getUint8.
  pose proof (length_skipn off buf) as Hl.
  destruct (skipn off buf) as [|b0 rest]; cbn [List.length] in Hl; try lia. eauto.
Qed.

(** X7.  Each decoder of the server returns null exactly when the buffer is
    shorter than the message (17, 2 and 2 bytes) or its first byte is not
    the type of the message. *)
Theorem decoders_reject (buf : buffer) :
  (decodeInput buf = None <->
   (List.length buf < 17)%nat \/ getUint8 buf 0 <> Some MSG_INPUT) /\
  (decodeShoot buf = None <->
   (List.length buf < 2)%nat \/ getUint8 buf 0 <> Some MSG_SHOOT) /\
  (decodeToggleMode buf = None <->
   (List.length buf < 2)%nat \/ getUint8 buf 0 <> Some MSG_TOGGLE_MODE).
Proof.
  assert (Hty : forall ty t : Z, (ty =? t) = false -> Some ty <> Some t).
  { intros ty t E Heq. injection Heq as ->. rewrite Z.eqb_refl in E. discriminate. }
  split; [|split].
  - unfold decodeInput. destruct (_ <? _)%nat eqn:Hlen.
    + apply Nat.ltb_lt in Hlen. split; [left; exact Hlen|reflexivity].
    + apply Nat.ltb_ge in Hlen.
      destruct (@getUint8_some buf 0) as [ty Hb]; [lia|]. rewrite Hb.
      destruct (ty =? MSG_INPUT) eqn:E; cbn [negb].
      * apply Z.eqb_eq in E. subst ty. unfold getFloat32.
        destruct (@getUint32_some buf 1) as [v1 ->]; [lia|].
        destruct (@getUint32_some buf 5) as [v2 ->]; [lia|].
        destruct (@getUint32_some buf 9) as [v3 ->]; [lia|].
        destruct (@getUint32_some buf 13) as [v4 ->]; [lia|].
        cbn [option_map]. split; [discriminate|]. intros [H|H]; [lia|congruence].
      * split; [intros _; right; exact (Hty _ _ E)|reflexivity].
  - unfold decodeShoot. destruct (_ <? _)%nat eqn:Hlen.
    + apply Nat.ltb_lt in Hlen. split; [left; exact Hlen|reflexivity].
    + apply Nat.ltb_ge in Hlen.
      destruct (@getUint8_some buf 0) as [ty Hb]; [lia|]. rewrite Hb.
      destruct (@getUint8_some buf 1) as [b ->]; [lia|].
      destruct (ty =? MSG_SHOOT) eqn:E; cbn [negb].
      * apply Z.eqb_eq in E. subst ty. split; [discriminate|].
        intros [H|H]; [lia|congruence].
      * split; [intros _; right; exact (Hty _ _ E)|reflexivity].
  - unfold decodeToggleMode. destruct (_ <? _)%nat eqn:Hlen.
    + apply Nat.ltb_lt in Hlen. split; [left; exact Hlen|reflexivity].
    + apply Nat.ltb_ge in Hlen.
      destruct (@getUint8_some buf 0) as [ty Hb]; [lia|]. rewrite Hb.
      destruct (@getUint8_some buf 1) as [b ->]; [lia|].
      destruct (ty =? MSG_TOGGLE_MODE) eqn:E; cbn [negb].
      * apply Z.eqb_eq in E. subst ty. split; [discriminate|].
        intros [H|H]; [lia|congruence].
      * split; [intros _; right; exact (Hty _ _ E)|reflexivity].
Qed.

End ClientMessages.

(** ** The message handler *)

Section InputHandling.
Import Spatial Los Index Scenario.
Open Scope num_scope.
Variable Math_sin : num -> num.

Lemma decodeInput_type (buf : Protocol.buffer) (input : Protocol.InputMessage) :
  Protocol.decodeInput buf = Some input ->
  Protocol.getUint8 buf 0 = Some Protocol.MSG_INPUT.
Proof.
  unfold Protocol.decodeInput. destruct (_ <? _)%nat; [discriminate|].
  destruct (Protocol.getUint8 buf 0) as [ty|]; [|discriminate].
  destruct (ty =? Protocol.MSG_INPUT)%Z eqn:E; [|discriminate].
  intros _. apply Z.eqb_eq in E. rewrite E. reflexivity.
Qed.

(** X3.  The INPUT handler stores the decoded move direction, rotation and
    pitch as they were received, whatever numbers they are (NaN and the
    infinities included); the movement step of a tick leaves the entity
    table and the grid alone when both stored direction components are equal
    to zero. *)
Theorem input_stored_as_received
  (s : ServerState) (ws : Z) (client : ClientConnection) (entity : Entity)
  (buf : Protocol.buffer) (input : Protocol.InputMessage) :
  id_get (clients s) ws = Some client ->
  id_get (entities s) (c_id client) = Some entity ->
  Protocol.decodeInput buf = Some input ->
  id_get (clients (message ws buf s)) ws =
    Some (setClientInput client (Protocol.in_moveDirection input)) /\
  id_get (entities (message ws buf s)) (c_id client) =
    Some (setPitch (setRotation entity (Protocol.in_rotation input)) (Protocol.in_pitch input)) /\
  (forall deltaTime w,
     (v2x (Protocol.in_moveDirection input) !== #0) ||
     (v2z (Protocol.in_moveDirection input) !== #0) = false ->
     movePlayer Math_sin deltaTime (setClientInput client (Protocol.in_moveDirection input)) w = w).
Proof.
  intros Hc He Hd. unfold message. rewrite Hc, (decodeInput_type _ Hd), Z.eqb_refl, Hd.
  fields. rewrite He. fields. split; [|split].
  - apply (get_set_same Z.eqb Zeqb_spec).
  - apply (get_set_same Z.eqb Zeqb_spec).
  - intros deltaTime [ents gs] Hz. unfold movePlayer.
    destruct (id_get ents _); [|reflexivity].
    cbn [moveDirection setClientInput]. rewrite Hz. reflexivity.
Qed.

(** X8.  A binary message changes nothing when its socket has no client, and
    nothing when none of the three decoders accepts it. *)
Theorem message_ignored (s : ServerState) (ws : Z) (buf : Protocol.buffer) :
  (id_get (clients s) ws = None -> message ws buf s = s) /\
  (Protocol.decodeInput buf = None -> Protocol.decodeShoot buf = None ->
   Protocol.decodeToggleMode buf = None -> message ws buf s = s).
Proof.
  split.
  - intros H. unfold message. rewrite H. reflexivity.
  - intros H1 H2 H3. unfold message. rewrite H1, H2, H3.
    destruct (id_get (clients s) ws); [|reflexivity].
    destruct (Protocol.getUint8 buf 0); [|reflexivity].
    repeat (destruct (_ =? _)%Z; [reflexivity|]). reflexivity.
Qed.

(** X9.  A SHOOT or TOGGLE_MODE message of the client sets the flag of the
    client of its socket, and nothing else in the state. *)
Theorem message_sets_flag (s : ServerState) (ws : Z) (client : ClientConnection) (flag : bool) :
  id_get (clients s) ws = Some client ->
  message ws (Client.encodeShoot flag) s =
    with_clients s (id_set (clients s) ws (setShooting client flag)) /\
  message ws (Client.encodeToggleMode flag) s =
    with_clients s (id_set (clients s) ws (setLosMode client flag)).
Proof.
  intros H. unfold message. rewrite H.
  split; destruct flag; reflexivity.
Qed.

End InputHandling.

Section InputExamples.
Import Spatial Los Index Scenario.
Open Scope num_scope.

(** In [Scenario.openWorld], an INPUT with no movement, a NaN rotation and
    an infinite pitch. *)
Lemma input_stored_as_received_witness :
  let buf := Protocol.encodeInput #0 #0 NaN Infinity in
  let s' := message 7 buf openWorld in
  id_get (clients s') 7 = Some (setClientInput (client 1000) (mkVector2 #0 #0)) /\
  id_get (entities s') 1000 = Some (setPitch (setRotation (player 1000 (V3 0 2 0)) NaN) Infinity).
Proof.
  intros buf s'.
  destruct (@input_stored_as_received sinTaylor openWorld 7 (client 1000) (player 1000 (V3 0 2 0))
              buf (Protocol.mkInput (mkVector2 #0 #0) NaN Infinity)
              eq_refl eq_refl eq_refl) as (H1 & H2 & _).
  split; [exact H1|exact H2].
Defined.

(** In [Scenario.openWorld] the player stands at (0, 2, 0) with rotation 0
    and pitch 0.  An INPUT frame with a NaN dirX, a NaN rotation and an
    infinite pitch arrives: the rotation and the pitch of the entity are NaN
    and Infinity at once, and the tick that follows moves the entity to a
    position whose x is NaN. *)
Lemma nan_input_reaches_position :
  let s1 := message 7 (Protocol.encodeInput NaN #0 NaN Infinity) openWorld in
  let s2 := fst (gameTick sinTaylor cosTaylor 33 half s1) in
  option_map (fun e => (vx (position e), rotation e, pitch e)) (id_get (entities openWorld) 1000)
    = Some (#0, #0, #0) /\
  option_map (fun e => (rotation e, pitch e)) (id_get (entities s1) 1000)
    = Some (NaN, Infinity) /\
  option_map (fun e => vx (position e)) (id_get (entities s2) 1000) = Some NaN.
Proof. vm_compute. repeat split; reflexivity. Qed.

Lemma message_sets_flag_witness :
  message 7 (Client.encodeShoot true) openWorld =
    with_clients openWorld (id_set (clients openWorld) 7 (setShooting (client 1000) true)) /\
  message 7 (Client.encodeToggleMode true) openWorld =
    with_clients openWorld (id_set (clients openWorld) 7 (setLosMode (client 1000) true)).
Proof. apply (@message_sets_flag openWorld 7 (client 1000) true). reflexivity. Defined.

End InputExamples.

(** ** The entity sets of the grid *)

Section GridFacts.
Import Spatial.
Open Scope Z_scope.

(** The entity [id] is in the entity set of the cell under [k]. *)
Definition inCell (cs : JsMap.t cellkey GridCell) (k : cellkey) (id : Z) : Prop :=
  exists c, cells_get cs k = Some c /\ In id (cell_entities c).

(** [entityCellsPacked] files the entity [id] under the cell key [k]. *)
Definition filedUnder (gs : GridState) (id : Z) (k : cellkey) : Prop :=
  exists packed, id_get (entityCellsPacked gs) id = Some packed /\ packedToString packed = k.

(** The entity sets and [entityCellsPacked] agree. *)
Definition gridOK (gs : GridState) : Prop :=
  forall k id, inCell (cells (grid gs)) k id <-> filedUnder gs id k.

Lemma key_dec (a b : cellkey) : a = b \/ a <> b.
Proof.
  destruct (key_eqb a b) eqn:E.
  - left. apply key_eqb_spec. exact E.
  - right. intros H. apply key_eqb_spec in H. congruence.
Qed.

Lemma cells_get_set_same (cs : JsMap.t cellkey GridCell) (k : cellkey) (c : GridCell) :
  cells_get (cells_set cs k c) k = Some c.
Proof. apply (get_set_same key_eqb key_eqb_spec). Qed.

Lemma cells_get_set_other (cs : JsMap.t cellkey GridCell) (k k' : cellkey) (c : GridCell) :
  k <> k' -> cells_get (cells_set cs k c) k' = cells_get cs k'.
Proof. apply (get_set_other key_eqb key_eqb_spec). Qed.

Lemma inCell_delete (cs : JsMap.t cellkey GridCell) (k0 k : cellkey) (id0 id : Z) :
  inCell (cellDeleteEntity cs k0 id0) k id <-> inCell cs k id /\ ~ (k = k0 /\ id = id0).
Proof.
  unfold cellDeleteEntity, inCell. destruct (cells_get cs k0) as [c0|] eqn:E0.
  - destruct (key_dec k0 k) as [<-|Hne].
    + rewrite cells_get_set_same, E0. split.
      * intros [c [Hc Hin]]. injection Hc as <-. cbn in Hin.
        apply JsSet_In_delete in Hin. split; [exists c0; tauto|tauto].
      * intros [[c [Hc Hin]] Hn]. injection Hc as <-. eexists. split; [reflexivity|].
        cbn. apply JsSet_In_delete. split; [|exact Hin]. intros ->. apply Hn. tauto.
    + rewrite (@cells_get_set_other _ _ _ _ Hne). split; [|tauto].
      intros H. split; [exact H|]. intros [-> _]. apply Hne. reflexivity.
  - split; [|tauto]. intros [c [Hc Hin]]. split; [eauto|].
    intros [-> _]. congruence.
Qed.

Lemma inCell_ensure (cs : JsMap.t cellkey GridCell) (k0 k : cellkey) (id : Z) :
  inCell (ensureCell cs k0) k id <-> inCell cs k id.
Proof.
  unfold ensureCell, JsMap.has. fold (cells_get cs k0).
  destruct (cells_get cs k0) as [c0|] eqn:E0; [tauto|].
  unfold inCell. destruct (key_dec k0 k) as [<-|Hne].
  - rewrite cells_get_set_same, E0. split.
    + intros [c [Hc Hin]]. injection Hc as <-. destruct Hin.
    + intros [c [Hc _]]. discriminate.
  - rewrite (@cells_get_set_other _ _ _ _ Hne). tauto.
Qed.

Lemma ensureCell_has (cs : JsMap.t cellkey GridCell) (k0 : cellkey) :
  exists c, cells_get (ensureCell cs k0) k0 = Some c.
Proof.
  unfold ensureCell, JsMap.has. fold (cells_get cs k0).
  destruct (cells_get cs k0) as [c0|] eqn:E0; [eauto|].
  rewrite cells_get_set_same. eauto.
Qed.

Lemma inCell_add (cs : JsMap.t cellkey GridCell) (k0 k : cellkey) (id0 id : Z) :
  inCell (cellAddEntity cs k0 id0) k id <-> inCell cs k id \/ (k = k0 /\ id = id0).
Proof.
  unfold cellAddEntity. cbn zeta.
  destruct (ensureCell_has cs k0) as [c1 E1]. rewrite E1.
  rewrite <- (inCell_ensure cs k0 k id). unfold inCell.
  destruct (key_dec k0 k) as [<-|Hne].
  - rewrite cells_get_set_same, E1. split.
    + intros [c [Hc Hin]]. injection Hc as <-. cbn in Hin.
      apply JsSet_In_add in Hin. destruct Hin as [->|Hin]; [right; tauto|left; eauto].
    + intros H. eexists. split; [reflexivity|]. cbn. apply JsSet_In_add.
      destruct H as [[c [Hc Hin]]|[_ ->]]; [|left; reflexivity].
      injection Hc as <-. right. exact Hin.
  - rewrite (@cells_get_set_other _ _ _ _ Hne). split; [tauto|].
    intros [H|[-> _]]; [exact H|]. exfalso. apply Hne. reflexivity.
Qed.

(** Two packed keys that [===] holds of name the same cell. *)
Lemma strict_eq_cases (a b : num) :
  (a === b)%num = true ->
  a = b \/ exists s s', a = S754_zero s /\ b = S754_zero s'.
Proof.
  unfold strict_eq, SFeqb.
  destruct a as [sa| sa| |sa ma ea], b as [sb| sb| |sb mb eb]; cbn;
    try discriminate; try (intros _; right; eauto; fail);
    try (destruct sa; discriminate); try (destruct sb; discriminate).
  - destruct sa, sb; try discriminate; intros _; left; reflexivity.
  - destruct sa, sb; try discriminate;
      (destruct (Z.compare ea eb) eqn:Ee; try discriminate;
       apply Z.compare_eq in Ee; subst;
       change (PosDef.Pos.compare_cont Eq ma mb) with (Pos.compare ma mb);
       destruct (Pos.compare ma mb) eqn:Em; cbn; try discriminate;
       apply Pos.compare_eq in Em; subst; intros _; left; reflexivity).
Qed.

Lemma packedToString_strict_eq (a b : num) :
  (a === b)%num = true -> packedToString a = packedToString b.
Proof.
  intros H. destruct (@strict_eq_cases _ _ H) as [->|(s & s' & -> & ->)]; [reflexivity|].
  destruct s, s'; vm_compute; reflexivity.
Qed.

(** The obstacles listed under a cell key; a missing cell lists none. *)
Definition obstaclesAt (cs : JsMap.t cellkey GridCell) (k : cellkey) : list Obstacle :=
  match cells_get cs k with
  | Some c => cell_obstacles c
  | None => []
  end.

Lemma obstaclesAt_delete (cs : JsMap.t cellkey GridCell) (k0 k : cellkey) (id0 : Z) :
  obstaclesAt (cellDeleteEntity cs k0 id0) k = obstaclesAt cs k.
Proof.
  unfold cellDeleteEntity, obstaclesAt. destruct (cells_get cs k0) as [c0|] eqn:E0; [|reflexivity].
  destruct (key_dec k0 k) as [<-|Hne].
  - rewrite cells_get_set_same, E0. reflexivity.
  - rewrite (@cells_get_set_other _ _ _ _ Hne). reflexivity.
Qed.

Lemma obstaclesAt_ensure (cs : JsMap.t cellkey GridCell) (k0 k : cellkey) :
  obstaclesAt (ensureCell cs k0) k = obstaclesAt cs k.
Proof.
  unfold ensureCell, JsMap.has. fold (cells_get cs k0).
  destruct (cells_get cs k0) as [c0|] eqn:E0; [reflexivity|].
  unfold obstaclesAt. destruct (key_dec k0 k) as [<-|Hne].
  - rewrite cells_get_set_same, E0. reflexivity.
  - rewrite (@cells_get_set_other _ _ _ _ Hne). reflexivity.
Qed.

Lemma obstaclesAt_add (cs : JsMap.t cellkey GridCell) (k0 k : cellkey) (id0 : Z) :
  obstaclesAt (cellAddEntity cs k0 id0) k = obstaclesAt cs k.
Proof.
  unfold cellAddEntity. cbn zeta. rewrite <- (obstaclesAt_ensure cs k0 k).
  destruct (ensureCell_has cs k0) as [c1 E1]. rewrite E1. unfold obstaclesAt.
  destruct (key_dec k0 k) as [<-|Hne].
  - rewrite cells_get_set_same, E1. reflexivity.
  - rewrite (@cells_get_set_other _ _ _ _ Hne). reflexivity.
Qed.

Lemma hasLineOfSight_obstaclesAt (g g' : SpatialGrid) (a b : Vector3) :
  (forall k, obstaclesAt (cells g') k = obstaclesAt (cells g) k) ->
  Los.hasLineOfSight a b g' = Los.hasLineOfSight a b g.
Proof.
  intros H. unfold Los.hasLineOfSight. cbn zeta.
  induction (getCellsAlongRay a b) as [|k ks IH]; cbn [forallb]; [reflexivity|].
  rewrite IH. f_equal.
  specialize (H k). unfold obstaclesAt in H.
  destruct (cells_get (cells g') k) as [c'|], (cells_get (cells g) k) as [c|];
    rewrite ?H; try reflexivity.
  rewrite <- H. reflexivity.
Qed.

Lemma canSeeEntity_obstaclesAt (g g' : SpatialGrid) (a b : Vector3) :
  (forall k, obstaclesAt (cells g') k = obstaclesAt (cells g) k) ->
  Los.canSeeEntity a b g' = Los.canSeeEntity a b g.
Proof.
  intros H. unfold Los.canSeeEntity. cbn zeta.
  rewrite !(@hasLineOfSight_obstaclesAt _ _ _ _ H). reflexivity.
Qed.

Lemma updateEntityInGrid_spec (gs : GridState) (entityId : Z) (newPos : Vector3) :
  gridOK gs ->
  gridOK (updateEntityInGrid gs entityId newPos) /\
  (forall k, inCell (cells (grid (updateEntityInGrid gs entityId newPos))) k entityId <->
             k = packedToString (getPackedCellKey (vx newPos) (vz newPos))) /\
  (forall id k, id <> entityId ->
     (inCell (cells (grid (updateEntityInGrid gs entityId newPos))) k id <->
      inCell (cells (grid gs)) k id)).
Proof.
  intros OK. unfold updateEntityInGrid. cbn zeta.
  set (newPacked := getPackedCellKey (vx newPos) (vz newPos)).
  set (newKey := packedToString newPacked).
  assert (Hset : forall cs',
    (forall k id, inCell cs' k id <->
       inCell (cells (grid gs)) k id /\
       ~ (id = entityId /\ filedUnder gs entityId k)) ->
    let gs' := mkGridState (withCells (grid gs) (cellAddEntity cs' newKey entityId))
                 (id_set (entityCellsPacked gs) entityId newPacked)
                 (nearbyObstaclesCache gs) in
    gridOK gs' /\
    (forall k, inCell (cells (grid gs')) k entityId <-> k = newKey) /\
    (forall id k, id <> entityId ->
       (inCell (cells (grid gs')) k id <-> inCell (cells (grid gs)) k id))).
  { intros cs' Hcs' gs'. subst gs'. cbn [grid cells withCells entityCellsPacked].
    assert (Hme : forall k, inCell (cellAddEntity cs' newKey entityId) k entityId <-> k = newKey).
    { intros k. rewrite inCell_add, Hcs'. split; [|tauto].
      intros [[Hin Hn]|[-> _]]; [|reflexivity]. exfalso. apply Hn. split; [reflexivity|].
      apply OK. exact Hin. }
    assert (Hother : forall id k, id <> entityId ->
              (inCell (cellAddEntity cs' newKey entityId) k id <-> inCell (cells (grid gs)) k id)).
    { intros id k Hne. rewrite inCell_add, Hcs'. tauto. }
    split; [|split; assumption].
    intros k id. unfold filedUnder. cbn [entityCellsPacked].
    destruct (Z.eq_dec id entityId) as [->|Hne].
    - rewrite Hme. unfold id_get, id_set. rewrite (get_set_same Z.eqb Zeqb_spec). split.
      + intros ->. eauto.
      + intros [p [Hp <-]]. injection Hp as <-. reflexivity.
    - rewrite (Hother _ _ Hne). unfold id_get, id_set.
      rewrite (get_set_other Z.eqb Zeqb_spec) by congruence. apply OK. }
  destruct (id_get (entityCellsPacked gs) entityId) as [old|] eqn:Eold.
  - destruct (old === newPacked)%num eqn:Eeq.
    + split; [exact OK|]. split.
      * intros k. rewrite (OK k entityId). unfold filedUnder. rewrite Eold.
        unfold newKey. rewrite <- (@packedToString_strict_eq _ _ Eeq). split.
        -- intros [p [Hp <-]]. injection Hp as <-. reflexivity.
        -- intros ->. eauto.
      * tauto.
    + apply Hset. intros k id. rewrite inCell_delete. unfold filedUnder. rewrite Eold. split.
      * intros [Hin Hn]. split; [exact Hin|]. intros [-> [p [Hp <-]]]. injection Hp as <-.
        apply Hn. tauto.
      * intros [Hin Hn]. split; [exact Hin|]. intros [-> ->]. apply Hn. eauto.
  - apply Hset. intros k id. unfold filedUnder. rewrite Eold. split; [|tauto].
    intros Hin. split; [exact Hin|]. intros [_ [p [Hp _]]]. discriminate.
Qed.

(** X10.  [updateEntityInGrid] keeps the entity sets and
    [entityCellsPacked] in agreement; after it the entity is in the entity
    set of the cell that [packedToString] names for the packed key of the
    new position, and in that of no other cell; the cells of the other
    entities are as before. *)
Theorem updateEntityInGrid_files (gs : GridState) (entityId : Z) (newPos : Vector3) :
  gridOK gs ->
  gridOK (updateEntityInGrid gs entityId newPos) /\
  (forall k, inCell (cells (grid (updateEntityInGrid gs entityId newPos))) k entityId <->
             k = packedToString (getPackedCellKey (vx newPos) (vz newPos))) /\
  (forall id k, id <> entityId ->
     (inCell (cells (grid (updateEntityInGrid gs entityId newPos))) k id <->
      inCell (cells (grid gs)) k id)).
Proof. apply updateEntityInGrid_spec. Qed.

Lemma removeEntityFromGrid_spec (gs : GridState) (entityId : Z) :
  gridOK gs ->
  gridOK (removeEntityFromGrid gs entityId) /\
  (forall k, ~ inCell (cells (grid (removeEntityFromGrid gs entityId))) k entityId) /\
  id_get (entityCellsPacked (removeEntityFromGrid gs entityId)) entityId = None /\
  (forall id k, id <> entityId ->
     (inCell (cells (grid (removeEntityFromGrid gs entityId))) k id <->
      inCell (cells (grid gs)) k id)).
Proof.
  intros OK. unfold removeEntityFromGrid.
  destruct (id_get (entityCellsPacked gs) entityId) as [packed|] eqn:E.
  - cbn [grid cells withCells entityCellsPacked].
    assert (Hme : forall k, ~ inCell (cellDeleteEntity (cells (grid gs)) (packedToString packed)
                                        entityId) k entityId).
    { intros k. rewrite inCell_delete. intros [Hin Hn]. apply Hn. split; [|reflexivity].
      apply OK in Hin. destruct Hin as [p [Hp <-]]. congruence. }
    assert (Hother : forall id k, id <> entityId ->
              (inCell (cellDeleteEntity (cells (grid gs)) (packedToString packed) entityId) k id
               <-> inCell (cells (grid gs)) k id)).
    { intros id k Hne. rewrite inCell_delete. tauto. }
    split; [|split; [exact Hme|split; [apply (get_delete_same Z.eqb)|exact Hother]]].
    intros k id. unfold filedUnder. cbn [entityCellsPacked grid cells withCells].
    destruct (Z.eq_dec id entityId) as [->|Hne].
    + unfold id_get, id_delete. rewrite (get_delete_same Z.eqb). split.
      * intros H. exfalso. exact (Hme _ H).
      * intros [p [Hp _]]. discriminate.
    + rewrite (Hother _ _ Hne). unfold id_get, id_delete.
      rewrite (get_delete_other Z.eqb Zeqb_spec) by congruence. apply OK.
  - split; [exact OK|]. split; [|split; [exact E|tauto]].
    intros k Hin. apply OK in Hin. destruct Hin as [p [Hp _]]. congruence.
Qed.

(** X11.  [removeEntityFromGrid] keeps the entity sets and
    [entityCellsPacked] in agreement; after it the entity is in no entity
    set and has no entry in [entityCellsPacked]; the cells of the other
    entities are as before. *)
Theorem removeEntityFromGrid_clears (gs : GridState) (entityId : Z) :
  gridOK gs ->
  gridOK (removeEntityFromGrid gs entityId) /\
  (forall k, ~ inCell (cells (grid (removeEntityFromGrid gs entityId))) k entityId) /\
  id_get (entityCellsPacked (removeEntityFromGrid gs entityId)) entityId = None /\
  (forall id k, id <> entityId ->
     (inCell (cells (grid (removeEntityFromGrid gs entityId))) k id <->
      inCell (cells (grid gs)) k id)).
Proof. apply removeEntityFromGrid_spec. Qed.

Lemma updateEntityInGrid_obstacles (gs : GridState) (entityId : Z) (newPos : Vector3) :
  (forall k, obstaclesAt (cells (grid (updateEntityInGrid gs entityId newPos))) k =
             obstaclesAt (cells (grid gs)) k) /\
  nearbyObstaclesCache (updateEntityInGrid gs entityId newPos) = nearbyObstaclesCache gs.
Proof.
  unfold updateEntityInGrid. cbn zeta.
  destruct (id_get (entityCellsPacked gs) entityId) as [old|].
  - destruct (_ === _)%num; [split; reflexivity|]. split; [|reflexivity].
    intros k. cbn [grid cells withCells]. rewrite obstaclesAt_add, obstaclesAt_delete. reflexivity.
  - split; [|reflexivity]. intros k. cbn [grid cells withCells]. apply obstaclesAt_add.
Qed.

Lemma removeEntityFromGrid_obstacles (gs : GridState) (entityId : Z) :
  (forall k, obstaclesAt (cells (grid (removeEntityFromGrid gs entityId))) k =
             obstaclesAt (cells (grid gs)) k) /\
  nearbyObstaclesCache (removeEntityFromGrid gs entityId) = nearbyObstaclesCache gs.
Proof.
  unfold removeEntityFromGrid.
  destruct (id_get (entityCellsPacked gs) entityId) as [packed|]; [|split; reflexivity].
  split; [|reflexivity]. intros k. cbn [grid cells withCells]. apply obstaclesAt_delete.
Qed.

(** X12.  Filing, moving and removing entities never changes the obstacle
    list of a cell nor the cache of nearby obstacles, hence neither the
    result of [hasLineOfSight] and [canSeeEntity] nor that of
    [getNearbyObstacles]. *)
Theorem entity_filing_keeps_obstacles (gs : GridState) (entityId : Z) (newPos a b : Vector3)
  (x z : num) :
  let moved := updateEntityInGrid gs entityId newPos in
  let removed := removeEntityFromGrid gs entityId in
  (forall k, obstaclesAt (cells (grid moved)) k = obstaclesAt (cells (grid gs)) k) /\
  (forall k, obstaclesAt (cells (grid removed)) k = obstaclesAt (cells (grid gs)) k) /\
  Los.hasLineOfSight a b (grid moved) = Los.hasLineOfSight a b (grid gs) /\
  Los.hasLineOfSight a b (grid removed) = Los.hasLineOfSight a b (grid gs) /\
  Los.canSeeEntity a b (grid moved) = Los.canSeeEntity a b (grid gs) /\
  Los.canSeeEntity a b (grid removed) = Los.canSeeEntity a b (grid gs) /\
  getNearbyObstacles moved x z = getNearbyObstacles gs x z /\
  getNearbyObstacles removed x z = getNearbyObstacles gs x z.
Proof.
  intros moved removed.
  destruct (updateEntityInGrid_obstacles gs entityId newPos) as [Hm Hcm].
  destruct (removeEntityFromGrid_obstacles gs entityId) as [Hr Hcr].
  fold moved in Hm, Hcm. fold removed in Hr, Hcr.
  split; [exact Hm|]. split; [exact Hr|].
  split; [exact (@hasLineOfSight_obstaclesAt _ _ _ _ Hm)|].
  split; [exact (@hasLineOfSight_obstaclesAt _ _ _ _ Hr)|].
  split; [exact (@canSeeEntity_obstaclesAt _ _ _ _ Hm)|].
  split; [exact (@canSeeEntity_obstaclesAt _ _ _ _ Hr)|].
  unfold getNearbyObstacles. rewrite Hcm, Hcr. split; reflexivity.
Qed.

Lemma obstaclesAt_push (cs : JsMap.t cellkey GridCell) (k0 k : cellkey) (o : Obstacle) :
  obstaclesAt (pushObstacle cs k0 o) k =
  if key_eqb k0 k then obstaclesAt cs k ++ [o] else obstaclesAt cs k.
Proof.
  unfold pushObstacle. cbn zeta. rewrite <- (obstaclesAt_ensure cs k0 k).
  destruct (ensureCell_has cs k0) as [c1 E1]. rewrite E1. unfold obstaclesAt.
  destruct (key_eqb k0 k) eqn:E.
  - apply key_eqb_spec in E. subst k. rewrite cells_get_set_same, E1. reflexivity.
  - assert (Hne : k0 <> k) by (intros ->; rewrite (proj2 (key_eqb_spec k k) eq_refl) in E;
                               discriminate).
    rewrite (@cells_get_set_other _ _ _ _ Hne). reflexivity.
Qed.

Lemma inCell_push (cs : JsMap.t cellkey GridCell) (k0 k : cellkey) (o : Obstacle) (id : Z) :
  inCell (pushObstacle cs k0 o) k id <-> inCell cs k id.
Proof.
  unfold pushObstacle. cbn zeta. rewrite <- (inCell_ensure cs k0 k id).
  destruct (ensureCell_has cs k0) as [c1 E1]. rewrite E1. unfold inCell.
  destruct (key_dec k0 k) as [<-|Hne].
  - rewrite cells_get_set_same, E1. split; intros [c [Hc Hin]]; injection Hc as <-; eauto.
  - rewrite (@cells_get_set_other _ _ _ _ Hne). tauto.
Qed.

Lemma push_all (o : Obstacle) (keys : list cellkey) :
  forall cs k,
    (forall o', In o' (obstaclesAt (fold_left (fun cs cellKey => pushObstacle cs cellKey o) keys cs) k)
                <-> In o' (obstaclesAt cs k) \/ (o' = o /\ In k keys)) /\
    (forall id, inCell (fold_left (fun cs cellKey => pushObstacle cs cellKey o) keys cs) k id
                <-> inCell cs k id).
Proof.
  induction keys as [|k0 keys IH]; intros cs k; cbn [fold_left].
  - split; [intros o'; cbn; tauto|tauto].
  - destruct (IH (pushObstacle cs k0 o) k) as [H1 H2]. split.
    + intros o'. rewrite H1, obstaclesAt_push. cbn [In].
      destruct (key_eqb k0 k) eqn:E.
      * apply key_eqb_spec in E. subst k0. rewrite in_app_iff. cbn [In]. intuition.
      * assert (Hne : k0 <> k) by (intros ->; rewrite (proj2 (key_eqb_spec k k) eq_refl) in E;
                                   discriminate).
        intuition.
    + intros id. rewrite H2. apply inCell_push.
Qed.

Lemma createSpatialGrid_spec (obstacles : list Obstacle) (k : cellkey) :
  (forall o, In o (obstaclesAt (cells (createSpatialGrid obstacles)) k) <->
             In o obstacles /\ In k (getOccupiedCells o)) /\
  (forall id, ~ inCell (cells (createSpatialGrid obstacles)) k id).
Proof.
  unfold createSpatialGrid. cbn [cells].
  enough (Hgen : forall cs,
            (forall o, In o (obstaclesAt
                               (fold_left (fun cs obstacle =>
                                  fold_left (fun cs cellKey => pushObstacle cs cellKey obstacle)
                                            (getOccupiedCells obstacle) cs) obstacles cs) k) <->
                       In o (obstaclesAt cs k) \/ (In o obstacles /\ In k (getOccupiedCells o))) /\
            (forall id, inCell (fold_left (fun cs obstacle =>
                                  fold_left (fun cs cellKey => pushObstacle cs cellKey obstacle)
                                            (getOccupiedCells obstacle) cs) obstacles cs) k id <->
                        inCell cs k id)).
  { destruct (Hgen []) as [H1 H2]. split.
    - intros o. rewrite H1. cbn. tauto.
    - intros id. rewrite H2. intros [c [Hc _]]. discriminate. }
  induction obstacles as [|o0 rest IH]; intros cs; cbn [fold_left].
  - split; [intros o; cbn; tauto|tauto].
  - destruct (IH (fold_left (fun cs cellKey => pushObstacle cs cellKey o0)
                            (getOccupiedCells o0) cs)) as [H1 H2].
    destruct (push_all o0 (getOccupiedCells o0) cs k) as [P1 P2]. split.
    + intros o. rewrite H1, P1. cbn [In]. split.
      * intros [[H|[-> H]]|[H H']]; auto.
      * intros [H|[[<-|H] H']]; auto.
    + intros id. rewrite H2. apply P2.
Qed.

(** X13.  In the grid that [createSpatialGrid] builds, the obstacles listed
    under a cell key are exactly the obstacles whose [getOccupiedCells]
    contains the key, and no cell holds an entity. *)
Theorem createSpatialGrid_cells (obstacles : list Obstacle) (k : cellkey) :
  (forall o, In o (obstaclesAt (cells (createSpatialGrid obstacles)) k) <->
             In o obstacles /\ In k (getOccupiedCells o)) /\
  (forall id, ~ inCell (cells (createSpatialGrid obstacles)) k id).
Proof. apply createSpatialGrid_spec. Qed.

(** The grid state [initializeWorld] starts from agrees with itself. *)
Lemma createSpatialGrid_gridOK (obstacles : list Obstacle)
  (cache : JsMap.t cellkey (list Obstacle)) :
  gridOK (mkGridState (createSpatialGrid obstacles) [] cache).
Proof.
  intros k id. cbn [grid]. split.
  - intros H. destruct (proj2 (createSpatialGrid_spec obstacles k) id H).
  - intros [p [Hp _]]. discriminate.
Qed.

End GridFacts.

Section GridExamples.
Import Spatial Scenario.
Open Scope Z_scope.

(** The grid of the wall of [Scenario.houseWall]; the bot 1 is filed at
    (20, 2, 0), then moved to (900, 2, 900). *)
Lemma updateEntityInGrid_files_witness :
  let gs0 := mkGridState (createSpatialGrid [houseWall]) [] [] in
  let gs1 := updateEntityInGrid gs0 1 (V3 20 2 0) in
  let gs2 := updateEntityInGrid gs1 1 (V3 900 2 900) in
  gridOK gs2 /\
  (forall k, inCell (cells (grid gs2)) k 1 <-> k = (PInt 380, PInt 380)).
Proof.
  intros gs0 gs1 gs2.
  assert (OK0 : gridOK gs0) by apply createSpatialGrid_gridOK.
  destruct (@updateEntityInGrid_spec gs0 1 (V3 20 2 0) OK0) as (OK1 & _).
  destruct (@updateEntityInGrid_files gs1 1 (V3 900 2 900) OK1) as (OK2 & H & _).
  split; [exact OK2|exact H].
Defined.

Lemma removeEntityFromGrid_clears_witness :
  let gs0 := mkGridState (createSpatialGrid [houseWall]) [] [] in
  let gs1 := updateEntityInGrid gs0 1 (V3 20 2 0) in
  gridOK (removeEntityFromGrid gs1 1) /\
  id_get (entityCellsPacked (removeEntityFromGrid gs1 1)) 1 = None.
Proof.
  intros gs0 gs1.
  assert (OK0 : gridOK gs0) by apply createSpatialGrid_gridOK.
  destruct (@updateEntityInGrid_spec gs0 1 (V3 20 2 0) OK0) as (OK1 & _).
  destruct (@removeEntityFromGrid_clears gs1 1 OK1) as (OK2 & _ & H & _).
  split; [exact OK2|exact H].
Defined.

End GridExamples.

(** ** What [hasLineOfSight] and [getVisibleEntities] decide *)

Section LineOfSight.
Import Spatial Los.
Open Scope num_scope.

Lemma forallb_false {A : Type} (f : A -> bool) (l : list A) :
  forallb f l = false <-> exists x, In x l /\ f x = false.
Proof.
  induction l as [|a l IH]; cbn [forallb In].
  - split; [discriminate|intros [x [[] _]]].
  - rewrite andb_false_iff, IH. split.
    + intros [H|[x [Hin Hx]]]; [exists a; tauto|exists x; tauto].
    + intros [x [[->|Hin] Hx]]; [left; exact Hx|right; exists x; tauto].
Qed.

(** X14.  [hasLineOfSight] returns false exactly when an obstacle listed in
    one of the cells of [getCellsAlongRay] is hit by the ray according to
    [rayIntersectsBox]; obstacles of other cells are never tested. *)
Theorem hasLineOfSight_blocked_iff (start end_ : Vector3) (g : SpatialGrid) :
  hasLineOfSight start end_ g = false <->
  exists k o, In k (getCellsAlongRay start end_) /\ In o (obstaclesAt (cells g) k) /\
              rayIntersectsBox start end_ (o_position o) (o_size o) = true.
Proof.
  unfold hasLineOfSight. cbn zeta. rewrite forallb_false. split.
  - intros [k [Hk Hf]].
    destruct (cells_get (cells g) k) as [c|] eqn:E; [|discriminate].
    apply forallb_false in Hf. destruct Hf as [o [Ho Hr]].
    exists k, o. unfold obstaclesAt. rewrite E. rewrite negb_false_iff in Hr. tauto.
  - intros [k [o [Hk [Ho Hr]]]]. exists k. split; [exact Hk|].
    unfold obstaclesAt in Ho. destruct (cells_get (cells g) k) as [c|]; [|destruct Ho].
    apply forallb_false. exists o. rewrite Hr. tauto.
Qed.

(** X15.  [getVisibleEntities] returns exactly the ids of the entries of
    [entityPositions] other than the viewer's whose squared distance to the
    viewer is not greater than the squared view distance and, in
    line-of-sight mode, that [canSeeEntity] accepts; what it returns in
    line-of-sight mode it also returns in classical mode. *)
Theorem getVisibleEntities_spec (viewerPos : Vector3) (entityPositions : idmap Vector3)
  (g : SpatialGrid) (viewDistance : num) (losMode : bool) (viewerId : Z) (id : Z) :
  (In id (getVisibleEntities viewerPos entityPositions g viewDistance losMode viewerId) <->
   exists pos, In (id, pos) entityPositions /\ id <> viewerId /\
     (let dx := vx pos - vx viewerPos in
      let dy := vy pos - vy viewerPos in
      let dz := vz pos - vz viewerPos in
      dx * dx + dy * dy + dz * dz >? viewDistance * viewDistance) = false /\
     (losMode = false \/ canSeeEntity viewerPos pos g = true)) /\
  (In id (getVisibleEntities viewerPos entityPositions g viewDistance true viewerId) ->
   In id (getVisibleEntities viewerPos entityPositions g viewDistance false viewerId)).
Proof.
  assert (H : forall mode,
    In id (getVisibleEntities viewerPos entityPositions g viewDistance mode viewerId) <->
    exists pos, In (id, pos) entityPositions /\ id <> viewerId /\
      (let dx := vx pos - vx viewerPos in
       let dy := vy pos - vy viewerPos in
       let dz := vz pos - vz viewerPos in
       dx * dx + dy * dy + dz * dz >? viewDistance * viewDistance) = false /\
      (mode = false \/ canSeeEntity viewerPos pos g = true)).
  { intros mode. rewrite getVisibleEntities_filter, in_map_iff. split.
    - intros [[id' pos] [Hid Hin]]. cbn in Hid. subst id'. apply filter_In in Hin.
      destruct Hin as [Hin Hp]. unfold passes in Hp. cbn [fst snd] in Hp.
      rewrite !andb_true_iff, !negb_true_iff, orb_true_iff, negb_true_iff in Hp.
      destruct Hp as [[Hne Hd] Hm]. apply Z.eqb_neq in Hne. exists pos. tauto.
    - intros [pos [Hin [Hne [Hd Hm]]]]. exists (id, pos). split; [reflexivity|].
      apply filter_In. split; [exact Hin|]. unfold passes. cbn [fst snd].
      rewrite !andb_true_iff, !negb_true_iff, orb_true_iff, negb_true_iff.
      apply Z.eqb_neq in Hne. cbn zeta in Hd. tauto. }
  split; [apply H|]. rewrite !H. intros [pos Hp]. exists pos. tauto.
Qed.

Lemma nsub_NaN (x : num) : x - NaN = NaN.
Proof. destruct x; reflexivity. Qed.
Lemma nmul_NaN (x : num) : NaN * x = NaN.
Proof. destruct x; reflexivity. Qed.
Lemma nadd_NaN_l (x : num) : NaN + x = NaN.
Proof. destruct x; reflexivity. Qed.
Lemma nadd_NaN_r (x : num) : x + NaN = NaN.
Proof. destruct x; reflexivity. Qed.

(** A ray that starts at a NaN x or z crosses no cell. *)
Lemma getCellsAlongRay_NaN (start end_ : Vector3) :
  vx start = NaN \/ vz start = NaN -> getCellsAlongRay start end_ = [].
Proof.
  intros H. unfold getCellsAlongRay. cbn zeta.
  assert (Hd : (vx end_ - vx start) * (vx end_ - vx start)
               + (vz end_ - vz start) * (vz end_ - vz start) = NaN).
  { destruct H as [-> | ->]; rewrite nsub_NaN, nmul_NaN;
      [apply nadd_NaN_l|apply nadd_NaN_r]. }
  rewrite Hd. reflexivity.
Qed.

Lemma hasLineOfSight_NaN (start end_ : Vector3) (g : SpatialGrid) :
  vx start = NaN \/ vz start = NaN -> hasLineOfSight start end_ g = true.
Proof.
  intros H. unfold hasLineOfSight. cbn zeta. rewrite (@getCellsAlongRay_NaN start end_ H). reflexivity.
Qed.

Lemma canSeeEntity_NaN (viewerPos targetPos : Vector3) (g : SpatialGrid) :
  vx viewerPos = NaN \/ vz viewerPos = NaN -> canSeeEntity viewerPos targetPos g = true.
Proof.
  intros H. unfold canSeeEntity. cbn zeta.
  destruct (_ <? _); [reflexivity|].
  rewrite hasLineOfSight_NaN; [reflexivity|exact H].
Qed.

(** X16.  A viewer whose x or z coordinate is NaN sees everything: every
    ray from it has line of sight, [canSeeEntity] accepts every target, and
    [getVisibleEntities] returns, in both modes and whatever the view
    distance and the obstacles, the id of every entry of [entityPositions]
    other than the viewer's. *)
Theorem nan_viewer_sees_all (viewerPos : Vector3) (entityPositions : idmap Vector3)
  (g : SpatialGrid) (viewDistance : num) (losMode : bool) (viewerId : Z) (target : Vector3) :
  vx viewerPos = NaN \/ vz viewerPos = NaN ->
  hasLineOfSight (eyeOf viewerPos) target g = true /\
  canSeeEntity viewerPos target g = true /\
  getVisibleEntities viewerPos entityPositions g viewDistance losMode viewerId =
    filter (fun id => negb (id =? viewerId)%Z) (JsMap.keys entityPositions).
Proof.
  intros H. split; [apply hasLineOfSight_NaN; exact H|].
  split; [apply canSeeEntity_NaN; exact H|].
  rewrite getVisibleEntities_filter. unfold JsMap.keys.
  induction entityPositions as [|[id pos] rest IH]; [reflexivity|].
  cbn [filter map fst]. rewrite <- IH.
  assert (Hp : passes viewerPos g viewDistance losMode viewerId (id, pos) = negb (id =? viewerId)%Z).
  { unfold passes. cbn [fst snd]. rewrite (@canSeeEntity_NaN viewerPos pos g H), orb_true_r, andb_true_r.
    assert (Hd : (vx pos - vx viewerPos) * (vx pos - vx viewerPos)
                 + (vy pos - vy viewerPos) * (vy pos - vy viewerPos)
                 + (vz pos - vz viewerPos) * (vz pos - vz viewerPos) = NaN).
    { destruct H as [E | E]; rewrite E, nsub_NaN, nmul_NaN; [|apply nadd_NaN_r].
      rewrite (nadd_NaN_l ((vy pos - vy viewerPos) * (vy pos - vy viewerPos))).
      apply nadd_NaN_l. }
    rewrite Hd. destruct (viewDistance * viewDistance); cbn; apply andb_true_r. }
  rewrite Hp. destruct (negb (id =? viewerId)%Z); reflexivity.
Qed.

End LineOfSight.

Section LineOfSightExamples.
Import Spatial Los Index Scenario.
Open Scope Z_scope.

(** In the grid of [Scenario.wallWorld], a viewer at (NaN, NaN, 0) and the
    bot 1 behind the wall at (20, 2, 0). *)
Lemma nan_viewer_sees_all_witness :
  let viewerPos := mkVector3 NaN NaN (lit 0) in
  let positions := [(1, V3 20 2 0); (1000, viewerPos)] in
  hasLineOfSight (eyeOf viewerPos) (V3 20 2 0) (grid (gstate wallWorld)) = true /\
  canSeeEntity viewerPos (V3 20 2 0) (grid (gstate wallWorld)) = true /\
  getVisibleEntities viewerPos positions (grid (gstate wallWorld)) VIEW_DISTANCE true 1000 = [1].
Proof.
  intros viewerPos positions.
  apply (@nan_viewer_sees_all viewerPos positions (grid (gstate wallWorld)) VIEW_DISTANCE true
           1000 (V3 20 2 0)).
  left. reflexivity.
Defined.

(** [Scenario.wallWorld] with the client in line-of-sight mode: the first
    tick sends nothing to socket 7, the bot being behind the wall.  The
    client then sends an INPUT whose dirX is NaN: the next tick moves its
    entity to a NaN position and sends the bot. *)
Lemma nan_input_sees_through_wall :
  let s0 := message 7 (Client.encodeToggleMode true) wallWorld in
  let tick1 := gameTick sinTaylor cosTaylor 33 half s0 in
  let s1 := message 7 (Protocol.encodeInput NaN (lit 0) (lit 0) (lit 0)) (fst tick1) in
  let tick2 := gameTick sinTaylor cosTaylor 66 half s1 in
  sentIds (snd tick1) 7 = [] /\ sentIds (snd tick2) 7 = [1] /\
  option_map (fun e => vx (position e)) (id_get (entities (fst tick2)) 1000) = Some NaN.
Proof. vm_compute. repeat split; reflexivity. Qed.

End LineOfSightExamples.

(** ** Where movement can take an entity *)

Section Movement.
Import Terrain Spatial Index.
Open Scope num_scope.

(** Neither [|x| >= bound] nor [|z| >= bound] holds of the position. *)
Definition within (bound : num) (p : Vector3) : Prop :=
  (Math_abs (vx p) >=? bound) = false /\ (Math_abs (vz p) >=? bound) = false.

(** Neither [|x| > bound] nor [|z| > bound] holds of the position. *)
Definition notBeyond (bound : num) (p : Vector3) : Prop :=
  (Math_abs (vx p) >? bound) = false /\ (Math_abs (vz p) >? bound) = false.

Lemma checkCollision_free (gs : GridState) (x z : num) :
  checkCollision gs x z = false ->
  (Math_abs x >=? TERRAIN_SIZE / #2 - #10) = false /\
  (Math_abs z >=? TERRAIN_SIZE / #2 - #10) = false.
Proof.
  unfold checkCollision. cbn zeta.
  destruct (Math_abs x >=? _); [discriminate|].
  destruct (Math_abs z >=? _); [discriminate|]. tauto.
Qed.

Lemma slide_within (gs : GridState) (pos : Vector3) (dx dz : num) :
  within (TERRAIN_SIZE / #2 - #10) pos ->
  within (TERRAIN_SIZE / #2 - #10)
         (mkVector3 (fst (slide gs pos dx dz)) (vy pos) (snd (slide gs pos dx dz))).
Proof.
  intros [Hx Hz]. rewrite slide_cases. cbn zeta.
  destruct (checkCollision gs (vx pos + dx) (vz pos + dz)) eqn:Efull; cbn [negb fst snd].
  - unfold within. cbn [vx vz fst snd]. split.
    + destruct (dx !== #0); [|exact Hx]. cbn [andb].
      destruct (checkCollision gs (vx pos + dx) (vz pos)) eqn:E; [exact Hx|].
      exact (proj1 (@checkCollision_free _ _ _ E)).
    + destruct (dz !== #0); [|exact Hz]. cbn [andb].
      destruct (checkCollision gs (vx pos) (vz pos + dz)) eqn:E; [exact Hz|].
      exact (proj2 (@checkCollision_free _ _ _ E)).
  - exact (@checkCollision_free _ _ _ Efull).
Qed.

End Movement.

Section PlayerMovement.
Import Terrain Spatial Index.
Open Scope num_scope.
Variable Math_sin : num -> num.

(** X17.  The movement step of a player never takes it across the boundary
    of the terrain: when neither |x| >= 990 nor |z| >= 990 holds of the
    position of the client's entity before [movePlayer], neither holds
    after; the step keeps the id, hit points, rotation and pitch of the
    entity and leaves every other entity of the table as it was. *)
Theorem movePlayer_within (deltaTime : num) (client : ClientConnection)
  (ents : idmap Entity) (gs : GridState) (entity : Entity) :
  id_get ents (c_id client) = Some entity ->
  within (TERRAIN_SIZE / #2 - #10) (position entity) ->
  (exists entity',
     id_get (fst (movePlayer Math_sin deltaTime client (ents, gs))) (c_id client) = Some entity' /\
     within (TERRAIN_SIZE / #2 - #10) (position entity') /\
     entity' = setPosition entity (position entity')) /\
  (forall id, id <> c_id client ->
     id_get (fst (movePlayer Math_sin deltaTime client (ents, gs))) id = id_get ents id).
Proof.
  intros He Hin. unfold movePlayer. rewrite He.
  assert (Hsame : entity = setPosition entity (position entity)) by (destruct entity; reflexivity).
  destruct (_ || _); [|split; [exists entity; cbn [fst]; tauto|reflexivity]].
  pose proof (@slide_within gs (position entity)
                (v2x (moveDirection client) * PLAYER_SPEED * deltaTime)
                (v2z (moveDirection client) * PLAYER_SPEED * deltaTime) Hin) as Hs.
  destruct (slide gs (position entity) _ _) as [finalX finalZ]. cbn [fst snd] in Hs.
  destruct (_ || _); [|split; [exists entity; cbn [fst]; tauto|reflexivity]].
  cbn [fst]. split.
  - eexists. split; [apply (get_set_same Z.eqb Zeqb_spec)|]. split; [|reflexivity].
    exact Hs.
  - intros id Hne. apply (get_set_other Z.eqb Zeqb_spec). congruence.
Qed.

End PlayerMovement.

Section BotMovement.
Import Terrain Spatial Index.
Open Scope num_scope.
Variables Math_sin Math_cos : num -> num.

Lemma updateBot_spec (bot : Entity) (deltaTime : num) (gs : GridState) (rngState : Z) :
  let bot' := fst (Bots.updateBot Math_sin Math_cos bot deltaTime gs rngState) in
  e_id bot' = e_id bot /\ isPlayer bot' = isPlayer bot /\ hp bot' = hp bot /\
  maxHp bot' = maxHp bot /\ pitch bot' = pitch bot /\ velocity bot' = velocity bot /\
  (notBeyond (TERRAIN_SIZE / #2 - #50) (position bot) ->
   notBeyond (TERRAIN_SIZE / #2 - #50) (position bot')).
Proof.
  cbn zeta. unfold Bots.updateBot.
  destruct (Bots.fastRandom rngState) as [r rng1].
  set (turned := if r <? #0.02 then _ else _).
  assert (Ht : e_id (fst turned) = e_id bot /\ isPlayer (fst turned) = isPlayer bot /\
               hp (fst turned) = hp bot /\ maxHp (fst turned) = maxHp bot /\
               pitch (fst turned) = pitch bot /\ velocity (fst turned) = velocity bot /\
               position (fst turned) = position bot).
  { subst turned. destruct (r <? #0.02); [|cbn; tauto].
    destruct (Bots.fastRandom rng1); cbn; tauto. }
  destruct turned as [b rng2]. cbn [fst] in Ht.
  destruct Ht as (T1 & T2 & T3 & T4 & T5 & T6 & T7).
  cbn zeta.
  set (dx := Bots.fastSin Math_sin (rotation b) * #5 * deltaTime).
  set (dz := Bots.fastCos Math_cos (rotation b) * #5 * deltaTime).
  destruct (Math_abs (vx (position b) + dx) >? _) eqn:Bx; cbn [orb].
  { cbn [fst e_id isPlayer hp maxHp pitch velocity position setRotation].
    rewrite T7. tauto. }
  destruct (Math_abs (vz (position b) + dz) >? _) eqn:Bz.
  { cbn [fst e_id isPlayer hp maxHp pitch velocity position setRotation].
    rewrite T7. tauto. }
  set (res := if negb (Bots.checkCollision _ _ gs) then _ else _).
  assert (Hres : (fst (fst res) = vx (position b) + dx \/ fst (fst res) = vx (position b)) /\
                 (snd (fst res) = vz (position b) + dz \/ snd (fst res) = vz (position b))).
  { subst res. destruct (negb (Bots.checkCollision _ _ gs)); [cbn; tauto|].
    destruct (_ && _); destruct (_ && _); cbn; tauto. }
  destruct res as [[finalX finalZ] moved]. cbn [fst snd] in Hres.
  destruct moved.
  - cbn [fst e_id isPlayer hp maxHp pitch velocity position setPosition].
    repeat (split; [assumption|]). unfold notBeyond. cbn [vx vz]. rewrite <- T7.
    intros [Hx Hz]. destruct Hres as [[-> | ->] [-> | ->]]; tauto.
  - destruct (Bots.fastRandom rng2).
    cbn [fst e_id isPlayer hp maxHp pitch velocity position setRotation].
    rewrite T7. tauto.
Qed.

(** X18.  [updateBot] changes nothing of a bot but its position and its
    rotation, and never takes it beyond the bots' boundary: when neither
    |x| > 950 nor |z| > 950 holds of the position before, neither holds
    after. *)
Theorem updateBot_keeps (bot : Entity) (deltaTime : num) (gs : GridState) (rngState : Z) :
  let bot' := fst (Bots.updateBot Math_sin Math_cos bot deltaTime gs rngState) in
  e_id bot' = e_id bot /\ isPlayer bot' = isPlayer bot /\ hp bot' = hp bot /\
  maxHp bot' = maxHp bot /\ pitch bot' = pitch bot /\ velocity bot' = velocity bot /\
  (notBeyond (TERRAIN_SIZE / #2 - #50) (position bot) ->
   notBeyond (TERRAIN_SIZE / #2 - #50) (position bot')).
Proof. apply updateBot_spec. Qed.

End BotMovement.

Section MovementExamples.
Import Terrain Spatial Index Scenario.
Open Scope Z_scope.

(** The player of [Scenario.openWorld], steering along x. *)
Lemma movePlayer_within_witness :
  let c := setClientInput (client 1000) (mkVector2 (lit 1) (lit 0)) in
  exists entity',
    id_get (fst (movePlayer sinTaylor (lit 0.033) c (entities openWorld, gstate openWorld)))
           1000 = Some entity' /\
    within (TERRAIN_SIZE / lit 2 - lit 10)%num (position entity').
Proof.
  intros c.
  destruct (@movePlayer_within sinTaylor (lit 0.033) c (entities openWorld) (gstate openWorld)
              (player 1000 (V3 0 2 0)) eq_refl) as [[entity' [H1 [H2 _]]] _].
  - split; reflexivity.
  - exists entity'. split; assumption.
Defined.

End MovementExamples.

(** ** What a bullet does to the world *)

Section BulletFlight.
Import Terrain Spatial Index.
Open Scope Z_scope.
Variable Math_sin : num -> num.

Lemma checkEntityAt_in_table (ents : idmap Entity) (owner : Z) (px py pz : num) :
  0 <= checkEntityAt ents owner px py pz ->
  exists e, id_get ents (checkEntityAt ents owner px py pz) = Some e.
Proof.
  rewrite checkEntityAt_find.
  destruct (find _ ents) as [[id e]|] eqn:E; [|lia].
  intros _. apply find_some in E. destruct E as [Hin _]. cbn [fst].
  apply (keys_get_Some Z.eqb Zeqb_spec). apply (in_map fst) in Hin. exact Hin.
Qed.

Lemma hitEntityAt_spec (rnd : randoms) (bullet : Bullet) (prev new : Vector3) (id : Z)
  (entity : Entity) (w : World) :
  0 < maxHp entity ->
  let w' := hitEntityAt Math_sin rnd bullet prev new id entity w in
  (exists e',
     id_get (w_entities w') id = Some e' /\
     hp e' = (if hp entity - damage bullet <=? 0 then maxHp entity
              else hp entity - damage bullet) /\
     0 < hp e' /\ e_id e' = e_id entity /\ maxHp e' = maxHp entity /\
     isPlayer e' = isPlayer entity /\
     ((hp entity - damage bullet <=? 0) = false -> position e' = position entity)) /\
  (forall id', id' <> id -> id_get (w_entities w') id' = id_get (w_entities w) id') /\
  (exists p, w_hits w' = w_hits w ++ [mkHit p true (Some id)]).
Proof.
  intros Hmax. unfold hitEntityAt. cbn zeta.
  cbn [hp setHp].
  assert (Hle : (Z.max 0 (hp entity - damage bullet) <=? 0) = (hp entity - damage bullet <=? 0)).
  { destruct (hp entity - damage bullet <=? 0) eqn:E.
    - apply Z.leb_le in E. apply Z.leb_le. lia.
    - apply Z.leb_gt in E. apply Z.leb_gt. lia. }
  rewrite Hle. destruct (hp entity - damage bullet <=? 0) eqn:E; cbn [w_entities w_hits].
  - split; [|split; [|eauto]].
    + eexists. split; [apply (get_set_same Z.eqb Zeqb_spec)|].
      cbn [hp e_id maxHp isPlayer position setHp setPosition].
      repeat split; try assumption. discriminate.
    + intros id' Hne. apply (get_set_other Z.eqb Zeqb_spec). congruence.
  - apply Z.leb_gt in E. split; [|split; [|eauto]].
    + eexists. split; [apply (get_set_same Z.eqb Zeqb_spec)|].
      cbn [hp e_id maxHp isPlayer position setHp setPosition]. repeat split; lia.
    + intros id' Hne. apply (get_set_other Z.eqb Zeqb_spec). congruence.
Qed.

(** X19.  A hit takes [damage] hit points from the entity; when none would
    be left the entity gets its [maxHp] back (and is moved), so that with a
    positive [maxHp] the table never holds the entity with hit points at or
    below zero.  The hit keeps the id, [maxHp] and kind of the entity, leaves
    every other entity alone and appends one hit event naming the entity. *)
Theorem hitEntityAt_effect (rnd : randoms) (bullet : Bullet) (prev new : Vector3) (id : Z)
  (entity : Entity) (w : World) :
  0 < maxHp entity ->
  let w' := hitEntityAt Math_sin rnd bullet prev new id entity w in
  (exists e',
     id_get (w_entities w') id = Some e' /\
     hp e' = (if hp entity - damage bullet <=? 0 then maxHp entity
              else hp entity - damage bullet) /\
     0 < hp e' /\ e_id e' = e_id entity /\ maxHp e' = maxHp entity /\
     isPlayer e' = isPlayer entity /\
     ((hp entity - damage bullet <=? 0) = false -> position e' = position entity)) /\
  (forall id', id' <> id -> id_get (w_entities w') id' = id_get (w_entities w) id') /\
  (exists p, w_hits w' = w_hits w ++ [mkHit p true (Some id)]).
Proof. apply hitEntityAt_spec. Qed.

(** X20.  The sub-steps of a bullet end in one of two ways: the bullet
    survives, and then the world is untouched and the bullet differs from
    the one before in its position only; or the bullet is removed, and then
    exactly one hit event was appended. *)
Theorem stepBullet_outcome (rnd : randoms) (steps : nat) (stepSize : num) (bullet : Bullet)
  (w : World) :
  match fst (stepBullet Math_sin rnd steps stepSize bullet w) with
  | Some b' =>
      snd (stepBullet Math_sin rnd steps stepSize bullet w) = w /\
      b' = setBulletPosition bullet (b_position b')
  | None =>
      exists h, w_hits (snd (stepBullet Math_sin rnd steps stepSize bullet w)) = w_hits w ++ [h]
  end.
Proof.
  revert bullet. induction steps as [|n IH]; intros bullet; cbn [stepBullet].
  - cbn [fst snd]. split; [reflexivity|]. destruct bullet; reflexivity.
  - cbn zeta.
    set (new := mkVector3 _ _ _).
    destruct (checkEntityAt (w_entities w) (ownerId bullet) (vx new) (vy new) (vz new) >=? 0)
      eqn:Ehit.
    + apply Z.geb_le in Ehit.
      destruct (checkEntityAt_in_table _ _ _ _ _ Ehit) as [e He]. rewrite He. cbn [fst snd].
      unfold hitEntityAt. cbn zeta. destruct (_ <=? _); cbn [w_hits]; eauto.
    + destruct (checkObstacleAt _ _ _ _); [cbn [fst snd w_hits]; eauto|].
      destruct (_ || _); [cbn [fst snd w_hits]; eauto|].
      specialize (IH (setBulletPosition bullet new)).
      destruct (fst (stepBullet Math_sin rnd n stepSize (setBulletPosition bullet new) w))
        as [b'|]; [|exact IH].
      destruct IH as [Hw Hb]. split; [exact Hw|].
      rewrite Hb at 1. destruct bullet; reflexivity.
Qed.

(** X21.  A bullet older than BULLET_LIFETIME = 3000 ms is removed without
    moving and without a hit event; at exactly 3000 ms it still flies.  A
    live bullet of BULLET_SPEED is kept as it is by a tick whose
    [deltaTime] is zero. *)
Theorem updateBullet_edges (rnd : randoms) (now : Z) (deltaTime : num) (bullet : Bullet)
  (w : World) :
  (3000 < now - createdAt bullet ->
   updateBullet Math_sin rnd now deltaTime bullet w = (None, w)) /\
  (now - createdAt bullet <= 3000 ->
   updateBullet Math_sin rnd now deltaTime bullet w =
   stepBullet Math_sin rnd
     (stepCount (Math_ceil (speed bullet * deltaTime / BULLET_STEP_SIZE)))
     (speed bullet * deltaTime / Math_ceil (speed bullet * deltaTime / BULLET_STEP_SIZE))
     bullet w) /\
  (now - createdAt bullet <= 3000 -> speed bullet = BULLET_SPEED ->
   updateBullet Math_sin rnd now (lit 0) bullet w = (Some bullet, w)).
Proof.
  unfold updateBullet. change BULLET_LIFETIME with 3000. split; [|split].
  - intros H. apply Z.gtb_lt in H. rewrite H. reflexivity.
  - intros H. destruct (now - createdAt bullet >? 3000) eqn:E; [|reflexivity].
    apply Z.gtb_lt in E. lia.
  - intros H Hs. destruct (now - createdAt bullet >? 3000) eqn:E.
    + apply Z.gtb_lt in E. lia.
    + rewrite Hs. reflexivity.
Qed.

End BulletFlight.

Section BulletExamples.
Import Terrain Spatial Index Scenario.
Open Scope Z_scope.

(** The bot 1 of [Scenario.openWorld] with 20 hit points left is hit. *)
Lemma hitEntityAt_effect_witness :
  let target := setHp (bot 1 (V3 20 2 0)) 20 in
  let shot := mkBullet 0 1000 (V3 19 3 0) (V3 1 0 0) BULLET_SPEED BULLET_DAMAGE 0 in
  let w := mkWorld [(1, target); (1000, player 1000 (V3 0 2 0))] (gstate openWorld) [] O in
  exists e',
    id_get (w_entities (hitEntityAt sinTaylor half shot (V3 19 3 0) (V3 19.1 3 0) 1 target w)) 1
      = Some e' /\ hp e' = 100.
Proof.
  intros target shot w.
  destruct (@hitEntityAt_effect sinTaylor half shot (V3 19 3 0) (V3 19.1 3 0) 1 target w)
    as [[e' [H1 [H2 _]]] _].
  - reflexivity.
  - exists e'. split; [exact H1|exact H2].
Defined.

End BulletExamples.

(** ** The grid and the entity table over a run *)

Unset Implicit Arguments.

Section Filing.
Import Terrain Spatial Index.
Open Scope Z_scope.

(** The cell key under which the grid files an entity at its position. *)
Definition cellOf (p : Vector3) : cellkey := packedToString (getPackedCellKey (vx p) (vz p)).

(** The entity table and the grid agree: the entity sets and
    [entityCellsPacked] agree, every entity of the table is filed under the
    cell of its position, and nothing else is filed. *)
Record Filed (ents : idmap Entity) (gs : GridState) : Prop := mkFiled {
  filed_keys : NoDup (JsMap.keys ents);
  filed_ok : gridOK gs;
  filed_entity : forall id e, id_get ents id = Some e -> filedUnder gs id (cellOf (position e));
  filed_only : forall id k, filedUnder gs id k -> In id (JsMap.keys ents)
}.

Lemma filedUnder_update (gs : GridState) (entityId id : Z) (newPos : Vector3) (k : cellkey) :
  gridOK gs ->
  (filedUnder (updateEntityInGrid gs entityId newPos) id k <->
   if id =? entityId then k = cellOf newPos else filedUnder gs id k).
Proof.
  intros OK. destruct (@updateEntityInGrid_spec gs entityId newPos OK) as (OK' & Hme & Hother).
  rewrite <- (OK' k id). destruct (id =? entityId) eqn:E.
  - apply Z.eqb_eq in E. subst id. apply Hme.
  - apply Z.eqb_neq in E. rewrite (Hother id k E). apply OK.
Qed.

Lemma filedUnder_remove (gs : GridState) (entityId id : Z) (k : cellkey) :
  gridOK gs ->
  (filedUnder (removeEntityFromGrid gs entityId) id k <-> id <> entityId /\ filedUnder gs id k).
Proof.
  intros OK. destruct (@removeEntityFromGrid_spec gs entityId OK) as (OK' & Hme & _ & Hother).
  rewrite <- (OK' k id). destruct (Z.eq_dec id entityId) as [->|Hne].
  - split; [intros H; destruct (Hme _ H)|intros [H _]; congruence].
  - rewrite (Hother id k Hne), (OK k id). tauto.
Qed.

Lemma Filed_set_update (ents : idmap Entity) (gs : GridState) (id : Z) (e' : Entity) :
  Filed ents gs ->
  Filed (id_set ents id e') (updateEntityInGrid gs id (position e')).
Proof.
  intros [Hnd OK Hent Honly]. constructor.
  - apply (NoDup_keys_set Z.eqb Zeqb_spec). exact Hnd.
  - exact (proj1 (@updateEntityInGrid_spec gs id (position e') OK)).
  - intros id0 e0 H0. apply (@filedUnder_update gs id id0 (position e') _ OK).
    destruct (id0 =? id) eqn:E.
    + apply Z.eqb_eq in E. subst id0. unfold id_get, id_set in H0.
      rewrite (get_set_same Z.eqb Zeqb_spec) in H0. injection H0 as <-. reflexivity.
    + apply Z.eqb_neq in E. unfold id_get, id_set in H0.
      rewrite (get_set_other Z.eqb Zeqb_spec) in H0 by congruence. exact (Hent _ _ H0).
  - intros id0 k H0. apply (@filedUnder_update gs id id0 (position e') k OK) in H0.
    apply (keys_set Z.eqb Zeqb_spec).
    destruct (id0 =? id) eqn:E.
    + apply Z.eqb_eq in E. left. exact E.
    + right. exact (Honly _ _ H0).
Qed.

Lemma Filed_set_same_position (ents : idmap Entity) (gs : GridState) (id : Z) (e e' : Entity) :
  Filed ents gs -> id_get ents id = Some e -> position e' = position e ->
  Filed (id_set ents id e') gs.
Proof.
  intros [Hnd OK Hent Honly] He Hpos. constructor.
  - apply (NoDup_keys_set Z.eqb Zeqb_spec). exact Hnd.
  - exact OK.
  - intros id0 e0 H0. destruct (Z.eq_dec id0 id) as [->|Hne].
    + unfold id_get, id_set in H0. rewrite (get_set_same Z.eqb Zeqb_spec) in H0.
      injection H0 as <-. rewrite Hpos. exact (Hent _ _ He).
    + unfold id_get, id_set in H0.
      rewrite (get_set_other Z.eqb Zeqb_spec) in H0 by congruence. exact (Hent _ _ H0).
  - intros id0 k H0. apply (keys_set Z.eqb Zeqb_spec). right. exact (Honly _ _ H0).
Qed.

Lemma Filed_delete_remove (ents : idmap Entity) (gs : GridState) (id : Z) :
  Filed ents gs -> Filed (id_delete ents id) (removeEntityFromGrid gs id).
Proof.
  intros [Hnd OK Hent Honly]. constructor.
  - apply (NoDup_keys_delete Z.eqb Zeqb_spec). exact Hnd.
  - exact (proj1 (@removeEntityFromGrid_spec gs id OK)).
  - intros id0 e0 H0. apply (@filedUnder_remove gs id id0 _ OK).
    destruct (Z.eq_dec id0 id) as [->|Hne].
    + unfold id_get, id_delete in H0. rewrite (get_delete_same Z.eqb) in H0. discriminate.
    + unfold id_get, id_delete in H0.
      rewrite (get_delete_other Z.eqb Zeqb_spec) in H0 by congruence.
      split; [exact Hne|exact (Hent _ _ H0)].
  - intros id0 k H0. apply (@filedUnder_remove gs id id0 k OK) in H0. destruct H0 as [Hne H0].
    apply (keys_delete Z.eqb Zeqb_spec). split; [exact Hne|exact (Honly _ _ H0)].
Qed.

(** Filing the selected entries of a table, each under the cell of its
    position: the loop of [initializeWorld] and the second loop of
    [gameTick]. *)
Definition fileStep (sel : Entity -> bool) (gs : GridState) (entry : Z * Entity) : GridState :=
  if sel (snd entry) then updateEntityInGrid gs (fst entry) (position (snd entry)) else gs.

Lemma file_fold (sel : Entity -> bool) (l : idmap Entity) :
  forall gs, NoDup (JsMap.keys l) -> gridOK gs ->
    gridOK (fold_left (fileStep sel) l gs) /\
    (forall id k,
       filedUnder (fold_left (fileStep sel) l gs) id k <->
       (exists e, In (id, e) l /\ sel e = true /\ k = cellOf (position e)) \/
       ((forall e, In (id, e) l -> sel e = false) /\ filedUnder gs id k)).
Proof.
  induction l as [|[id0 e0] rest IH]; intros gs Hnd OK; cbn [fold_left].
  - split; [exact OK|]. intros id k. split.
    + intros H. right. split; [intros e []|exact H].
    + intros [[e [[] _]]|[_ H]]. exact H.
  - cbn [JsMap.keys map fst] in Hnd. inversion Hnd as [|? ? Hnotin Hnd']; subst.
    assert (OK1 : gridOK (fileStep sel gs (id0, e0))).
    { unfold fileStep. cbn [fst snd]. destruct (sel e0); [|exact OK].
      exact (proj1 (@updateEntityInGrid_spec gs id0 (position e0) OK)). }
    destruct (IH _ Hnd' OK1) as [OK' H]. split; [exact OK'|].
    intros id k. rewrite H. clear H.
    assert (Hrest : forall e, In (id0, e) rest -> False).
    { intros e Hin. apply Hnotin. apply (in_map fst) in Hin. exact Hin. }
    assert (H1 : filedUnder (fileStep sel gs (id0, e0)) id k <->
                 if sel e0 then (if id =? id0 then k = cellOf (position e0)
                                 else filedUnder gs id k)
                 else filedUnder gs id k).
    { unfold fileStep. cbn [fst snd]. destruct (sel e0); [|tauto].
      apply (@filedUnder_update gs id0 id (position e0) k OK). }
    rewrite H1. clear H1. cbn [In]. split.
    + intros [[e [Hin [Hs Hk]]]|[Hall Hf]]; [left; exists e; tauto|].
      destruct (sel e0) eqn:Es.
      * destruct (id =? id0) eqn:E.
        -- apply Z.eqb_eq in E. subst id. left. exists e0. tauto.
        -- apply Z.eqb_neq in E. right. split; [|exact Hf].
           intros e [Heq|Hin]; [injection Heq as -> ->; congruence|exact (Hall _ Hin)].
      * right. split; [|exact Hf].
        intros e [Heq|Hin]; [injection Heq as _ <-; exact Es|exact (Hall _ Hin)].
    + intros [[e [[Heq|Hin] [Hs Hk]]]|[Hall Hf]].
      * injection Heq as <- <-. right. split; [intros e Hin; destruct (Hrest _ Hin)|].
        rewrite Hs, Z.eqb_refl. exact Hk.
      * left. exists e. tauto.
      * right. split; [intros e Hin; apply Hall; right; exact Hin|].
        destruct (sel e0) eqn:Es; [|exact Hf].
        destruct (id =? id0) eqn:E; [|exact Hf].
        apply Z.eqb_eq in E. subst id.
        specialize (Hall e0 (or_introl eq_refl)). congruence.
Qed.

Lemma In_get (ents : idmap Entity) (id : Z) (e : Entity) :
  NoDup (JsMap.keys ents) -> (In (id, e) ents <-> id_get ents id = Some e).
Proof.
  intros Hnd. split.
  - apply (In_get_NoDup Z.eqb Zeqb_spec). exact Hnd.
  - apply (get_Some_In Z.eqb Zeqb_spec).
Qed.

(** Filing every selected entity of the table restores the agreement when
    the others were filed already. *)
Lemma Filed_file_fold (sel : Entity -> bool) (ents : idmap Entity) (gs : GridState) :
  NoDup (JsMap.keys ents) -> gridOK gs ->
  (forall id e, id_get ents id = Some e -> sel e = false ->
                filedUnder gs id (cellOf (position e))) ->
  (forall id k, filedUnder gs id k -> In id (JsMap.keys ents)) ->
  Filed ents (fold_left (fileStep sel) ents gs).
Proof.
  intros Hnd OK Hunsel Honly. destruct (file_fold sel ents gs Hnd OK) as [OK' H].
  constructor; [exact Hnd|exact OK'| |].
  - intros id e He. apply H. destruct (sel e) eqn:Es.
    + left. exists e. split; [apply (In_get _ _ _ Hnd); exact He|tauto].
    + right. split; [|exact (Hunsel _ _ He Es)].
      intros e' Hin. apply (In_get _ _ _ Hnd) in Hin. congruence.
  - intros id k Hf. apply H in Hf. destruct Hf as [[e [Hin _]]|[_ Hf]].
    + apply (in_map fst) in Hin. exact Hin.
    + exact (Honly _ _ Hf).
Qed.

End Filing.

Section FiledPhases.
Import Terrain Spatial Index.
Open Scope Z_scope.
Variables Math_sin Math_cos : num -> num.

(** The agreement in a server state. *)
Definition FiledIn (s : ServerState) : Prop := Filed (entities s) (gstate s).

(** What the first loop of [gameTick] does to an entry of the table. *)
Definition botMoved (old new : Z * Entity) : Prop :=
  fst new = fst old /\ isPlayer (snd new) = isPlayer (snd old) /\
  (isPlayer (snd old) = true -> snd new = snd old).

Lemma botsUpdate_entries (deltaTime : num) (gs : GridState) (l : idmap Entity) :
  forall acc, exists l',
    fst (fold_left (botStep Math_sin Math_cos deltaTime gs) l acc) = fst acc ++ l' /\
    Forall2 botMoved l l'.
Proof.
  induction l as [|[id e] rest IH]; intros acc; cbn [fold_left].
  - exists []. rewrite app_nil_r. split; [reflexivity|constructor].
  - assert (Hstep : exists e', fst (botStep Math_sin Math_cos deltaTime gs acc (id, e))
                               = fst acc ++ [(id, e')] /\ botMoved (id, e) (id, e')).
    { unfold botStep. cbn [fst snd]. destruct (isPlayer e) eqn:Ep; cbn [negb fst snd].
      - exists e. split; [reflexivity|]. unfold botMoved. cbn. tauto.
      - exists (fst (Bots.updateBot Math_sin Math_cos e deltaTime gs (snd acc))).
        split; [reflexivity|]. unfold botMoved. cbn [fst snd].
        pose proof (updateBot_spec Math_sin Math_cos e deltaTime gs (snd acc)) as Hk.
        cbn zeta in Hk. destruct Hk as (_ & Hp & _). rewrite Hp, Ep.
        split; [reflexivity|]. split; [reflexivity|discriminate]. }
    destruct Hstep as [e' [Hs Hm]].
    destruct (IH (botStep Math_sin Math_cos deltaTime gs acc (id, e))) as [l' [H1 H2]].
    exists ((id, e') :: l'). split.
    + rewrite H1, Hs, <- app_assoc. reflexivity.
    + constructor; assumption.
Qed.

Lemma Forall2_botMoved_keys (l l' : idmap Entity) :
  Forall2 botMoved l l' -> JsMap.keys l' = JsMap.keys l.
Proof.
  induction 1 as [|old new l l' [Hk _] _ IH]; [reflexivity|].
  unfold JsMap.keys in *. cbn [map]. rewrite Hk, IH. reflexivity.
Qed.

Lemma Forall2_botMoved_player (l l' : idmap Entity) (id : Z) (e : Entity) :
  Forall2 botMoved l l' -> In (id, e) l' -> isPlayer e = true -> In (id, e) l.
Proof.
  induction 1 as [|old new l l' [Hk [Hp Hsame]] _ IH]; intros Hin He; [destruct Hin|].
  destruct Hin as [->|Hin]; [|right; exact (IH Hin He)].
  left. cbn [fst snd] in *. destruct old as [id0 e0]. cbn [fst snd] in *.
  rewrite He in Hp. rewrite (Hsame (eq_sym Hp)), Hk. reflexivity.
Qed.

Lemma bots_phase (deltaTime : num) (s : ServerState) :
  FiledIn s -> FiledIn (botsGridUpdate (botsUpdate Math_sin Math_cos deltaTime s)).
Proof.
  intros [Hnd OK Hent Honly]. unfold FiledIn, botsGridUpdate, botsUpdate. fields.
  destruct (botsUpdate_entries deltaTime (gstate s) (entities s) ([], rngState s))
    as [l' [H1 H2]]. cbn [fst List.app] in H1. rewrite H1.
  pose proof (Forall2_botMoved_keys _ _ H2) as Hk.
  change (fold_left botGridStep l' (gstate s))
    with (fold_left (fileStep (fun e => negb (isPlayer e))) l' (gstate s)).
  apply Filed_file_fold.
  - rewrite Hk. exact Hnd.
  - exact OK.
  - intros id e He Hs. apply negb_false_iff in Hs.
    apply Hent. apply (In_get _ _ _ Hnd).
    apply (Forall2_botMoved_player _ _ _ _ H2); [|exact Hs].
    apply (get_Some_In Z.eqb Zeqb_spec). exact He.
  - intros id k Hf. rewrite Hk. exact (Honly _ _ Hf).
Qed.

Lemma movePlayer_Filed (deltaTime : num) (client : ClientConnection)
  (w : idmap Entity * GridState) :
  Filed (fst w) (snd w) ->
  Filed (fst (movePlayer Math_sin deltaTime client w))
        (snd (movePlayer Math_sin deltaTime client w)).
Proof.
  destruct w as [ents gs]. cbn [fst snd]. intros F. unfold movePlayer.
  destruct (id_get ents (c_id client)) as [entity|]; [|exact F].
  destruct (_ || _); [|exact F].
  destruct (slide gs (position entity) _ _) as [finalX finalZ].
  destruct (_ || _); [|exact F].
  cbn [fst snd].
  exact (Filed_set_update ents gs (c_id client)
           (setPosition entity (mkVector3 finalX (Terrain.getHeightAt Math_sin finalX finalZ) finalZ))
           F).
Qed.

Lemma players_phase (deltaTime : num) (s : ServerState) :
  FiledIn s -> FiledIn (playersUpdate Math_sin deltaTime s).
Proof.
  intros F. unfold FiledIn, playersUpdate. fields.
  assert (H : forall l w, Filed (fst w) (snd w) ->
                Filed (fst (fold_left (playerStep Math_sin deltaTime) l w))
                      (snd (fold_left (playerStep Math_sin deltaTime) l w))).
  { induction l as [|entry rest IH]; intros w Fw; cbn [fold_left]; [exact Fw|].
    apply IH. unfold playerStep. apply movePlayer_Filed. exact Fw. }
  apply (H (clients s) (entities s, gstate s)). exact F.
Qed.

Lemma bulletsSpawn_world (now : Z) (s : ServerState) :
  entities (bulletsSpawn Math_sin Math_cos now s) = entities s /\
  gstate (bulletsSpawn Math_sin Math_cos now s) = gstate s.
Proof.
  unfold bulletsSpawn.
  assert (H : forall l s', entities (fold_left (spawnFor Math_sin Math_cos now) l s') = entities s'
                           /\ gstate (fold_left (spawnFor Math_sin Math_cos now) l s') = gstate s').
  { induction l as [|[ws client] rest IH]; intros s'; cbn [fold_left]; [tauto|].
    destruct (IH (spawnFor Math_sin Math_cos now s' (ws, client))) as [-> ->].
    unfold spawnFor. destruct (mayFire now client); [|tauto].
    destruct (id_get (entities s') (c_id client)); [|tauto]. fields. tauto. }
  apply H.
Qed.

Lemma hitEntityAt_Filed (rnd : randoms) (bullet : Bullet) (prev new : Vector3) (id : Z)
  (entity : Entity) (w : World) :
  Filed (w_entities w) (w_gstate w) -> id_get (w_entities w) id = Some entity ->
  Filed (w_entities (hitEntityAt Math_sin rnd bullet prev new id entity w))
        (w_gstate (hitEntityAt Math_sin rnd bullet prev new id entity w)).
Proof.
  intros F He. unfold hitEntityAt. cbn zeta. destruct (_ <=? _); cbn [w_entities w_gstate].
  - match goal with
    | |- Filed (id_set _ _ (setPosition ?e ?p)) _ =>
        exact (Filed_set_update (w_entities w) (w_gstate w) id (setPosition e p) F)
    end.
  - apply (Filed_set_same_position (w_entities w) (w_gstate w) id entity); [exact F|exact He|].
    reflexivity.
Qed.

Lemma stepBullet_Filed (rnd : randoms) (steps : nat) (stepSize : num) :
  forall (bullet : Bullet) (w : World),
    Filed (w_entities w) (w_gstate w) ->
    Filed (w_entities (snd (stepBullet Math_sin rnd steps stepSize bullet w)))
          (w_gstate (snd (stepBullet Math_sin rnd steps stepSize bullet w))).
Proof.
  induction steps as [|n IH]; intros bullet w F; cbn [stepBullet]; [exact F|].
  cbn zeta. destruct (_ >=? _).
  - destruct (id_get (w_entities w) _) as [entity|] eqn:He; cbn [snd]; [|exact F].
    apply hitEntityAt_Filed; assumption.
  - destruct (checkObstacleAt _ _ _ _); [exact F|].
    destruct (_ || _); [exact F|]. apply IH. exact F.
Qed.

Lemma updateBullets_Filed (rnd : randoms) (now : Z) (deltaTime : num) (bs : list Bullet)
  (w : World) :
  Filed (w_entities w) (w_gstate w) ->
  Filed (w_entities (snd (updateBullets Math_sin rnd now deltaTime bs w)))
        (w_gstate (snd (updateBullets Math_sin rnd now deltaTime bs w))).
Proof.
  intros F. unfold updateBullets. induction bs as [|b rest IH]; cbn [fold_right]; [exact F|].
  unfold bulletStep at 1 3.
  set (acc := fold_right _ _ rest) in *.
  assert (H : Filed (w_entities (snd (updateBullet Math_sin rnd now deltaTime b (snd acc))))
                    (w_gstate (snd (updateBullet Math_sin rnd now deltaTime b (snd acc))))).
  { unfold updateBullet. destruct (_ >? _); [exact IH|]. apply stepBullet_Filed. exact IH. }
  destruct (fst (updateBullet Math_sin rnd now deltaTime b (snd acc))); exact H.
Qed.

Lemma bullets_phase (rnd : randoms) (now : Z) (deltaTime : num) (s : ServerState) :
  FiledIn s -> FiledIn (bulletsUpdate Math_sin rnd now deltaTime s).
Proof.
  intros F. unfold FiledIn, bulletsUpdate. fields.
  apply (updateBullets_Filed rnd now deltaTime (bullets s)
           (mkWorld (entities s) (gstate s) (tickHitEvents s) O)).
  exact F.
Qed.

(** The sending loop changes nothing but the grace maps. *)
Lemma broadcast_only_grace (B : ServerState) :
  fst (broadcast B) = with_grace B (recentlyVisibleEntities (fst (broadcast B))).
Proof.
  unfold broadcast.
  assert (H : forall l acc,
            fst acc = with_grace B (recentlyVisibleEntities (fst acc)) ->
            fst (fold_left sendStep l acc) =
            with_grace B (recentlyVisibleEntities (fst (fold_left sendStep l acc)))).
  { induction l as [|[ws client] rest IH]; intros acc Hacc; cbn [fold_left]; [exact Hacc|].
    apply IH. unfold sendStep, broadcastTo.
    destruct (id_get (entities (fst acc)) (c_id client)) as [entity|].
    - destruct (applyGrace _ _ _) as [ids gm].
      destruct (buildEntities _ _); cbn [fst snd]; rewrite Hacc at 1; reflexivity.
    - cbn [fst snd]. exact Hacc. }
  apply H. cbn [fst]. destruct B. reflexivity.
Qed.

Lemma broadcast_Filed (B : ServerState) : FiledIn B -> FiledIn (fst (broadcast B)).
Proof.
  intros F. rewrite broadcast_only_grace. exact F.
Qed.

Lemma spawn_phase (now : Z) (s : ServerState) :
  FiledIn s -> FiledIn (bulletsSpawn Math_sin Math_cos now s).
Proof.
  intros F. unfold FiledIn. destruct (bulletsSpawn_world now s) as [-> ->]. exact F.
Qed.

Lemma with_hits_Filed (s : ServerState) (hits : list HitEvent) :
  FiledIn s -> FiledIn (with_hits s hits).
Proof. intros F. exact F. Qed.

Lemma with_lastTime_Filed (s : ServerState) (now : Z) :
  FiledIn s -> FiledIn (with_lastTime s now).
Proof. intros F. exact F. Qed.

Lemma beforeBroadcast_Filed (now : Z) (rnd : randoms) (s : ServerState) :
  FiledIn s -> FiledIn (beforeBroadcast Math_sin Math_cos now rnd s).
Proof.
  intros F. unfold beforeBroadcast. cbn zeta.
  apply bullets_phase. apply spawn_phase. apply with_hits_Filed.
  apply players_phase. apply bots_phase. apply with_lastTime_Filed. exact F.
Qed.

Lemma tick_Filed (now : Z) (rnd : randoms) (s : ServerState) :
  FiledIn s -> FiledIn (fst (gameTick Math_sin Math_cos now rnd s)).
Proof.
  intros F. rewrite gameTick_eq. apply broadcast_Filed. apply beforeBroadcast_Filed. exact F.
Qed.

End FiledPhases.

Section ReachableStates.
Import Terrain Spatial Index.
Open Scope Z_scope.
Variables Math_sin Math_cos : num -> num.

Lemma open_Filed (ws now : Z) (r1 r2 : num) (s : ServerState) :
  FiledIn s -> FiledIn (open Math_sin ws now r1 r2 s).
Proof.
  intros F. unfold FiledIn, open, startGameLoop. cbn zeta. fields.
  match goal with
  | |- Filed (entities (if ?c then ?a else ?b)) _ =>
      assert (He : entities (if c then a else b) = entities a) by (destruct c; reflexivity);
      assert (Hg : gstate (if c then a else b) = gstate a) by (destruct c; reflexivity)
  end.
  rewrite He, Hg. fields.
  match goal with
  | |- Filed (id_set _ ?id ?e) _ => exact (Filed_set_update (entities s) (gstate s) id e F)
  end.
Qed.

Lemma close_Filed (ws : Z) (s : ServerState) : FiledIn s -> FiledIn (close ws s).
Proof.
  intros F. unfold FiledIn, close.
  destruct (id_get (clients s) ws) as [client|]; [|exact F]. cbn zeta.
  match goal with
  | |- Filed (entities (if ?c then stopGameLoop ?a else ?a)) _ =>
      assert (He : entities (if c then stopGameLoop a else a) = entities a)
        by (unfold stopGameLoop; destruct c; [destruct (running a)|]; reflexivity);
      assert (Hg : gstate (if c then stopGameLoop a else a) = gstate a)
        by (unfold stopGameLoop; destruct c; [destruct (running a)|]; reflexivity)
  end.
  rewrite He, Hg. fields. apply Filed_delete_remove. exact F.
Qed.

Lemma message_Filed (ws : Z) (buf : Protocol.buffer) (s : ServerState) :
  FiledIn s -> FiledIn (message ws buf s).
Proof.
  intros F. unfold FiledIn, message.
  destruct (id_get (clients s) ws) as [client|]; [|exact F].
  destruct (Protocol.getUint8 buf 0); [|exact F].
  destruct (_ =? Protocol.MSG_INPUT).
  - destruct (Protocol.decodeInput buf) as [input|]; [|exact F]. fields.
    destruct (id_get (entities s) (c_id client)) as [entity|] eqn:He; [|exact F]. fields.
    apply (Filed_set_same_position (entities s) (gstate s) (c_id client) entity);
      [exact F|exact He|reflexivity].
  - destruct (_ =? Protocol.MSG_SHOOT).
    + destruct (Protocol.decodeShoot buf); exact F.
    + destruct (_ =? Protocol.MSG_TOGGLE_MODE); [|exact F].
      destruct (Protocol.decodeToggleMode buf); exact F.
Qed.

Lemma createBots_NoDup (count : nat) (rnd : randoms) :
  NoDup (JsMap.keys (Bots.createBots Math_sin count rnd)).
Proof.
  unfold Bots.createBots, JsMap.keys. rewrite map_map. cbn [fst].
  generalize 0%nat. induction count as [|n IH]; intros start; cbn [seq map]; constructor.
  - intros Hin. apply in_map_iff in Hin. destruct Hin as [i [Hi Hin]].
    apply Nat2Z.inj in Hi. subst i. apply in_seq in Hin. lia.
  - apply IH.
Qed.

Lemma initializeWorld_Filed (terrain : list Obstacle) (rnd : randoms) (seed loadTime : Z) :
  FiledIn (initializeWorld Math_sin terrain rnd seed loadTime).
Proof.
  unfold FiledIn, initializeWorld. cbn zeta. fields.
  match goal with
  | |- Filed ?bots (fold_left _ ?bots ?gs0) =>
      change (Filed bots (fold_left (fileStep (fun _ => true)) bots gs0))
  end.
  apply Filed_file_fold.
  - apply createBots_NoDup.
  - apply createSpatialGrid_gridOK.
  - intros id e _ H. discriminate.
  - intros id k [p [Hp _]]. discriminate.
Qed.

(** The loop runs exactly while a client is connected. *)
Definition loopMatchesClients (s : ServerState) : Prop :=
  running s = true <-> clients s <> [].

Lemma message_running (ws : Z) (buf : Protocol.buffer) (s : ServerState) :
  running (message ws buf s) = running s.
Proof.
  unfold message.
  destruct (id_get (clients s) ws) as [client|]; [|reflexivity].
  destruct (Protocol.getUint8 buf 0); [|reflexivity].
  destruct (_ =? Protocol.MSG_INPUT).
  - destruct (Protocol.decodeInput buf) as [input|]; [|reflexivity]. fields.
    destruct (id_get (entities s) (c_id client)); reflexivity.
  - destruct (_ =? Protocol.MSG_SHOOT).
    + destruct (Protocol.decodeShoot buf); reflexivity.
    + destruct (_ =? Protocol.MSG_TOGGLE_MODE); [|reflexivity].
      destruct (Protocol.decodeToggleMode buf); reflexivity.
Qed.

Lemma tags_nil (a b : idmap ClientConnection) :
  map clientTag a = map clientTag b -> (a <> [] <-> b <> []).
Proof. destruct a, b; cbn; intros H; try discriminate; split; congruence. Qed.

Lemma set_not_nil {V : Type} (m : idmap V) (k : Z) (v : V) : id_set m k v <> [].
Proof. unfold id_set. destruct m as [|[k0 v0] r]; cbn; [discriminate|]. destruct (k0 =? k); discriminate. Qed.

Lemma step_invariants (s : ServerState) (prev : option ServerState) (ev : Event) :
  history Math_sin Math_cos s prev -> loopMatchesClients s -> FiledIn s ->
  exists prev',
    history Math_sin Math_cos (step Math_sin Math_cos s ev) prev' /\
    loopMatchesClients (step Math_sin Math_cos s ev) /\
    FiledIn (step Math_sin Math_cos s ev).
Proof.
  intros Hh Hrun F.
  pose proof (proj1 (@history_inv Math_sin Math_cos s prev Hh)) as W.
  destruct ev as [ws now r1 r2|ws buf|ws|now rnd].
  - exists prev. split; [apply hist_socket; [exact Hh|reflexivity]|].
    cbn [step]. destruct (id_has (clients s) ws); [tauto|].
    split; [|apply open_Filed; exact F].
    unfold loopMatchesClients, open, startGameLoop. cbn zeta.
    match goal with
    | |- running (if ?c then ?a else ?b) = true <-> _ =>
        assert (Hr : running (if c then a else b) = true)
          by (destruct c eqn:E; [exact E|reflexivity]);
        assert (Hc : clients (if c then a else b) = clients a) by (destruct c; reflexivity)
    end.
    rewrite Hr, Hc. fields. split; [intros _; apply set_not_nil|reflexivity].
  - exists prev. split; [apply hist_socket; [exact Hh|reflexivity]|].
    cbn [step]. split; [|apply message_Filed; exact F].
    unfold loopMatchesClients. rewrite message_running.
    destruct (@message_shape ws buf s W) as (_ & Ht & _).
    rewrite (tags_nil _ _ Ht). exact Hrun.
  - exists prev. split; [apply hist_socket; [exact Hh|reflexivity]|].
    cbn [step]. split; [|apply close_Filed; exact F].
    unfold loopMatchesClients, close.
    destruct (id_get (clients s) ws) as [client|] eqn:Hc; [|exact Hrun]. cbn zeta.
    assert (Hne : clients s <> []) by (intros E; rewrite E in Hc; discriminate).
    apply Hrun in Hne. fields. unfold JsMap.size, stopGameLoop. fields. rewrite Hne.
    destruct (id_delete (clients s) ws) as [|c0 rest] eqn:Ed; cbn [List.length Z.of_nat].
    + cbn. fields. split; [discriminate|congruence].
    + destruct (Z.of_nat (S (List.length rest)) =? 0) eqn:E; [apply Z.eqb_eq in E; lia|].
      fields. split; [discriminate|intros _; exact Hne].
  - cbn [step]. destruct (running s) eqn:Er.
    + exists (Some (beforeBroadcast Math_sin Math_cos now rnd s)).
      split; [pose proof (@hist_tick Math_sin Math_cos s prev now rnd Hh Er) as Ht;
              cbn [step] in Ht; rewrite Er in Ht; exact Ht|].
      split; [|apply tick_Filed; exact F].
      destruct (@gameTick_fire Math_sin Math_cos now rnd s W) as (_ & Hr & Hc & _).
      unfold loopMatchesClients in *. rewrite Hr, Hc.
      destruct (clients s); cbn [map]; [exact Hrun|].
      split; [discriminate|]. intros _. apply Hrun. discriminate.
    + exists prev. split; [|tauto].
      exact Hh.
Qed.

Lemma reachable_invariants (s : ServerState) :
  reachable Math_sin Math_cos s ->
  exists prev, history Math_sin Math_cos s prev /\ loopMatchesClients s /\ FiledIn s.
Proof.
  induction 1 as [terrain rnd seed loadTime|s ev Hr (prev & Hh & Hrun & F)].
  - exists None. split; [apply hist_init|]. split; [|apply initializeWorld_Filed].
    unfold loopMatchesClients, initializeWorld. cbn zeta. fields.
    split; [discriminate|intros H; destruct (H eq_refl)].
  - exact (step_invariants s prev ev Hh Hrun F).
Qed.

(** X22.  In every state a run of the server reaches, the sockets of the
    clients are distinct and so are their ids; every client has its entity
    in the table; every entity id is below the player id counter; a grace
    map belongs to a client and its counters are at most 1; and the game
    loop runs exactly while a client is connected. *)
Theorem reachable_bookkeeping (s : ServerState) :
  reachable Math_sin Math_cos s ->
  WF s /\ (running s = true <-> clients s <> []).
Proof.
  intros H. destruct (reachable_invariants s H) as (prev & Hh & Hrun & _).
  split; [exact (proj1 (@history_inv Math_sin Math_cos s prev Hh))|exact Hrun].
Qed.

(** X23.  In every state a run of the server reaches, the ids of the entity
    table are distinct, every entity of the table is in the entity set of
    exactly one cell of the grid, the cell that [packedToString] names for
    the packed key of its position, and the entity sets hold no id that is
    not in the table. *)
Theorem reachable_grid_consistent (s : ServerState) :
  reachable Math_sin Math_cos s ->
  NoDup (JsMap.keys (entities s)) /\
  (forall id e, id_get (entities s) id = Some e ->
     forall k, inCell (cells (grid (gstate s))) k id <->
               k = packedToString (getPackedCellKey (vx (position e)) (vz (position e)))) /\
  (forall id k, inCell (cells (grid (gstate s))) k id -> In id (JsMap.keys (entities s))).
Proof.
  intros H. destruct (reachable_invariants s H) as (prev & _ & _ & [Hnd OK Hent Honly]).
  split; [exact Hnd|]. split.
  - intros id e He k. rewrite (OK k id).
    change (packedToString (getPackedCellKey (vx (position e)) (vz (position e))))
      with (cellOf (position e)).
    pose proof (Hent id e He) as [p' [Hp' Hk']]. split.
    + intros [p [Hp <-]]. rewrite <- Hk'. congruence.
    + intros ->. exists p'. tauto.
  - intros id k Hin. apply OK in Hin. exact (Honly _ _ Hin).
Qed.

End ReachableStates.

Section ReachableExamples.
Import Terrain Spatial Index Scenario.
Open Scope Z_scope.

Lemma bootOpened_reachable : reachable sinTaylor cosTaylor bootOpened.
Proof.
  exact (@reach_step sinTaylor cosTaylor _ (Open 7 0 (lit 0.5) (lit 0.5))
           (@reach_init sinTaylor cosTaylor [] half 1 0)).
Qed.

Lemma bootOpened_WF : WF bootOpened.
Proof.
  destruct (reachable_invariants sinTaylor cosTaylor bootOpened bootOpened_reachable)
    as (prev & Hh & _).
  exact (proj1 (@history_inv sinTaylor cosTaylor bootOpened prev Hh)).
Qed.

(** [Scenario.bootOpened]: the 600 bots and one player. *)
Lemma reachable_bookkeeping_witness :
  WF bootOpened /\ (running bootOpened = true <-> clients bootOpened <> []).
Proof. exact (reachable_bookkeeping sinTaylor cosTaylor bootOpened bootOpened_reachable). Defined.

Lemma reachable_grid_consistent_witness :
  NoDup (JsMap.keys (entities bootOpened)) /\
  (forall id e, id_get (entities bootOpened) id = Some e ->
     forall k, inCell (cells (grid (gstate bootOpened))) k id <->
               k = packedToString (getPackedCellKey (vx (position e)) (vz (position e)))) /\
  (forall id k, inCell (cells (grid (gstate bootOpened))) k id ->
                In id (JsMap.keys (entities bootOpened))).
Proof.
  exact (reachable_grid_consistent sinTaylor cosTaylor bootOpened bootOpened_reachable).
Defined.

End ReachableExamples.

(** ** Connecting and disconnecting *)

Section Sockets.
Import Terrain Spatial Index.
Open Scope Z_scope.
Variable Math_sin : num -> num.

Lemma delete_absent {V : Type} (m : idmap V) (k : Z) :
  ~ In k (JsMap.keys m) -> id_delete m k = m.
Proof.
  unfold id_delete, JsMap.delete.
  induction m as [|[k0 v0] rest IH]; cbn; intros Hn; [reflexivity|].
  destruct (k0 =? k) eqn:E.
  - apply Z.eqb_eq in E. exfalso. apply Hn. left. exact E.
  - cbn. f_equal. apply IH. intros H. apply Hn. right. exact H.
Qed.

Lemma delete_set_absent {V : Type} (m : idmap V) (k : Z) (v : V) :
  ~ In k (JsMap.keys m) -> id_delete (id_set m k v) k = m.
Proof.
  intros Hn. rewrite (@set_absent V m k v).
  - unfold id_delete, JsMap.delete. rewrite filter_app. cbn. rewrite Z.eqb_refl. cbn.
    rewrite app_nil_r. exact (delete_absent m k Hn).
  - destruct (id_has m k) eqn:E; [|reflexivity].
    apply (has_keys Z.eqb Zeqb_spec) in E. contradiction.
Qed.

Lemma fresh_id (s : ServerState) :
  WF s ->
  ~ In (playerIdCounter s) (JsMap.keys (entities s)) /\
  ~ In (playerIdCounter s) (JsMap.keys (recentlyVisibleEntities s)).
Proof.
  intros W. split.
  - intros H. pose proof (wf_entity_ids W _ H). lia.
  - intros H. apply in_map_iff in H. destruct H as [[cid gm] [Hk Hin]]. cbn in Hk. subst cid.
    pose proof (wf_entity_ids W _ (wf_client_entity W _ (wf_grace_client W _ _ Hin))). lia.
Qed.

Lemma stop_fields (c : bool) (a : ServerState) :
  entities (if c then stopGameLoop a else a) = entities a /\
  clients (if c then stopGameLoop a else a) = clients a /\
  recentlyVisibleEntities (if c then stopGameLoop a else a) = recentlyVisibleEntities a /\
  bullets (if c then stopGameLoop a else a) = bullets a /\
  playerIdCounter (if c then stopGameLoop a else a) = playerIdCounter a.
Proof. unfold stopGameLoop. destruct c; [destruct (running a)|]; repeat split. Qed.

Lemma start_fields (now : Z) (a : ServerState) :
  entities (startGameLoop now a) = entities a /\
  clients (startGameLoop now a) = clients a /\
  recentlyVisibleEntities (startGameLoop now a) = recentlyVisibleEntities a /\
  bullets (startGameLoop now a) = bullets a /\
  playerIdCounter (startGameLoop now a) = playerIdCounter a /\
  running (startGameLoop now a) = true.
Proof.
  unfold startGameLoop. destruct (running a) eqn:E; repeat split. exact E.
Qed.

(** The entity [open] creates. *)
Definition newPlayer (playerId : Z) (r1 r2 : num) : Entity :=
  let x := ((r1 - lit 0.5) * lit 100)%num in
  let z := ((r2 - lit 0.5) * lit 100)%num in
  mkEntity playerId (mkVector3 x (Terrain.getHeightAt Math_sin x z) z)
           (mkVector3 (lit 0) (lit 0) (lit 0)) (lit 0) (lit 0) true 100 100.

Lemma open_fields (ws now : Z) (r1 r2 : num) (s : ServerState) :
  entities (open Math_sin ws now r1 r2 s) =
    id_set (entities s) (playerIdCounter s) (newPlayer (playerIdCounter s) r1 r2) /\
  clients (open Math_sin ws now r1 r2 s) =
    id_set (clients s) ws
      (mkClient (playerIdCounter s) false VIEW_DISTANCE (mkVector2 (lit 0) (lit 0)) false 0) /\
  recentlyVisibleEntities (open Math_sin ws now r1 r2 s) = recentlyVisibleEntities s /\
  bullets (open Math_sin ws now r1 r2 s) = bullets s /\
  playerIdCounter (open Math_sin ws now r1 r2 s) = playerIdCounter s + 1 /\
  running (open Math_sin ws now r1 r2 s) = true.
Proof.
  unfold open. cbn zeta.
  match goal with
  | |- context [startGameLoop now ?a] =>
      destruct (start_fields now a) as (-> & -> & -> & -> & -> & ->)
  end.
  repeat split.
Qed.

Lemma close_fields (ws : Z) (s : ServerState) (client : ClientConnection) :
  id_get (clients s) ws = Some client ->
  entities (close ws s) = id_delete (entities s) (c_id client) /\
  clients (close ws s) = id_delete (clients s) ws /\
  recentlyVisibleEntities (close ws s) = id_delete (recentlyVisibleEntities s) (c_id client) /\
  bullets (close ws s) = bullets s /\
  playerIdCounter (close ws s) = playerIdCounter s /\
  (id_delete (clients s) ws = [] -> running (close ws s) = false).
Proof.
  intros Hc. unfold close. rewrite Hc. cbn zeta.
  match goal with
  | |- context [if ?c then stopGameLoop ?a else ?a] =>
      destruct (stop_fields c a) as (-> & -> & -> & -> & ->)
  end.
  repeat split. fields. intros E. unfold JsMap.size. rewrite E.
  cbn [List.length Z.of_nat Z.eqb]. unfold stopGameLoop. fields.
  destruct (running s) eqn:Er; fields; [reflexivity|exact Er].
Qed.

(** X24.  A socket that opens gets a client with the id the player id
    counter held, an id no entity of the table has; its entity is a player
    with 100 of 100 hit points; the client starts in classical mode with no
    movement, not shooting; the other entities and clients are as before,
    the counter is one higher and the loop runs. *)
Theorem open_connects (ws now : Z) (r1 r2 : num) (s : ServerState) :
  WF s ->
  let playerId := playerIdCounter s in
  let s' := open Math_sin ws now r1 r2 s in
  id_get (entities s) playerId = None /\
  id_get (clients s') ws =
    Some (mkClient playerId false VIEW_DISTANCE (mkVector2 (lit 0) (lit 0)) false 0) /\
  (exists e, id_get (entities s') playerId = Some e /\ e_id e = playerId /\
             isPlayer e = true /\ hp e = 100 /\ maxHp e = 100 /\
             rotation e = lit 0 /\ pitch e = lit 0) /\
  (forall id, id <> playerId -> id_get (entities s') id = id_get (entities s) id) /\
  (forall ws', ws' <> ws -> id_get (clients s') ws' = id_get (clients s) ws') /\
  playerIdCounter s' = playerId + 1 /\ running s' = true /\
  bullets s' = bullets s /\ recentlyVisibleEntities s' = recentlyVisibleEntities s.
Proof.
  intros W playerId s'. subst s' playerId.
  destruct (open_fields ws now r1 r2 s) as (-> & -> & -> & -> & -> & ->).
  split.
  { destruct (id_get (entities s) (playerIdCounter s)) eqn:E; [|reflexivity].
    apply (get_Some_keys Z.eqb Zeqb_spec) in E. destruct (proj1 (fresh_id s W) E). }
  split; [apply (get_set_same Z.eqb Zeqb_spec)|].
  split.
  { eexists. split; [apply (get_set_same Z.eqb Zeqb_spec)|]. cbn. tauto. }
  split; [intros id Hne; apply (get_set_other Z.eqb Zeqb_spec); congruence|].
  split; [intros ws' Hne; apply (get_set_other Z.eqb Zeqb_spec); congruence|].
  tauto.
Qed.

(** X25.  When the socket of a client closes, the client, its entity and
    its grace map are gone, the other clients, entities and grace maps are
    as before, and the loop stops when no client is left; closing a socket
    that has no client changes nothing. *)
Theorem close_disconnects (ws : Z) (s : ServerState) :
  (id_get (clients s) ws = None -> close ws s = s) /\
  (forall client, id_get (clients s) ws = Some client ->
     id_get (clients (close ws s)) ws = None /\
     id_get (entities (close ws s)) (c_id client) = None /\
     id_get (recentlyVisibleEntities (close ws s)) (c_id client) = None /\
     (forall ws', ws' <> ws -> id_get (clients (close ws s)) ws' = id_get (clients s) ws') /\
     (forall id, id <> c_id client ->
        id_get (entities (close ws s)) id = id_get (entities s) id /\
        id_get (recentlyVisibleEntities (close ws s)) id =
          id_get (recentlyVisibleEntities s) id) /\
     (clients (close ws s) = [] -> running (close ws s) = false) /\
     playerIdCounter (close ws s) = playerIdCounter s).
Proof.
  split; [intros H; unfold close; rewrite H; reflexivity|].
  intros client Hc.
  destruct (close_fields ws s client Hc) as (He & Hcl & Hg & _ & Hp & Hr).
  rewrite He, Hcl, Hg, Hp.
  split; [apply (get_delete_same Z.eqb)|].
  split; [apply (get_delete_same Z.eqb)|].
  split; [apply (get_delete_same Z.eqb)|].
  split; [intros ws' Hne; apply (get_delete_other Z.eqb Zeqb_spec); congruence|].
  split; [intros id Hne; split; apply (get_delete_other Z.eqb Zeqb_spec); congruence|].
  split; [exact Hr|reflexivity].
Qed.

(** X26.  Connecting and then disconnecting on a socket that had no client
    leaves the entity table, the clients and the grace maps exactly as they
    were; the player id counter is one higher, so that the id is not given
    out again. *)
Theorem connect_then_disconnect (ws now : Z) (r1 r2 : num) (s : ServerState) :
  WF s -> id_has (clients s) ws = false ->
  let s' := close ws (open Math_sin ws now r1 r2 s) in
  entities s' = entities s /\ clients s' = clients s /\
  recentlyVisibleEntities s' = recentlyVisibleEntities s /\
  bullets s' = bullets s /\ playerIdCounter s' = playerIdCounter s + 1.
Proof.
  intros W Hfresh. cbn zeta.
  destruct (open_fields ws now r1 r2 s) as (Oe & Oc & Og & Ob & Op & _).
  assert (Hc : id_get (clients (open Math_sin ws now r1 r2 s)) ws =
               Some (mkClient (playerIdCounter s) false VIEW_DISTANCE
                              (mkVector2 (lit 0) (lit 0)) false 0)).
  { rewrite Oc. apply (get_set_same Z.eqb Zeqb_spec). }
  destruct (close_fields ws (open Math_sin ws now r1 r2 s) _ Hc) as (-> & -> & -> & -> & -> & _).
  rewrite Oe, Oc, Og, Ob, Op. cbn [c_id].
  destruct (fresh_id s W) as [F1 F2].
  split; [apply delete_set_absent; exact F1|].
  split; [apply delete_set_absent; intros H; apply (has_keys Z.eqb Zeqb_spec) in H;
          unfold id_has in Hfresh; congruence|].
  split; [apply delete_absent; exact F2|]. tauto.
Qed.

End Sockets.

Section SocketExamples.
Import Terrain Spatial Index Scenario.
Open Scope Z_scope.

(** A second socket, 8, opens in [Scenario.bootOpened]. *)
Lemma open_connects_witness :
  id_get (entities bootOpened) (playerIdCounter bootOpened) = None /\
  playerIdCounter (open sinTaylor 8 40 (lit 0.25) (lit 0.75) bootOpened)
    = playerIdCounter bootOpened + 1.
Proof.
  destruct (open_connects sinTaylor 8 40 (lit 0.25) (lit 0.75) bootOpened bootOpened_WF)
    as (H1 & _ & _ & _ & _ & H2 & _).
  split; [exact H1|exact H2].
Defined.

(** Socket 8 opens and closes in [Examples.gunWorld]. *)
Lemma connect_then_disconnect_witness :
  let s' := close 8 (open sinTaylor 8 1040 (lit 0.25) (lit 0.75) Examples.gunWorld) in
  entities s' = entities Examples.gunWorld /\ clients s' = clients Examples.gunWorld /\
  recentlyVisibleEntities s' = recentlyVisibleEntities Examples.gunWorld /\
  bullets s' = bullets Examples.gunWorld /\
  playerIdCounter s' = playerIdCounter Examples.gunWorld + 1.
Proof.
  apply (connect_then_disconnect sinTaylor 8 1040 (lit 0.25) (lit 0.75) Examples.gunWorld
           gunWorld_WF).
  reflexivity.
Defined.

End SocketExamples.

(** ** The obstacles of a run *)

Section Walls.
Import Terrain Spatial Index.
Open Scope Z_scope.
Variables Math_sin Math_cos : num -> num.

(** The grid state [gs] lists the obstacles as [gs0] does. *)
Definition sameObstacles (gs0 gs : GridState) : Prop :=
  (forall k, obstaclesAt (cells (grid gs)) k = obstaclesAt (cells (grid gs0)) k) /\
  nearbyObstaclesCache gs = nearbyObstaclesCache gs0.

(** The state [s] has the obstacles of [s0]. *)
Definition sameWalls (s0 s : ServerState) : Prop :=
  obstacles s = obstacles s0 /\ sameObstacles (gstate s0) (gstate s).

Lemma sameObstacles_refl (gs : GridState) : sameObstacles gs gs.
Proof. split; reflexivity. Qed.

Lemma sameObstacles_trans (a b c : GridState) :
  sameObstacles a b -> sameObstacles b c -> sameObstacles a c.
Proof.
  intros [H1 H2] [H3 H4]. split; [|congruence]. intros k. rewrite H3. apply H1.
Qed.

Lemma sameObstacles_update (gs0 gs : GridState) (id : Z) (p : Vector3) :
  sameObstacles gs0 gs -> sameObstacles gs0 (updateEntityInGrid gs id p).
Proof.
  intros H. apply (sameObstacles_trans gs0 gs); [exact H|].
  exact (updateEntityInGrid_obstacles gs id p).
Qed.

Lemma sameObstacles_remove (gs0 gs : GridState) (id : Z) :
  sameObstacles gs0 gs -> sameObstacles gs0 (removeEntityFromGrid gs id).
Proof.
  intros H. apply (sameObstacles_trans gs0 gs); [exact H|].
  exact (removeEntityFromGrid_obstacles gs id).
Qed.

Lemma sameWalls_refl (s : ServerState) : sameWalls s s.
Proof. split; [reflexivity|apply sameObstacles_refl]. Qed.

Lemma sameWalls_trans (a b c : ServerState) :
  sameWalls a b -> sameWalls b c -> sameWalls a c.
Proof.
  intros [H1 H2] [H3 H4]. split; [congruence|].
  exact (sameObstacles_trans _ _ _ H2 H4).
Qed.

Lemma bots_walls (deltaTime : num) (s : ServerState) :
  sameWalls s (botsGridUpdate (botsUpdate Math_sin Math_cos deltaTime s)).
Proof.
  unfold sameWalls, botsGridUpdate, botsUpdate. fields. split; [reflexivity|].
  generalize (fst (fold_left (botStep Math_sin Math_cos deltaTime (gstate s)) (entities s)
                             ([], rngState s))).
  intros l.
  assert (H : forall gs, sameObstacles (gstate s) gs ->
                         sameObstacles (gstate s) (fold_left botGridStep l gs)).
  { induction l as [|[id e] rest IH]; intros gs Hgs; cbn [fold_left]; [exact Hgs|].
    apply IH. unfold botGridStep. cbn [fst snd].
    destruct (negb (isPlayer e)); [|exact Hgs].
    apply sameObstacles_update. exact Hgs. }
  apply H. apply sameObstacles_refl.
Qed.

Lemma movePlayer_walls (gs0 : GridState) (deltaTime : num) (client : ClientConnection)
  (w : idmap Entity * GridState) :
  sameObstacles gs0 (snd w) ->
  sameObstacles gs0 (snd (movePlayer Math_sin deltaTime client w)).
Proof.
  destruct w as [ents gs]. cbn [snd]. intros F. unfold movePlayer.
  destruct (id_get ents (c_id client)) as [entity|]; [|exact F].
  destruct (_ || _); [|exact F].
  destruct (slide gs (position entity) _ _) as [finalX finalZ].
  destruct (_ || _); [|exact F].
  cbn [fst snd]. apply sameObstacles_update. exact F.
Qed.

Lemma players_walls (deltaTime : num) (s : ServerState) :
  sameWalls s (playersUpdate Math_sin deltaTime s).
Proof.
  unfold sameWalls, playersUpdate. fields. split; [reflexivity|].
  assert (H : forall l w, sameObstacles (gstate s) (snd w) ->
                sameObstacles (gstate s) (snd (fold_left (playerStep Math_sin deltaTime) l w))).
  { induction l as [|entry rest IH]; intros w Fw; cbn [fold_left]; [exact Fw|].
    apply IH. unfold playerStep. apply movePlayer_walls. exact Fw. }
  apply (H (clients s) (entities s, gstate s)). apply sameObstacles_refl.
Qed.

Lemma spawn_walls (now : Z) (s : ServerState) :
  sameWalls s (bulletsSpawn Math_sin Math_cos now s).
Proof.
  unfold bulletsSpawn.
  assert (H : forall l s', sameWalls s s' ->
                sameWalls s (fold_left (spawnFor Math_sin Math_cos now) l s')).
  { induction l as [|[ws client] rest IH]; intros s' Hs'; cbn [fold_left]; [exact Hs'|].
    apply IH. unfold spawnFor. destruct (mayFire now client); [|exact Hs'].
    destruct (id_get (entities s') (c_id client)); exact Hs'. }
  apply H. apply sameWalls_refl.
Qed.

Lemma hitEntityAt_walls (gs0 : GridState) (rnd : randoms) (bullet : Bullet)
  (prev new : Vector3) (id : Z) (entity : Entity) (w : World) :
  sameObstacles gs0 (w_gstate w) ->
  sameObstacles gs0 (w_gstate (hitEntityAt Math_sin rnd bullet prev new id entity w)).
Proof.
  intros F. unfold hitEntityAt. cbn zeta. destruct (_ <=? _); cbn [w_gstate]; [|exact F].
  apply sameObstacles_update. exact F.
Qed.

Lemma stepBullet_walls (gs0 : GridState) (rnd : randoms) (steps : nat) (stepSize : num) :
  forall (bullet : Bullet) (w : World),
    sameObstacles gs0 (w_gstate w) ->
    sameObstacles gs0 (w_gstate (snd (stepBullet Math_sin rnd steps stepSize bullet w))).
Proof.
  induction steps as [|n IH]; intros bullet w F; cbn [stepBullet]; [exact F|].
  cbn zeta. destruct (_ >=? _).
  - destruct (id_get (w_entities w) _) as [entity|]; cbn [snd]; [|exact F].
    apply hitEntityAt_walls. exact F.
  - destruct (checkObstacleAt _ _ _ _); [exact F|].
    destruct (_ || _); [exact F|]. apply IH. exact F.
Qed.

Lemma updateBullets_walls (gs0 : GridState) (rnd : randoms) (now : Z) (deltaTime : num)
  (bs : list Bullet) (w : World) :
  sameObstacles gs0 (w_gstate w) ->
  sameObstacles gs0 (w_gstate (snd (updateBullets Math_sin rnd now deltaTime bs w))).
Proof.
  intros F. unfold updateBullets. induction bs as [|b rest IH]; cbn [fold_right]; [exact F|].
  unfold bulletStep at 1.
  set (acc := fold_right _ _ rest) in *.
  assert (H : sameObstacles gs0
                (w_gstate (snd (updateBullet Math_sin rnd now deltaTime b (snd acc))))).
  { unfold updateBullet. destruct (_ >? _); [exact IH|]. apply stepBullet_walls. exact IH. }
  destruct (fst (updateBullet Math_sin rnd now deltaTime b (snd acc))); exact H.
Qed.

Lemma bullets_walls (rnd : randoms) (now : Z) (deltaTime : num) (s : ServerState) :
  sameWalls s (bulletsUpdate Math_sin rnd now deltaTime s).
Proof.
  unfold sameWalls, bulletsUpdate. fields. split; [reflexivity|].
  apply (updateBullets_walls (gstate s) rnd now deltaTime (bullets s)
           (mkWorld (entities s) (gstate s) (tickHitEvents s) O)).
  apply sameObstacles_refl.
Qed.

Lemma broadcast_walls (B : ServerState) : sameWalls B (fst (broadcast B)).
Proof.
  rewrite broadcast_only_grace. unfold sameWalls. fields.
  split; [reflexivity|apply sameObstacles_refl].
Qed.

Lemma with_hits_walls (s : ServerState) (hits : list HitEvent) : sameWalls s (with_hits s hits).
Proof. exact (sameWalls_refl s). Qed.

Lemma with_lastTime_walls (s : ServerState) (now : Z) : sameWalls s (with_lastTime s now).
Proof. exact (sameWalls_refl s). Qed.

Lemma beforeBroadcast_walls (now : Z) (rnd : randoms) (s : ServerState) :
  sameWalls s (beforeBroadcast Math_sin Math_cos now rnd s).
Proof.
  unfold beforeBroadcast. cbn zeta.
  eapply sameWalls_trans; [|apply bullets_walls].
  eapply sameWalls_trans; [|apply spawn_walls].
  eapply sameWalls_trans; [|apply with_hits_walls].
  eapply sameWalls_trans; [|apply players_walls].
  eapply sameWalls_trans; [|apply bots_walls].
  apply with_lastTime_walls.
Qed.

Lemma tick_walls (now : Z) (rnd : randoms) (s : ServerState) :
  sameWalls s (fst (gameTick Math_sin Math_cos now rnd s)).
Proof.
  rewrite gameTick_eq.
  eapply sameWalls_trans; [apply beforeBroadcast_walls|apply broadcast_walls].
Qed.

Lemma open_walls (ws now : Z) (r1 r2 : num) (s : ServerState) :
  sameWalls s (open Math_sin ws now r1 r2 s).
Proof.
  unfold sameWalls, open, startGameLoop. cbn zeta. fields.
  match goal with
  | |- obstacles (if ?c then ?a else ?b) = _ /\ _ =>
      assert (He : obstacles (if c then a else b) = obstacles a) by (destruct c; reflexivity);
      assert (Hg : gstate (if c then a else b) = gstate a) by (destruct c; reflexivity)
  end.
  rewrite He, Hg. fields. split; [reflexivity|].
  apply sameObstacles_update. apply sameObstacles_refl.
Qed.

Lemma close_walls (ws : Z) (s : ServerState) : sameWalls s (close ws s).
Proof.
  unfold sameWalls, close.
  destruct (id_get (clients s) ws) as [client|]; [|apply sameWalls_refl]. cbn zeta.
  match goal with
  | |- obstacles (if ?c then stopGameLoop ?a else ?a) = _ /\ _ =>
      assert (He : obstacles (if c then stopGameLoop a else a) = obstacles a)
        by (unfold stopGameLoop; destruct c; [destruct (running a)|]; reflexivity);
      assert (Hg : gstate (if c then stopGameLoop a else a) = gstate a)
        by (unfold stopGameLoop; destruct c; [destruct (running a)|]; reflexivity)
  end.
  rewrite He, Hg. fields. split; [reflexivity|].
  apply sameObstacles_remove. apply sameObstacles_refl.
Qed.

Lemma message_walls (ws : Z) (buf : Protocol.buffer) (s : ServerState) :
  sameWalls s (message ws buf s).
Proof.
  unfold message.
  destruct (id_get (clients s) ws) as [client|]; [|exact (sameWalls_refl s)].
  destruct (Protocol.getUint8 buf 0); [|exact (sameWalls_refl s)].
  destruct (_ =? Protocol.MSG_INPUT).
  - destruct (Protocol.decodeInput buf) as [input|]; [|exact (sameWalls_refl s)]. fields.
    destruct (id_get (entities s) (c_id client)) as [entity|]; exact (sameWalls_refl s).
  - destruct (_ =? Protocol.MSG_SHOOT).
    + destruct (Protocol.decodeShoot buf); exact (sameWalls_refl s).
    + destruct (_ =? Protocol.MSG_TOGGLE_MODE); [|exact (sameWalls_refl s)].
      destruct (Protocol.decodeToggleMode buf); exact (sameWalls_refl s).
Qed.

Lemma step_walls (s : ServerState) (ev : Event) : sameWalls s (step Math_sin Math_cos s ev).
Proof.
  destruct ev as [ws now r1 r2|ws buf|ws|now rnd]; cbn [step].
  - destruct (id_has (clients s) ws); [apply sameWalls_refl|apply open_walls].
  - apply message_walls.
  - apply close_walls.
  - destruct (running s); [apply tick_walls|apply sameWalls_refl].
Qed.

Lemma run_walls (evs : list Event) :
  forall s, sameWalls s (run Math_sin Math_cos evs s).
Proof.
  unfold run. induction evs as [|ev rest IH]; intros s; cbn [fold_left]; [apply sameWalls_refl|].
  eapply sameWalls_trans; [apply step_walls|apply IH].
Qed.

Lemma initializeWorld_walls (terrain : list Obstacle) (rnd : randoms) (seed loadTime : Z) :
  let s := initializeWorld Math_sin terrain rnd seed loadTime in
  let g := createSpatialGrid terrain in
  obstacles s = terrain /\
  sameObstacles (mkGridState g [] (buildNearbyObstaclesCache g)) (gstate s).
Proof.
  cbn zeta. unfold initializeWorld. cbn zeta. fields. split; [reflexivity|].
  generalize (Bots.createBots Math_sin BOTS_COUNT rnd). intros bots.
  set (gs0 := mkGridState _ _ _).
  assert (H : forall gs, sameObstacles gs0 gs ->
                sameObstacles gs0
                  (fold_left (fun gs (entry : Z * Entity) =>
                                updateEntityInGrid gs (fst entry) (position (snd entry)))
                             bots gs)).
  { induction bots as [|entry rest IH]; intros gs Hgs; cbn [fold_left]; [exact Hgs|].
    apply IH. apply sameObstacles_update. exact Hgs. }
  apply H. apply sameObstacles_refl.
Qed.

(** X27.  Nothing that happens in a run changes the obstacles: after any
    sequence of connections, messages, disconnections and ticks from the
    start of the server, the obstacle list is the terrain the world was
    generated with, every cell of the grid lists the obstacles that
    [createSpatialGrid] filed under it, the cache of nearby obstacles is the
    one built at the start, and [hasLineOfSight], [canSeeEntity] and
    [getNearbyObstacles] answer as they do on the freshly built grid. *)
Theorem run_keeps_obstacles (terrain : list Obstacle) (rnd : randoms) (seed loadTime : Z)
  (evs : list Event) (a b : Vector3) (x z : num) :
  let s := run Math_sin Math_cos evs (initializeWorld Math_sin terrain rnd seed loadTime) in
  let g := createSpatialGrid terrain in
  obstacles s = terrain /\
  (forall k, obstaclesAt (cells (grid (gstate s))) k = obstaclesAt (cells g) k) /\
  nearbyObstaclesCache (gstate s) = buildNearbyObstaclesCache g /\
  Los.hasLineOfSight a b (grid (gstate s)) = Los.hasLineOfSight a b g /\
  Los.canSeeEntity a b (grid (gstate s)) = Los.canSeeEntity a b g /\
  getNearbyObstacles (gstate s) x z =
  getNearbyObstacles (mkGridState g [] (buildNearbyObstaclesCache g)) x z.
Proof.
  cbn zeta.
  destruct (initializeWorld_walls terrain rnd seed loadTime) as [Ho Hg]. cbn zeta in Ho, Hg.
  destruct (run_walls evs (initializeWorld Math_sin terrain rnd seed loadTime)) as [Ho' Hg'].
  pose proof (sameObstacles_trans _ _ _ Hg Hg') as [Hk Hc]. cbn [grid nearbyObstaclesCache] in Hk, Hc.
  split; [congruence|]. split; [exact Hk|]. split; [exact Hc|].
  split; [exact (hasLineOfSight_obstaclesAt _ _ a b Hk)|].
  split; [exact (canSeeEntity_obstaclesAt _ _ a b Hk)|].
  unfold getNearbyObstacles. rewrite Hc. reflexivity.
Qed.

End Walls.

(** ** Hit points and bullets over a run *)

Section Health.
Import Terrain Spatial Index.
Open Scope Z_scope.
Variables Math_sin Math_cos : num -> num.

(** The entity [e] stored under [id] carries that id and is alive. *)
Definition okEntity (id : Z) (e : Entity) : Prop :=
  e_id e = id /\ 0 < hp e <= maxHp e /\ maxHp e = 100.

Definition okTable (ents : idmap Entity) : Prop :=
  forall id e, In (id, e) ents -> okEntity id e.

(** A bullet as [gameTick] spawns them. *)
Definition okBullet (b : Bullet) : Prop :=
  damage b = BULLET_DAMAGE /\ speed b = BULLET_SPEED.

Definition Sound (s : ServerState) : Prop :=
  okTable (entities s) /\ Forall okBullet (bullets s).

Lemma okTable_set (ents : idmap Entity) (id : Z) (e : Entity) :
  okTable ents -> okEntity id e -> okTable (id_set ents id e).
Proof.
  intros Ht He id' e' Hin. apply (In_set Z.eqb Zeqb_spec) in Hin.
  destruct Hin as [Heq|Hin]; [inversion Heq; subst; exact He|exact (Ht _ _ Hin)].
Qed.

Lemma okTable_delete (ents : idmap Entity) (id : Z) :
  okTable ents -> okTable (id_delete ents id).
Proof.
  intros Ht id' e' Hin. apply (In_delete Z.eqb Zeqb_spec) in Hin. exact (Ht _ _ (proj1 Hin)).
Qed.

Lemma okTable_get (ents : idmap Entity) (id : Z) (e : Entity) :
  okTable ents -> id_get ents id = Some e -> okEntity id e.
Proof. intros Ht He. apply Ht. apply (get_Some_In Z.eqb Zeqb_spec). exact He. Qed.

Lemma okTable_app (a b : idmap Entity) : okTable a -> okTable b -> okTable (a ++ b).
Proof.
  intros Ha Hb id e Hin. apply in_app_or in Hin. destruct Hin; [apply Ha|apply Hb]; assumption.
Qed.

Lemma botsUpdate_ok (deltaTime : num) (gs : GridState) (l : idmap Entity) :
  forall acc, okTable l -> okTable (fst acc) ->
    okTable (fst (fold_left (botStep Math_sin Math_cos deltaTime gs) l acc)).
Proof.
  induction l as [|[id e] rest IH]; intros acc Hl Hacc; cbn [fold_left]; [exact Hacc|].
  apply IH; [intros id' e' Hin; apply Hl; right; exact Hin|].
  assert (He : okEntity id e) by (apply Hl; left; reflexivity).
  unfold botStep. cbn [fst snd]. destruct (negb (isPlayer e)); cbn [fst].
  - apply okTable_app; [exact Hacc|].
    intros id' e' [Heq|[]]. inversion Heq; subst id' e'.
    pose proof (updateBot_spec Math_sin Math_cos e deltaTime gs (snd acc)) as Hk.
    cbn zeta in Hk. destruct Hk as (Hid & _ & Hhp & Hmax & _).
    unfold okEntity. rewrite Hid, Hhp, Hmax. exact He.
  - apply okTable_app; [exact Hacc|].
    intros id' e' [Heq|[]]. inversion Heq; subst id' e'. exact He.
Qed.

Lemma bots_Sound (deltaTime : num) (s : ServerState) :
  Sound s -> Sound (botsGridUpdate (botsUpdate Math_sin Math_cos deltaTime s)).
Proof.
  intros [Ht Hb]. unfold Sound, botsGridUpdate, botsUpdate. fields. split; [|exact Hb].
  apply botsUpdate_ok; [exact Ht|intros id e []].
Qed.

Lemma movePlayer_ok (deltaTime : num) (client : ClientConnection)
  (w : idmap Entity * GridState) :
  okTable (fst w) -> okTable (fst (movePlayer Math_sin deltaTime client w)).
Proof.
  destruct w as [ents gs]. cbn [fst]. intros F. unfold movePlayer.
  destruct (id_get ents (c_id client)) as [entity|] eqn:He; [|exact F].
  destruct (_ || _); [|exact F].
  destruct (slide gs (position entity) _ _) as [finalX finalZ].
  destruct (_ || _); [|exact F].
  cbn [fst]. apply okTable_set; [exact F|].
  exact (okTable_get ents (c_id client) entity F He).
Qed.

Lemma players_Sound (deltaTime : num) (s : ServerState) :
  Sound s -> Sound (playersUpdate Math_sin deltaTime s).
Proof.
  intros [Ht Hb]. unfold Sound, playersUpdate. fields. split; [|exact Hb].
  assert (H : forall l w, okTable (fst w) ->
                okTable (fst (fold_left (playerStep Math_sin deltaTime) l w))).
  { induction l as [|entry rest IH]; intros w Fw; cbn [fold_left]; [exact Fw|].
    apply IH. unfold playerStep. apply movePlayer_ok. exact Fw. }
  apply (H (clients s) (entities s, gstate s)). exact Ht.
Qed.

(** The bullets after the spawning loop: those before it, and new ones
    created at [now]. *)
Lemma bulletsSpawn_bullets (now : Z) (s : ServerState) :
  entities (bulletsSpawn Math_sin Math_cos now s) = entities s /\
  forall b, In b (bullets (bulletsSpawn Math_sin Math_cos now s)) ->
            In b (bullets s) \/ (createdAt b = now /\ okBullet b).
Proof.
  unfold bulletsSpawn.
  assert (H : forall l s',
            entities s' = entities s ->
            (forall b, In b (bullets s') -> In b (bullets s) \/ (createdAt b = now /\ okBullet b)) ->
            entities (fold_left (spawnFor Math_sin Math_cos now) l s') = entities s /\
            forall b, In b (bullets (fold_left (spawnFor Math_sin Math_cos now) l s')) ->
                      In b (bullets s) \/ (createdAt b = now /\ okBullet b)).
  { induction l as [|[ws client] rest IH]; intros s' He Hb; cbn [fold_left]; [tauto|].
    apply IH.
    - unfold spawnFor. destruct (mayFire now client); [|exact He].
      destruct (id_get (entities s') (c_id client)); exact He.
    - unfold spawnFor. destruct (mayFire now client); [|exact Hb].
      destruct (id_get (entities s') (c_id client)) as [entity|]; [|exact Hb].
      fields. intros b Hin. apply in_app_or in Hin. destruct Hin as [Hin|[<-|[]]].
      + exact (Hb b Hin).
      + right. split; [reflexivity|split; reflexivity]. }
  apply H; [reflexivity|]. intros b Hin. left. exact Hin.
Qed.

Lemma spawn_Sound (now : Z) (s : ServerState) :
  Sound s -> Sound (bulletsSpawn Math_sin Math_cos now s).
Proof.
  intros [Ht Hb]. destruct (bulletsSpawn_bullets now s) as [He Hin].
  unfold Sound. rewrite He. split; [exact Ht|].
  apply Forall_forall. intros b Hb'. destruct (Hin b Hb') as [H|[_ H]]; [|exact H].
  exact (proj1 (Forall_forall _ _) Hb b H).
Qed.

Lemma hitEntityAt_ok (rnd : randoms) (bullet : Bullet) (prev new : Vector3) (id : Z)
  (entity : Entity) (w : World) :
  okBullet bullet -> okTable (w_entities w) -> id_get (w_entities w) id = Some entity ->
  okTable (w_entities (hitEntityAt Math_sin rnd bullet prev new id entity w)).
Proof.
  intros [Hd _] Ht He.
  destruct (okTable_get _ _ _ Ht He) as (Hid & Hhp & Hmax).
  unfold hitEntityAt. cbn zeta. cbn [hp setHp].
  rewrite Hd. change BULLET_DAMAGE with 20.
  destruct (Z.max 0 (hp entity - 20) <=? 0) eqn:E; cbn [w_entities];
    apply okTable_set; try exact Ht; unfold okEntity;
    cbn [hp e_id maxHp setHp setPosition].
  - repeat split; try assumption; lia.
  - apply Z.leb_gt in E. repeat split; try assumption; lia.
Qed.

(** A bullet that survives its sub-steps differs from the one before in its
    position only. *)
Lemma stepBullet_survivor (rnd : randoms) (steps : nat) (stepSize : num) :
  forall (bullet b' : Bullet) (w : World),
    fst (stepBullet Math_sin rnd steps stepSize bullet w) = Some b' ->
    b' = setBulletPosition bullet (b_position b').
Proof.
  induction steps as [|n IH]; intros bullet b' w; cbn [stepBullet].
  - cbn [fst]. intros H. inversion H; subst. destruct b'; reflexivity.
  - cbn zeta. destruct (_ >=? _).
    + destruct (id_get (w_entities w) _); cbn [fst]; discriminate.
    + destruct (checkObstacleAt _ _ _ _); [cbn [fst]; discriminate|].
      destruct (_ || _); [cbn [fst]; discriminate|].
      intros H. apply IH in H. rewrite H at 1. destruct bullet; reflexivity.
Qed.

Lemma stepBullet_ok (rnd : randoms) (steps : nat) (stepSize : num) :
  forall (bullet : Bullet) (w : World),
    okBullet bullet -> okTable (w_entities w) ->
    okTable (w_entities (snd (stepBullet Math_sin rnd steps stepSize bullet w))).
Proof.
  induction steps as [|n IH]; intros bullet w Hb F; cbn [stepBullet]; [exact F|].
  cbn zeta. destruct (_ >=? _).
  - destruct (id_get (w_entities w) _) as [entity|] eqn:He; cbn [snd]; [|exact F].
    apply hitEntityAt_ok; assumption.
  - destruct (checkObstacleAt _ _ _ _); [exact F|].
    destruct (_ || _); [exact F|]. apply IH; [exact Hb|exact F].
Qed.

(** The bullet loop keeps the table sound. *)
Lemma updateBullets_ok (rnd : randoms) (now : Z) (deltaTime : num) (bs : list Bullet)
  (w : World) :
  Forall okBullet bs -> okTable (w_entities w) ->
  okTable (w_entities (snd (updateBullets Math_sin rnd now deltaTime bs w))).
Proof.
  intros Hbs F. unfold updateBullets.
  induction bs as [|b rest IH]; cbn [fold_right]; [exact F|].
  inversion Hbs as [|? ? Hb Hrest]; subst.
  specialize (IH Hrest).
  set (acc := fold_right _ _ rest) in *.
  unfold bulletStep. cbn zeta.
  assert (Hw : okTable (w_entities (snd (updateBullet Math_sin rnd now deltaTime b (snd acc))))).
  { unfold updateBullet. destruct (_ >? _); [exact IH|]. apply stepBullet_ok; assumption. }
  destruct (fst (updateBullet Math_sin rnd now deltaTime b (snd acc))); exact Hw.
Qed.

(** The bullet loop: a bullet that is left was in the list, is not older
    than its lifetime and has only moved. *)
Lemma updateBullets_left (rnd : randoms) (now : Z) (deltaTime : num) (bs : list Bullet)
  (w : World) (b' : Bullet) :
  In b' (fst (updateBullets Math_sin rnd now deltaTime bs w)) ->
  exists b, In b bs /\ now - createdAt b <= BULLET_LIFETIME /\
            b' = setBulletPosition b (b_position b').
Proof.
  unfold updateBullets.
  induction bs as [|b rest IH]; cbn [fold_right]; [intros []|].
  set (acc := fold_right _ _ rest) in *.
  unfold bulletStep. cbn zeta.
  assert (Hs : forall b1, fst (updateBullet Math_sin rnd now deltaTime b (snd acc)) = Some b1 ->
                          now - createdAt b <= BULLET_LIFETIME /\
                          b1 = setBulletPosition b (b_position b1)).
  { intros b1. unfold updateBullet. destruct (now - createdAt b >? BULLET_LIFETIME) eqn:E;
      [cbn [fst]; discriminate|].
    intros H. split; [|exact (stepBullet_survivor _ _ _ _ _ _ H)].
    destruct (Z.gtb_spec (now - createdAt b) BULLET_LIFETIME); [discriminate|lia]. }
  destruct (fst (updateBullet Math_sin rnd now deltaTime b (snd acc))) as [b1|]; cbn [fst].
  - intros Hin. cbn [In] in Hin. destruct Hin as [<-|Hin].
    + exists b. destruct (Hs b1 eq_refl) as [H1 H2]. split; [left; reflexivity|tauto].
    + destruct (IH Hin) as (b0 & H0 & H1). exists b0. split; [right; exact H0|exact H1].
  - intros Hin. destruct (IH Hin) as (b0 & H0 & H1).
    exists b0. split; [right; exact H0|exact H1].
Qed.

Lemma moved_ok (b : Bullet) (p : Vector3) : okBullet b -> okBullet (setBulletPosition b p).
Proof. intros H. exact H. Qed.

Lemma bullets_Sound (rnd : randoms) (now : Z) (deltaTime : num) (s : ServerState) :
  Sound s -> Sound (bulletsUpdate Math_sin rnd now deltaTime s).
Proof.
  intros [Ht Hb]. unfold Sound, bulletsUpdate. fields.
  split.
  - exact (updateBullets_ok rnd now deltaTime (bullets s)
             (mkWorld (entities s) (gstate s) (tickHitEvents s) O) Hb Ht).
  - apply Forall_forall. intros b' Hin.
    destruct (updateBullets_left rnd now deltaTime (bullets s)
                (mkWorld (entities s) (gstate s) (tickHitEvents s) O) b' Hin)
      as (b & Hb0 & _ & ->).
    apply moved_ok. exact (proj1 (Forall_forall _ _) Hb b Hb0).
Qed.

Lemma broadcast_Sound (B : ServerState) : Sound B -> Sound (fst (broadcast B)).
Proof. intros F. rewrite broadcast_only_grace. exact F. Qed.

Lemma with_hits_Sound (s : ServerState) (hits : list HitEvent) :
  Sound s -> Sound (with_hits s hits).
Proof. intros F. exact F. Qed.

Lemma with_lastTime_Sound (s : ServerState) (now : Z) : Sound s -> Sound (with_lastTime s now).
Proof. intros F. exact F. Qed.

Lemma beforeBroadcast_Sound (now : Z) (rnd : randoms) (s : ServerState) :
  Sound s -> Sound (beforeBroadcast Math_sin Math_cos now rnd s).
Proof.
  intros F. unfold beforeBroadcast. cbn zeta.
  apply bullets_Sound. apply spawn_Sound. apply with_hits_Sound.
  apply players_Sound. apply bots_Sound. apply with_lastTime_Sound. exact F.
Qed.

Lemma tick_Sound (now : Z) (rnd : randoms) (s : ServerState) :
  Sound s -> Sound (fst (gameTick Math_sin Math_cos now rnd s)).
Proof.
  intros F. rewrite gameTick_eq. apply broadcast_Sound. apply beforeBroadcast_Sound. exact F.
Qed.

Lemma open_Sound (ws now : Z) (r1 r2 : num) (s : ServerState) :
  Sound s -> Sound (open Math_sin ws now r1 r2 s).
Proof.
  intros [Ht Hb]. unfold Sound.
  destruct (open_fields Math_sin ws now r1 r2 s) as (-> & _ & _ & -> & _).
  split; [|exact Hb]. apply okTable_set; [exact Ht|].
  unfold okEntity, newPlayer. cbn [e_id hp maxHp]. lia.
Qed.

Lemma close_Sound (ws : Z) (s : ServerState) : Sound s -> Sound (close ws s).
Proof.
  intros [Ht Hb]. unfold Sound.
  destruct (id_get (clients s) ws) as [client|] eqn:Hc.
  - destruct (close_fields ws s client Hc) as (-> & _ & _ & -> & _).
    split; [|exact Hb]. apply okTable_delete. exact Ht.
  - unfold close. rewrite Hc. split; assumption.
Qed.

Lemma message_Sound (ws : Z) (buf : Protocol.buffer) (s : ServerState) :
  Sound s -> Sound (message ws buf s).
Proof.
  intros F. unfold message.
  destruct (id_get (clients s) ws) as [client|]; [|exact F].
  destruct (Protocol.getUint8 buf 0); [|exact F].
  destruct (_ =? Protocol.MSG_INPUT).
  - destruct (Protocol.decodeInput buf) as [input|]; [|exact F]. fields.
    destruct (id_get (entities s) (c_id client)) as [entity|] eqn:He; [|exact F].
    destruct F as [Ht Hb]. unfold Sound. fields. split; [|exact Hb].
    apply okTable_set; [exact Ht|].
    exact (okTable_get _ _ _ Ht He).
  - destruct (_ =? Protocol.MSG_SHOOT).
    + destruct (Protocol.decodeShoot buf); exact F.
    + destruct (_ =? Protocol.MSG_TOGGLE_MODE); [|exact F].
      destruct (Protocol.decodeToggleMode buf); exact F.
Qed.

Lemma initializeWorld_Sound (terrain : list Obstacle) (rnd : randoms) (seed loadTime : Z) :
  Sound (initializeWorld Math_sin terrain rnd seed loadTime).
Proof.
  unfold Sound, initializeWorld. cbn zeta. fields. split; [|constructor].
  unfold Bots.createBots. intros id e Hin. apply in_map_iff in Hin.
  destruct Hin as [i [Heq _]]. inversion Heq; subst.
  unfold okEntity, Bots.createBot. cbn [e_id hp maxHp]. lia.
Qed.

Lemma step_Sound (s : ServerState) (ev : Event) :
  Sound s -> Sound (step Math_sin Math_cos s ev).
Proof.
  intros F. destruct ev as [ws now r1 r2|ws buf|ws|now rnd]; cbn [step].
  - destruct (id_has (clients s) ws); [exact F|apply open_Sound; exact F].
  - apply message_Sound. exact F.
  - apply close_Sound. exact F.
  - destruct (running s); [apply tick_Sound; exact F|exact F].
Qed.

Lemma reachable_Sound (s : ServerState) : reachable Math_sin Math_cos s -> Sound s.
Proof.
  induction 1 as [terrain rnd seed loadTime|s ev _ IH].
  - apply initializeWorld_Sound.
  - apply step_Sound. exact IH.
Qed.

(** X28.  In every state a run of the server reaches, the entity stored
    under an id carries that id, its hit points are at least 1 and at most
    its maximum, which is 100; and every bullet has the damage 20 and the
    speed of the bullets [gameTick] spawns.  (A hit that would take the hit
    points to zero or below refills them at once, so no entity of the table
    is ever at zero.) *)
Theorem reachable_entities_alive (s : ServerState) :
  reachable Math_sin Math_cos s ->
  (forall id e, id_get (entities s) id = Some e ->
                e_id e = id /\ 1 <= hp e <= 100 /\ maxHp e = 100) /\
  Forall (fun b => damage b = 20 /\ speed b = BULLET_SPEED) (bullets s).
Proof.
  intros H. destruct (reachable_Sound s H) as [Ht Hb]. split; [|exact Hb].
  intros id e He. destruct (okTable_get _ _ _ Ht He) as (H1 & H2 & H3).
  split; [exact H1|]. split; [lia|exact H3].
Qed.

(** The bullets are not touched before the spawning loop of a tick. *)
Lemma hits_bullets (s : ServerState) (hits : list HitEvent) :
  bullets (with_hits s hits) = bullets s.
Proof. reflexivity. Qed.

Lemma lastTime_bullets (s : ServerState) (now : Z) : bullets (with_lastTime s now) = bullets s.
Proof. reflexivity. Qed.

Lemma players_bullets (deltaTime : num) (s : ServerState) :
  bullets (playersUpdate Math_sin deltaTime s) = bullets s.
Proof. reflexivity. Qed.

Lemma bots_bullets (deltaTime : num) (s : ServerState) :
  bullets (botsGridUpdate (botsUpdate Math_sin Math_cos deltaTime s)) = bullets s.
Proof. reflexivity. Qed.

(** What a bullet left after a tick at [now] of a state with the bullets
    [before] is. *)
Definition flown (now : Z) (before : list Bullet) (b' : Bullet) : Prop :=
  now - createdAt b' <= BULLET_LIFETIME /\
  exists b, b' = setBulletPosition b (b_position b') /\
            (In b before \/ createdAt b = now).

Lemma bulletsUpdate_bullets (rnd : randoms) (now : Z) (deltaTime : num) (s : ServerState)
  (b' : Bullet) :
  In b' (bullets (bulletsUpdate Math_sin rnd now deltaTime s)) ->
  now - createdAt b' <= BULLET_LIFETIME /\
  exists b, b' = setBulletPosition b (b_position b') /\ In b (bullets s).
Proof.
  unfold bulletsUpdate. fields. intros Hin.
  destruct (updateBullets_left rnd now deltaTime (bullets s)
              (mkWorld (entities s) (gstate s) (tickHitEvents s) O) b' Hin)
    as (b & Hb0 & Hage & Hmv).
  split; [rewrite Hmv; exact Hage|].
  exists b. split; [exact Hmv|exact Hb0].
Qed.

Lemma spawn_stage (rnd : randoms) (now : Z) (deltaTime : num) (s : ServerState) (b' : Bullet) :
  In b' (bullets (bulletsUpdate Math_sin rnd now deltaTime
                    (bulletsSpawn Math_sin Math_cos now s))) ->
  flown now (bullets s) b'.
Proof.
  intros Hin.
  destruct (bulletsUpdate_bullets rnd now deltaTime _ b' Hin) as (Hage & b & Hmv & Hb0).
  split; [exact Hage|]. exists b. split; [exact Hmv|].
  destruct (bulletsSpawn_bullets now s) as [_ Hsp].
  destruct (Hsp b Hb0) as [H|[H _]]; [left; exact H|right; exact H].
Qed.

Lemma beforeBroadcast_bullets (now : Z) (rnd : randoms) (s : ServerState) (b' : Bullet) :
  In b' (bullets (beforeBroadcast Math_sin Math_cos now rnd s)) ->
  flown now (bullets s) b'.
Proof.
  unfold beforeBroadcast. cbn zeta. intros Hin.
  apply spawn_stage in Hin.
  rewrite hits_bullets, players_bullets, bots_bullets, lastTime_bullets in Hin. exact Hin.
Qed.

Lemma broadcast_bullets (B : ServerState) : bullets (fst (broadcast B)) = bullets B.
Proof. rewrite broadcast_only_grace. reflexivity. Qed.

Lemma tick_bullets_spec (now : Z) (rnd : randoms) (s : ServerState) (b' : Bullet) :
  In b' (bullets (fst (gameTick Math_sin Math_cos now rnd s))) ->
  flown now (bullets s) b'.
Proof.
  rewrite gameTick_eq, broadcast_bullets. apply beforeBroadcast_bullets.
Qed.

End Health.

Section BulletAge.
Import Terrain Spatial Index.
Open Scope Z_scope.
Variables Math_sin Math_cos : num -> num.

(** X29.  After a tick at time [now] of any state, every bullet left in the
    list was created at most BULLET_LIFETIME = 3000 ms before [now], and it
    is a bullet of the list before the tick, or one spawned in this tick
    (created at [now]), that differs from it in its position only: a tick
    moves bullets, removes them or adds new ones, and never changes the
    id, owner, direction, speed, damage or creation time of one. *)
Theorem tick_bullets (now : Z) (rnd : randoms) (s : ServerState) :
  Forall (fun b' =>
            now - createdAt b' <= 3000 /\
            exists b, b' = setBulletPosition b (b_position b') /\
                      (In b (bullets s) \/ createdAt b = now))
         (bullets (fst (gameTick Math_sin Math_cos now rnd s))).
Proof.
  apply Forall_forall. intros b' Hin.
  exact (tick_bullets_spec Math_sin Math_cos now rnd s b' Hin).
Qed.

End BulletAge.

Section HealthExamples.
Import Terrain Spatial Index Scenario.
Open Scope Z_scope.

Lemma reachable_entities_alive_witness :
  (forall id e, id_get (entities bootOpened) id = Some e ->
                e_id e = id /\ 1 <= hp e <= 100 /\ maxHp e = 100) /\
  Forall (fun b => damage b = 20 /\ speed b = BULLET_SPEED) (bullets bootOpened).
Proof.
  exact (reachable_entities_alive sinTaylor cosTaylor bootOpened bootOpened_reachable).
Defined.

End HealthExamples.
